(** * terraform-provider-azurestack: the provider's shared utilities and
      resource operations, embedded in Rocq.

    Go strings are byte sequences and are modelled as [string]; a Go
    pointer that may be nil is an [option]; a nil dereference, which
    panics in Go, is the [None] of the result.  Calls into the Azure SDK
    are inputs of the operations: an operation is a function of the
    values the SDK hands back. *)

From Stdlib Require Import ZArith NArith Ascii String List Lia Bool.
From stdpp Require Import base option list gmap strings relations.

Open Scope string_scope.
Open Scope list_scope.

(** ** MutexKV (src/azurestack/data_source_virtual_network.go, lines 380-423) *)

Module MutexKV.

(** A [*sync.Mutex] is the address of a cell in the heap of mutexes;
    the cell holds the mutex's state, [true] when it is locked.
    [&sync.Mutex{}] allocates the next cell, unlocked. *)
Definition mutex := nat.

(** [type MutexKV struct { lock sync.Mutex; store map[string]*sync.Mutex }].
    The field [lock] is the state of the registry's own mutex. *)
Record t : Type := mk {
  lock : bool;
  store : gmap string mutex;
  heap : list bool
}.

(** [func NewMutexKV() *MutexKV] *)
Definition NewMutexKV : t := mk false ∅ [].

(** The body of [func (m *MutexKV) get(key string) *sync.Mutex], which
    runs between [m.lock.Lock()] and the deferred [m.lock.Unlock()]. *)
Definition get (key : string) (m : t) : mutex * t :=
  match store m !! key with
  | Some mu => (mu, m)
  | None =>
      let mu := length (heap m) in
      (mu, mk (lock m) (<[key := mu]> (store m)) (heap m ++ [false]))
  end.

(** The calls a client of the registry makes.  [sync.Mutex.Lock] returns
    only once the mutex is free, and [sync.Mutex.Unlock] of a mutex that
    is not locked is a fatal error: a call that does not return has no
    state after it.  A [Lock] that never returns has still run [get],
    which is what [OpGet] does. *)
Inductive op : Type :=
| OpLock (key : string)
| OpUnlock (key : string)
| OpGet (key : string).

(** [func (m *MutexKV) Lock(key string)] is [m.get(key).Lock()] and
    [func (m *MutexKV) Unlock(key string)] is [m.get(key).Unlock()]. *)
Definition apply (o : op) (m : t) : option t :=
  match o with
  | OpGet key => Some (snd (get key m))
  | OpLock key =>
      let '(mu, m') := get key m in
      match heap m' !! mu with
      | Some false => Some (mk (lock m') (store m') (<[mu := true]> (heap m')))
      | _ => None
      end
  | OpUnlock key =>
      let '(mu, m') := get key m in
      match heap m' !! mu with
      | Some true => Some (mk (lock m') (store m') (<[mu := false]> (heap m')))
      | _ => None
      end
  end.

Fixpoint run (ops : list op) (m : t) : option t :=
  match ops with
  | [] => Some m
  | o :: ops' =>
      match apply o m with
      | Some m' => run ops' m'
      | None => None
      end
  end.

(** The registry is well formed when every stored pointer is allocated
    and no two keys share a pointer. *)
Definition wf (m : t) : Prop :=
  (∀ k mu, store m !! k = Some mu → mu < length (heap m)) ∧
  (∀ k1 k2 mu, store m !! k1 = Some mu → store m !! k2 = Some mu → k1 = k2).

(** [m'] extends [m]: every binding of [m] is still there. *)
Definition extends (m m' : t) : Prop :=
  ∀ k mu, store m !! k = Some mu → store m' !! k = Some mu.

(** *** Goroutines calling the registry

    Terraform runs resource operations in parallel goroutines.  A goroutine
    is at one of the following places of [Lock(key); body; Unlock(key)];
    [get] is entered from [Lock] or from [Unlock]. *)
Inductive caller : Type := FromLock | FromUnlock.

Inductive pc : Type :=
| Idle
| GetEnter (c : caller) (key : string)
| GetLookup (c : caller) (key : string)
| GetAlloc (c : caller) (key : string)
| GetReturn (c : caller) (key : string) (mu : mutex)
| MutexLock (key : string) (mu : mutex)
| Critical (key : string)
| MutexUnlock (key : string) (mu : mutex)
| Fatal.

(** A goroutine and the keys of the operations it still has to run. *)
Record goroutine : Type := Go { at_pc : pc; todo : list string }.

(** One step of a goroutine.  [None]: the goroutine cannot move, because it
    waits for a mutex, has nothing left to run, or died.
    - [Idle]: the next operation calls [armMutexKV.Lock(key)];
    - [GetEnter]: [m.lock.Lock()], which waits while the lock is taken;
    - [GetLookup]: [mutex, ok := m.store[key]];
    - [GetAlloc]: [mutex = &sync.Mutex{}; m.store[key] = mutex];
    - [GetReturn]: the deferred [m.lock.Unlock()], and the return to the caller;
    - [MutexLock]: [.Lock()] on the mutex [get] returned, which waits while
      that mutex is locked;
    - [Critical]: the body is over and the deferred [armMutexKV.Unlock(key)] starts;
    - [MutexUnlock]: [.Unlock()] on the mutex [get] returned, fatal when the
      mutex is not locked. *)
Definition next (g : goroutine) (m : t) : option (goroutine * t) :=
  match at_pc g with
  | Idle =>
      match todo g with
      | key :: keys => Some (Go (GetEnter FromLock key) keys, m)
      | [] => None
      end
  | GetEnter c key =>
      if lock m then None
      else Some (Go (GetLookup c key) (todo g), mk true (store m) (heap m))
  | GetLookup c key =>
      match store m !! key with
      | Some mu => Some (Go (GetReturn c key mu) (todo g), m)
      | None => Some (Go (GetAlloc c key) (todo g), m)
      end
  | GetAlloc c key =>
      let mu := length (heap m) in
      Some (Go (GetReturn c key mu) (todo g),
            mk (lock m) (<[key := mu]> (store m)) (heap m ++ [false]))
  | GetReturn c key mu =>
      Some (Go (match c with FromLock => MutexLock key mu | FromUnlock => MutexUnlock key mu end)
               (todo g),
            mk false (store m) (heap m))
  | MutexLock key mu =>
      match heap m !! mu with
      | Some false => Some (Go (Critical key) (todo g), mk (lock m) (store m) (<[mu := true]> (heap m)))
      | _ => None
      end
  | Critical key => Some (Go (GetEnter FromUnlock key) (todo g), m)
  | MutexUnlock key mu =>
      match heap m !! mu with
      | Some true => Some (Go Idle (todo g), mk (lock m) (store m) (<[mu := false]> (heap m)))
      | _ => Some (Go Fatal (todo g), m)
      end
  | Fatal => None
  end.

(** The registry shared by all goroutines, and the goroutines. *)
Definition world : Type := t * list goroutine.

(** The scheduler lets goroutine [i] take its next step. *)
Definition step_of (i : nat) (w : world) : option world :=
  match w.2 !! i with
  | Some g =>
      match next g w.1 with
      | Some (g', m') => Some (m', <[i := g']> w.2)
      | None => None
      end
  | None => None
  end.

Definition step (w w' : world) : Prop := ∃ i, step_of i w = Some w'.

(** A schedule is the list of the goroutines that move, in order. *)
Fixpoint schedule (sched : list nat) (w : world) : option world :=
  match sched with
  | [] => Some w
  | i :: sched' =>
      match step_of i w with
      | Some w' => schedule sched' w'
      | None => None
      end
  end.

(** Every goroutine is given the keys of its operations; [armMutexKV] is new. *)
Definition start (keys : list (list string)) : world :=
  (NewMutexKV, Go Idle <$> keys).

Definition reachable (keys : list (list string)) (w : world) : Prop :=
  rtc step (start keys) w.

(** Goroutine [i] runs the code between [Lock(key)] and [Unlock(key)]. *)
Definition in_critical (w : world) (i : nat) (key : string) : Prop :=
  ∃ g, w.2 !! i = Some g ∧ at_pc g = Critical key.

(** The goroutine holds the registry's own lock. *)
Definition holds (p : pc) : bool :=
  match p with
  | GetLookup _ _ | GetAlloc _ _ | GetReturn _ _ _ => true
  | _ => false
  end.

(** The goroutine has locked the mutex of a key and not yet unlocked it. *)
Definition owns (p : pc) : option string :=
  match p with
  | Critical key | GetEnter FromUnlock key | GetLookup FromUnlock key
  | GetAlloc FromUnlock key | GetReturn FromUnlock key _ | MutexUnlock key _ => Some key
  | _ => None
  end.

(** The goroutine carries a mutex that [get] found under a key. *)
Definition carries (p : pc) : option (string * mutex) :=
  match p with
  | GetReturn _ key mu | MutexLock key mu | MutexUnlock key mu => Some (key, mu)
  | _ => None
  end.

(** The goroutine found no mutex under a key. *)
Definition missed (p : pc) : option string :=
  match p with
  | GetAlloc _ key => Some key
  | _ => None
  end.

Record inv (w : world) : Prop := Inv {
  inv_wf : wf w.1;
  inv_lock : ∀ i g, w.2 !! i = Some g → holds (at_pc g) = true → lock w.1 = true;
  inv_holder : ∀ i j gi gj, w.2 !! i = Some gi → w.2 !! j = Some gj →
      holds (at_pc gi) = true → holds (at_pc gj) = true → i = j;
  inv_missed : ∀ i g key, w.2 !! i = Some g → missed (at_pc g) = Some key →
      store w.1 !! key = None;
  inv_carries : ∀ i g key mu, w.2 !! i = Some g → carries (at_pc g) = Some (key, mu) →
      store w.1 !! key = Some mu;
  inv_locked : ∀ i g key, w.2 !! i = Some g → owns (at_pc g) = Some key →
      ∃ mu, store w.1 !! key = Some mu ∧ heap w.1 !! mu = Some true;
  inv_owner : ∀ i j gi gj key, w.2 !! i = Some gi → w.2 !! j = Some gj →
      owns (at_pc gi) = Some key → owns (at_pc gj) = Some key → i = j
}.

Lemma wf_NewMutexKV : wf NewMutexKV.
Proof. split; intros *; cbn; by rewrite lookup_empty. Qed.

Lemma get_lookup key m : store (get key m).2 !! key = Some (get key m).1.
Proof.
unfold get. destruct (store m !! key) as [mu|] eqn:E; cbn; [done|].
apply lookup_insert_eq.
Qed.

Lemma get_stored key m mu : store m !! key = Some mu → get key m = (mu, m).
Proof. intros E. unfold get. by rewrite E. Qed.

Lemma get_extends key m : extends m (get key m).2.
Proof.
intros k mu Hk. unfold get. destruct (store m !! key) as [mu'|] eqn:E; cbn; [done|].
rewrite lookup_insert_ne; [done|]. intros ->. congruence.
Qed.

Lemma get_wf key m : wf m → wf (get key m).2.
Proof.
intros [Hb Hi]. unfold get. destruct (store m !! key) as [mu'|] eqn:E; cbn; [done|].
split; cbn.
- intros k mu. rewrite length_app; cbn. rewrite lookup_insert.
  case_decide; [intros [= <-]; lia|]. intros ?%Hb. lia.
- intros k1 k2 mu. rewrite !lookup_insert.
  repeat case_decide; subst; try done.
  + intros [= <-] ?%Hb. lia.
  + intros ?%Hb [= <-]. lia.
  + apply Hi.
Qed.

Lemma get_lock key m : lock (get key m).2 = lock m.
Proof. unfold get. by destruct (store m !! key). Qed.

Lemma apply_store o m m' :
  apply o m = Some m' →
  ∃ key, store m' = store (get key m).2 ∧ length (heap m') = length (heap (get key m).2).
Proof.
destruct o as [key|key|key]; cbn; destruct (get key m) as [mu m1] eqn:G;
  intros H; exists key; rewrite G; cbn.
- destruct (heap m1 !! mu) as [[]|]; simplify_eq. cbn. by rewrite length_insert.
- destruct (heap m1 !! mu) as [[]|]; simplify_eq. cbn. by rewrite length_insert.
- by simplify_eq.
Qed.

Lemma apply_wf o m m' : wf m → apply o m = Some m' → wf m'.
Proof.
intros Hwf (key & Hs & Hl)%apply_store. destruct (get_wf key m Hwf) as [Hb Hi].
split; rewrite ?Hs, ?Hl; [apply Hb | apply Hi].
Qed.

Lemma apply_extends o m m' : apply o m = Some m' → extends m m'.
Proof.
intros (key & Hs & _)%apply_store k mu Hk. rewrite Hs. by apply get_extends.
Qed.

Lemma run_wf ops : ∀ m m', wf m → run ops m = Some m' → wf m'.
Proof.
induction ops as [|o ops IH]; intros m m' Hwf; cbn; [by intros [= <-]|].
destruct (apply o m) as [m1|] eqn:E; [|done]. eauto using apply_wf.
Qed.

Lemma run_extends ops : ∀ m m', run ops m = Some m' → extends m m'.
Proof.
induction ops as [|o ops IH]; intros m m'; cbn; [by intros [= <-] ? ?|].
destruct (apply o m) as [m1|] eqn:E; [|done].
intros Hr k mu Hk. eapply IH; [done|]. by eapply apply_extends.
Qed.

(** *** The registry under concurrent goroutines *)

Ltac at_thread i j :=
  destruct (decide (j = i)) as [->|?];
  [rewrite list_lookup_insert_eq by done | rewrite list_lookup_insert_ne by done].

Ltac inv_cases i :=
  split; cbn;
  [ 
  | intros j gj; at_thread i j
  | intros j1 j2 g1 g2; at_thread i j1; at_thread i j2
  | intros j gj key'; at_thread i j
  | intros j gj key' mu'; at_thread i j
  | intros j gj key'; at_thread i j
  | intros j1 j2 g1 g2 key'; at_thread i j1; at_thread i j2 ].

Ltac easy_case := try done; try (intros; simplify_eq; cbn in *; simplify_eq; first [done | by eauto | congruence]).

Lemma next_inv m ts i g g' m' :
  inv (m, ts) → ts !! i = Some g → next g m = Some (g', m') → inv (m', <[i := g']> ts).
Proof.
intros [Hwf Hlock Hholder Hmissed Hcarries Hlocked Howner] Hi Hn. cbn in *.
assert (Hlt : i < length ts) by by eapply lookup_lt_Some.
destruct g as [p td]; destruct p; cbn in Hn.
- destruct td; simplify_eq. inv_cases i; easy_case.
- destruct (lock m) eqn:Hl; simplify_eq. inv_cases i; easy_case.
- destruct (store m !! key) as [mu|] eqn:Hs; simplify_eq; inv_cases i; easy_case.
- simplify_eq. 
  assert (Hnone : store m !! key = None) by (eapply Hmissed; eauto).
  assert (Hext : ∀ k mu, store m !! k = Some mu → <[key := length (heap m)]> (store m) !! k = Some mu).
  { intros k mu Hk. rewrite lookup_insert_ne; [done|congruence]. }
  inv_cases i; easy_case.
  + pose proof (get_wf key m Hwf) as H. unfold get in H. by rewrite Hnone in H.
  + intros Hj Hm. destruct gj as [[] ?]; simplify_eq/=.
    destruct n. by eapply (Hholder j i).
  + intros [= <-] [= <- <-]. apply lookup_insert_eq.
  + intros [= <-] Ho. destruct c; simplify_eq/=.
    destruct (Hlocked _ _ _ Hi eq_refl) as (mu & ? & _). congruence.
  + intros Hj Ho. destruct (Hlocked _ _ _ Hj Ho) as (mu & Hmu & Hh).
    exists mu. split; [by apply Hext|]. by apply lookup_app_l_Some.
- simplify_eq. destruct c; inv_cases i; easy_case.
- destruct (heap m !! mu) as [[]|] eqn:Hmu; simplify_eq.
  assert (Hkey : store m !! key = Some mu) by (eapply Hcarries; eauto).
  assert (Hfree : ∀ j gj, ts !! j = Some gj → owns (at_pc gj) = Some key → False).
  { intros j gj Hj Ho. destruct (Hlocked _ _ _ Hj Ho) as (mu0 & ? & ?). congruence. }
  inv_cases i; easy_case.
  + destruct Hwf as [Hb Hinj]. split; cbn; [|done]. intros ? ?. rewrite length_insert. eauto.
  + intros [= <-] [= <-]. exists mu. split; [done|].
    apply list_lookup_insert_eq. by eapply lookup_lt_Some.
  + intros Hj Ho. destruct (Hlocked _ _ _ Hj Ho) as (mu0 & ? & ?).
    exists mu0. split; [done|]. rewrite list_lookup_insert_ne; [done|congruence].
  + intros [= <-] Hj [= <-] Ho. destruct (Hfree _ _ Hj Ho).
  + intros Hj [= <-] Ho [= <-]. destruct (Hfree _ _ Hj Ho).
- simplify_eq. inv_cases i; easy_case.
- assert (Hkey : store m !! key = Some mu) by (eapply Hcarries; eauto).
  destruct (heap m !! mu) as [[]|] eqn:Hmu; simplify_eq; inv_cases i; easy_case.
  + destruct Hwf as [Hb Hinj]. split; cbn; [|done]. intros ? ?. rewrite length_insert. eauto.
  + intros Hj Ho. destruct (Hlocked _ _ _ Hj Ho) as (mu0 & Hk' & ?).
    exists mu0. split; [done|]. rewrite list_lookup_insert_ne; [done|].
    intros <-. destruct n. eapply (Howner j i); [done..| |done].
    by rewrite (proj2 Hwf _ _ _ Hkey Hk').
- done.
Qed.

(** The steps of a goroutine inside [get], from the lookup to the return,
    do to the registry what [get] does, and carry the mutex [get] returns. *)
Lemma next_get c key td m :
  match next (Go (GetLookup c key) td) m with
  | Some (g1, m1) =>
      (g1, m1) = (Go (GetReturn c key (get key m).1) td, (get key m).2) ∨
      next g1 m1 = Some (Go (GetReturn c key (get key m).1) td, (get key m).2)
  | None => False
  end.
Proof.
unfold get. cbn. destruct (store m !! key) as [mu|] eqn:Hs; cbn; [by left|by right].
Qed.

Lemma inv_start keys : inv (start keys).
Proof.
split; cbn; try apply wf_NewMutexKV.
all: intros *; rewrite ?list_lookup_fmap; intros; simplify_option_eq; done.
Qed.

Lemma step_inv w w' : inv w → step w w' → inv w'.
Proof.
intros Hinv [i Hs]. unfold step_of in Hs. destruct w as [m ts]; cbn in Hs.
destruct (ts !! i) as [g|] eqn:Hi; [|done].
destruct (next g m) as [[g' m']|] eqn:Hn; simplify_eq.
by eapply next_inv.
Qed.

Lemma reachable_inv keys w : reachable keys w → inv w.
Proof.
revert w. apply rtc_ind_r; [apply inv_start|]. intros ? ? _ ? ?. by eapply step_inv.
Qed.

(** C1. MutexKV registry invariant: after any sequence of Lock, Unlock and
    get calls on a new MutexKV, a call of get for a key returns a mutex that
    stays stored under that key whatever calls follow, every later get for
    an equal key returns that same mutex, and a later get for a different
    key returns a different mutex.  The same holds when the calls come from
    concurrent goroutines: whatever the schedule, two goroutines that are
    about to lock or unlock the mutex get returned to them hold the same
    mutex exactly when their keys are equal. *)
Theorem get_same_mutex_iff_same_key :
  (∀ ops1 ops2 key key' m m1 m2 m3 mu mu',
     run ops1 NewMutexKV = Some m →
     get key m = (mu, m1) →
     run ops2 m1 = Some m2 →
     get key' m2 = (mu', m3) →
     store m2 !! key = Some mu ∧ store m3 !! key = Some mu ∧ (mu = mu' ↔ key = key')) ∧
  (∀ keys w i j gi gj key key' mu mu',
     reachable keys w →
     w.2 !! i = Some gi → w.2 !! j = Some gj →
     carries (at_pc gi) = Some (key, mu) → carries (at_pc gj) = Some (key', mu') →
     (mu = mu' ↔ key = key')).
Proof.
split.
- intros ops1 ops2 key key' m m1 m2 m3 mu mu' Hr1 Hg Hr2 Hg'.
  assert (Hwf : wf m) by eauto using run_wf, wf_NewMutexKV.
  pose proof (get_wf key m Hwf) as Hwf1. pose proof (get_lookup key m) as Hl1.
  rewrite Hg in Hwf1, Hl1. cbn in Hwf1, Hl1.
  assert (Hwf2 : wf m2) by eauto using run_wf.
  pose proof (run_extends _ _ _ Hr2 _ _ Hl1) as Hl2.
  pose proof (get_wf key' m2 Hwf2) as Hwf3. pose proof (get_lookup key' m2) as Hl3.
  pose proof (get_extends key' m2 _ _ Hl2) as Hl3'.
  rewrite Hg' in Hwf3, Hl3, Hl3'. cbn in Hwf3, Hl3, Hl3'.
  split_and!; [done..|]. split.
  + intros <-. by eapply (proj2 Hwf3).
  + intros <-. congruence.
- intros keys w i j gi gj key key' mu mu' Hr%reachable_inv Hi Hj Hci Hcj.
  pose proof (inv_carries _ Hr _ _ _ _ Hi Hci) as Hk.
  pose proof (inv_carries _ Hr _ _ _ _ Hj Hcj) as Hk'.
  split.
  + intros <-. by eapply (proj2 (inv_wf _ Hr)).
  + intros <-. congruence.
Qed.

Lemma get_same_mutex_iff_same_key_witness :
  store (mk false {["lb1" := 0; "lb2" := 1]} [false; true]) !! "lb1" = Some 0 ∧
  store (mk false {["lb1" := 0; "lb2" := 1]} [false; true]) !! "lb1" = Some 0 ∧
  (0 = 1 ↔ "lb1" = "lb2").
Proof.
apply (proj1 get_same_mutex_iff_same_key [OpLock "lb1"] [OpLock "lb2"; OpUnlock "lb1"]
         "lb1" "lb2" (mk false {["lb1" := 0]} [true]) (mk false {["lb1" := 0]} [true])
         (mk false {["lb1" := 0; "lb2" := 1]} [false; true])
         (mk false {["lb1" := 0; "lb2" := 1]} [false; true]) 0 1); by vm_compute.
Defined.

Lemma schedule_rtc sched : ∀ w w', schedule sched w = Some w' → rtc step w w'.
Proof.
induction sched as [|i sched IH]; intros w w'; cbn; [by intros [= <-]|].
destruct (step_of i w) as [w1|] eqn:Hs; [|done].
intros Hr. eapply rtc_l; [by exists i|by apply IH].
Qed.

Lemma both_critical key1 key2 :
  key1 ≠ key2 →
  schedule [0; 0; 0; 0; 0; 0; 1; 1; 1; 1; 1; 1] (start [[key1]; [key2]]) =
  Some (mk false (<[key2 := 1]> (<[key1 := 0]> ∅)) [true; true],
        [Go (Critical key1) []; Go (Critical key2) []]).
Proof.
intros Hne. cbn. rewrite lookup_empty. cbn.
rewrite lookup_insert_ne by done. rewrite lookup_empty. done.
Qed.

(** C2. Named-mutex serialization: in every state that goroutines running
    operations of the form Lock(key); body; Unlock(key) on the shared
    registry can reach, under any schedule, two different goroutines are never
    both between Lock and Unlock of an equal key; and two operations on
    different keys can be between their Lock and Unlock at the same time. *)
Theorem equal_keys_exclude_distinct_keys_overlap :
  (∀ keys w i j key, reachable keys w → i ≠ j →
     in_critical w i key → ¬ in_critical w j key) ∧
  (∀ key1 key2, key1 ≠ key2 →
     ∃ w, reachable [[key1]; [key2]] w ∧ in_critical w 0 key1 ∧ in_critical w 1 key2).
Proof.
split.
- intros keys w i j key Hr%reachable_inv Hne (gi & Hi & Hci) (gj & Hj & Hcj).
  apply Hne. eapply (inv_owner _ Hr i j gi gj key); try done.
  + by rewrite Hci.
  + by rewrite Hcj.
- intros key1 key2 Hne. eexists. split; [|split].
  + eapply schedule_rtc, both_critical, Hne.
  + by eexists.
  + by eexists.
Qed.

Lemma equal_keys_exclude_witness :
  ¬ in_critical (mk false {["lb" := 0]} [true],
                 [Go (Critical "lb") []; Go (MutexLock "lb" 0) []]) 1 "lb".
Proof.
apply (proj1 equal_keys_exclude_distinct_keys_overlap [["lb"]; ["lb"]] _ 0 1 "lb").
- apply (schedule_rtc [0; 0; 0; 0; 0; 0; 1; 1; 1; 1]). by vm_compute.
- done.
- by eexists.
Defined.

End MutexKV.

(** ** The Azure SDK and the Terraform plugin SDK, as the resources see them *)

Module Sdk.

(** A Go [error] that is not nil. *)
Definition error : Type := string.

(** [autorest.Response] embeds a [*http.Response]: nil, or a response with
    its status code. *)
Definition Response : Type := option Z.

Definition StatusOK : Z := 200.
Definition StatusNoContent : Z := 204.
Definition StatusNotFound : Z := 404.

(** [diag.Diagnostics] is a slice of diagnostics, nil when there is nothing
    to report.  A diagnostic keeps the format and the arguments it was built
    from. *)
Inductive Diagnostic : Type :=
| DiagErrorf (format : string) (args : list string)
| DiagFromErr (err : error).

Definition Diagnostics : Type := list Diagnostic.

(** [diag.Errorf] *)
Definition Errorf (format : string) (args : list string) : Diagnostics :=
  [DiagErrorf format args].

(** [diag.FromErr]: nil for a nil error. *)
Definition FromErr (err : option error) : Diagnostics :=
  match err with
  | Some e => [DiagFromErr e]
  | None => []
  end.

(** [map[string]*string] *)
Definition Tags : Type := gmap string (option string).

(** A value stored in, or read from, a resource's attributes. *)
Inductive value : Type :=
| VNil
| VString (s : string)
| VInt (n : Z)
| VBool (b : bool)
| VStrings (l : list string)
| VTags (t : gmap string string).

Definition of_ptr {A} (f : A → value) (p : option A) : value :=
  match p with
  | Some a => f a
  | None => VNil
  end.

(** [schema.ResourceData]: the resource's ID and its attributes. *)
Record ResourceData : Type := mkData {
  Id : string;
  attrs : gmap string value
}.

(** What [parseAzureResourceID] returns, with the fields the resources read. *)
Record ResourceID : Type := mkResourceID {
  ResourceGroup : string;
  Path : gmap string string
}.

(** Indexing a Go map: the zero value when the key is missing. *)
Definition index (m : gmap string string) (k : string) : string :=
  default "" (m !! k).

(** What an operation does that others can see, in order.  A call of the
    Azure SDK is recorded with its outcome: [true] when it returned a nil
    error. *)
Inductive event : Type :=
| EvLockByName (name resourceType : string)
| EvUnlockByName (name resourceType : string)
| EvCreateOrUpdate (ok : bool)
| EvWaitForCompletion (ok : bool)
| EvGet (ok : bool)
| EvDelete (ok : bool)
| EvSetId (id : string).

Definition succeeded (err : option error) : bool :=
  match err with
  | None => true
  | Some _ => false
  end.

(** *** network.Route *)
Record RoutePropertiesFormat : Type := mkRouteProps {
  AddressPrefix : option string;
  NextHopType : string;
  NextHopIPAddress : option string
}.

Record Route : Type := mkRoute {
  route_Response : Response;
  route_ID : option string;
  route_Name : option string;
  route_Properties : option RoutePropertiesFormat
}.

(** *** dns.RecordSet *)
Record ARecord : Type := mkARecord { Ipv4Address : option string }.

Record RecordSetProperties : Type := mkRecordSetProps {
  Metadata : Tags;
  TTL : option Z;
  ARecords : option (list ARecord)
}.

Record RecordSet : Type := mkRecordSet {
  rs_Response : Response;
  rs_ID : option string;
  rs_Name : option string;
  rs_Properties : option RecordSetProperties
}.

(** *** dns.Zone *)
Record ZoneProperties : Type := mkZoneProps {
  MaxNumberOfRecordSets : option Z;
  NumberOfRecordSets : option Z;
  NameServers : option (list string)
}.

Record Zone : Type := mkZone {
  zone_Response : Response;
  zone_ID : option string;
  zone_Properties : option ZoneProperties;
  zone_Tags : Tags
}.

(** *** compute.AvailabilitySet *)
Record Sku : Type := mkSku { sku_Name : option string }.

Record AvailabilitySetProperties : Type := mkAvailProps {
  PlatformUpdateDomainCount : option Z;
  PlatformFaultDomainCount : option Z
}.

Record AvailabilitySet : Type := mkAvailabilitySet {
  as_Response : Response;
  as_ID : option string;
  as_Name : option string;
  as_Location : option string;
  as_Sku : option Sku;
  as_Properties : option AvailabilitySetProperties;
  as_Tags : Tags
}.

(** *** compute.VirtualMachineExtension *)

(** The [interface{}] in [Settings]: nil, a JSON object, or anything else. *)
Inductive Settings (json : Type) : Type :=
| SettingsNil
| SettingsMap (j : json)
| SettingsOther.
Arguments SettingsNil {json}.
Arguments SettingsMap {json} j.
Arguments SettingsOther {json}.

Record VirtualMachineExtensionProperties (json : Type) : Type := mkExtProps {
  Publisher : option string;
  ext_Type : option string;
  TypeHandlerVersion : option string;
  AutoUpgradeMinorVersion : option bool;
  ext_Settings : Settings json;
  ProtectedSettings : Settings json
}.
Arguments mkExtProps {json}.
Arguments Publisher {json}.
Arguments ext_Type {json}.
Arguments TypeHandlerVersion {json}.
Arguments AutoUpgradeMinorVersion {json}.
Arguments ext_Settings {json}.
Arguments ProtectedSettings {json}.

Record VirtualMachineExtension (json : Type) : Type := mkExtension {
  ext_Response : Response;
  ext_ID : option string;
  ext_Name : option string;
  ext_Location : option string;
  ext_Properties : option (VirtualMachineExtensionProperties json);
  ext_Tags : Tags
}.
Arguments mkExtension {json}.
Arguments ext_Response {json}.
Arguments ext_ID {json}.
Arguments ext_Name {json}.
Arguments ext_Location {json}.
Arguments ext_Properties {json}.
Arguments ext_Tags {json}.

(** *** What the provider is linked against

    The Azure service is a state only the SDK's clients change: a call takes
    the state before it and gives the state after it with what the client
    returned.  The helpers of the provider that the resources call and that
    are defined in other files are fields too. *)
Record Env : Type := mkEnv {
  cloud : Type;
  json : Type;
  Future : Type;
  (* helpers of the provider that are defined outside the sources at hand *)
  ResponseWasNotFound : Response → bool;
  parseAzureResourceID : string → ResourceID + error;
  flattenAndSetTags : ResourceData → Tags → ResourceData;
  expandTags : gmap string string → Tags;
  azureStackNormalizeLocation : string → string;
  routeTableResourceName : string;
  (* strings.EqualFold, and structure.ExpandJsonFromString / FlattenJsonToString *)
  EqualFold : string → string → bool;
  ExpandJsonFromString : string → json + error;
  FlattenJsonToString : json → string + error;
  (* the error of d.Set, when the schema refuses the value *)
  set_refused : string → value → option error;
  (* the clients *)
  WaitForCompletionRef : Future → cloud → option error * cloud;
  routesClient_CreateOrUpdate :
    string → string → string → Route → cloud → (Future * option error) * cloud;
  routesClient_Get : string → string → string → cloud → (Route * option error) * cloud;
  dnsClient_Get : string → string → string → cloud → (RecordSet * option error) * cloud;
  dnsClient_Delete : string → string → string → cloud → (Response * option error) * cloud;
  zonesClient_Get : string → string → cloud → (Zone * option error) * cloud;
  availSetClient_Get : string → string → cloud → (AvailabilitySet * option error) * cloud;
  vmExtensionClient_CreateOrUpdate :
    string → string → string → VirtualMachineExtension json → cloud →
    (Future * option error) * cloud;
  vmExtensionClient_Get :
    string → string → string → cloud → (VirtualMachineExtension json * option error) * cloud
}.

(** The state an operation runs in: the Azure service, the resource data
    [d] it was given, and the events so far. *)
Record world (E : Env) : Type := mkWorld {
  azure : cloud E;
  data : ResourceData;
  log : list event
}.
Arguments mkWorld {E}.
Arguments azure {E}.
Arguments data {E}.
Arguments log {E}.

(** An operation returns a value or panics ([None]); either way it leaves a
    state behind. *)
Definition M (E : Env) (A : Type) : Type := world E → option A * world E.

Definition ret {E A} (a : A) : M E A := λ w, (Some a, w).

Definition bind {E A B} (c : M E A) (k : A → M E B) : M E B :=
  λ w, match c w with
       | (Some a, w') => k a w'
       | (None, w') => (None, w')
       end.

Definition panic {E A} : M E A := λ w, (None, w).

Notation "'let*' x ':=' c 'in' k" := (bind c (λ x, k))
  (at level 10, x pattern, c at level 100, k at level 200).
Notation "c ';;' k" := (bind c (λ _, k))
  (at level 100, k at level 200, right associativity).

(** [*p] *)
Definition deref {E A} (p : option A) : M E A :=
  match p with
  | Some a => ret a
  | None => panic
  end.

Definition getData {E} : M E ResourceData := λ w, (Some (data w), w).

(** The operation changes the resource data. *)
Definition modify {E} (f : ResourceData → ResourceData) : M E unit :=
  λ w, (Some tt, mkWorld (azure w) (f (data w)) (log w)).

Definition emit {E} (ev : event) : M E unit :=
  λ w, (Some tt, mkWorld (azure w) (data w) (log w ++ [ev])).

(** [d.SetId(id)] *)
Definition SetId {E} (id : string) : M E unit :=
  modify (λ d, mkData id (attrs d)) ;; emit (EvSetId id).

(** [d.Set(key, v)] *)
Definition Set_ {E} (key : string) (v : value) : M E (option error) :=
  match set_refused E key v with
  | Some e => ret (Some e)
  | None => modify (λ d, mkData (Id d) (<[key := v]> (attrs d))) ;; ret None
  end.

(** A call of a client: it moves the Azure service and is recorded. *)
Definition sdk {E A} (call : cloud E → (A * option error) * cloud E) (ev : bool → event) :
    M E (A * option error) :=
  λ w, let '(r, c) := call (azure w) in
       (Some r, mkWorld c (data w) (log w ++ [ev (succeeded r.2)])).

(** [future.WaitForCompletionRef(ctx, client.Client)] *)
Definition wait {E} (future : Future E) : M E (option error) :=
  λ w, let '(err, c) := WaitForCompletionRef E future (azure w) in
       (Some err, mkWorld c (data w) (log w ++ [EvWaitForCompletion (succeeded err)])).

(** [d.Get(key).(string)]: the zero value when the attribute is not set. *)
Definition GetString (d : ResourceData) (key : string) : string :=
  match attrs d !! key with
  | Some (VString s) => s
  | _ => ""
  end.

Definition GetBool (d : ResourceData) (key : string) : bool :=
  match attrs d !! key with
  | Some (VBool b) => b
  | _ => false
  end.

(** [d.Get("tags").(map[string]interface{})] *)
Definition GetTags (d : ResourceData) (key : string) : gmap string string :=
  match attrs d !! key with
  | Some (VTags t) => t
  | _ => ∅
  end.

(** [d.GetOk(key)] of a string attribute: set, and not the zero value. *)
Definition GetOk (d : ResourceData) (key : string) : option string :=
  match attrs d !! key with
  | Some (VString s) => if decide (s = "") then None else Some s
  | _ => None
  end.

End Sdk.

(** ** The resources *)

Module Resources.
Import Sdk.

Section Operations.
Context (E : Env).

(** *** Routes (src/azurestack/resource_arm_route.go, lines 67-147) *)

(** [func resourceArmRouteRead] *)
Definition resourceArmRouteRead : M E Diagnostics :=
  let* d := getData in
  match parseAzureResourceID E (Id d) with
  | inr err => ret (FromErr (Some err))
  | inl id =>
      let resGroup := ResourceGroup id in
      let rtName := index (Path id) "routeTables" in
      let routeName := index (Path id) "routes" in
      let* (resp, err) := sdk (routesClient_Get E resGroup rtName routeName) EvGet in
      match err with
      | Some e =>
          if ResponseWasNotFound E (route_Response resp) then
            SetId "" ;; ret []
          else
            ret (Errorf "Error making Read request on Azure Route %q: %+v" [routeName; e])
      | None =>
          Set_ "name" (VString routeName) ;;
          Set_ "resource_group_name" (VString resGroup) ;;
          Set_ "route_table_name" (VString rtName) ;;
          match route_Properties resp with
          | Some props =>
              Set_ "address_prefix" (of_ptr VString (AddressPrefix props)) ;;
              Set_ "next_hop_type" (VString (NextHopType props)) ;;
              match NextHopIPAddress props with
              | Some ip => Set_ "next_hop_in_ip_address" (VString ip) ;; ret []
              | None => ret []
              end
          | None => ret []
          end
      end
  end.

(** [func resourceArmRouteCreateUpdate]; the deferred unlock runs when the
    function returns. *)
Definition resourceArmRouteCreateUpdate : M E Diagnostics :=
  let* d := getData in
  let name := GetString d "name" in
  let rtName := GetString d "route_table_name" in
  let resGroup := GetString d "resource_group_name" in
  let addressPrefix := GetString d "address_prefix" in
  let nextHopType := GetString d "next_hop_type" in
  emit (EvLockByName rtName (routeTableResourceName E)) ;;
  let* diags :=
    (let route :=
       mkRoute None None (Some name)
         (Some (mkRouteProps (Some addressPrefix) nextHopType
                  (GetOk d "next_hop_in_ip_address"))) in
     let* (future, err) :=
       sdk (routesClient_CreateOrUpdate E resGroup rtName name route) EvCreateOrUpdate in
     match err with
     | Some e =>
         ret (Errorf "Error Creating/Updating Route %q (Route Table %q / Resource Group %q): %+v"
                [name; rtName; resGroup; e])
     | None =>
         let* err := wait future in
         match err with
         | Some e =>
             ret (Errorf "Error waiting for completion for Route %q (Route Table %q / Resource Group %q): %+v"
                    [name; rtName; resGroup; e])
         | None =>
             let* (read, err) := sdk (routesClient_Get E resGroup rtName name) EvGet in
             match err with
             | Some e => ret (FromErr (Some e))
             | None =>
                 match route_ID read with
                 | None =>
                     ret (Errorf "Cannot read Route %q/%q (resource group %q) ID"
                            [rtName; name; resGroup])
                 | Some id => SetId id ;; resourceArmRouteRead
                 end
             end
         end
     end) in
  emit (EvUnlockByName rtName (routeTableResourceName E)) ;;
  ret diags.

(** *** DNS A records (src/azurestack/resource_arm_dns_a_record.go) *)

(** [func flattenAzureStackDnsARecords]: the capacity of [results] is the
    length of [*records], read before the function tests the pointer
    against nil. *)
Definition flattenAzureStackDnsARecords (records : option (list ARecord)) : option (list string) :=
  capacity ← length <$> records;
  match records with
  | Some rs => mapM Ipv4Address rs
  | None => Some []
  end.

(** [func resourceArmDnsARecordRead] *)
Definition resourceArmDnsARecordRead : M E Diagnostics :=
  let* d := getData in
  match parseAzureResourceID E (Id d) with
  | inr err => ret (FromErr (Some err))
  | inl id =>
      let resGroup := ResourceGroup id in
      let name := index (Path id) "A" in
      let zoneName := index (Path id) "dnszones" in
      let* (resp, err) := sdk (dnsClient_Get E resGroup zoneName name) EvGet in
      match err with
      | Some e =>
          if ResponseWasNotFound E (rs_Response resp) then
            SetId "" ;; ret []
          else
            ret (Errorf "Error reading DNS A record %s: %+v" [name; e])
      | None =>
          Set_ "name" (VString name) ;;
          Set_ "resource_group_name" (VString resGroup) ;;
          Set_ "zone_name" (VString zoneName) ;;
          let* props := deref (rs_Properties resp) in
          Set_ "ttl" (of_ptr VInt (TTL props)) ;;
          let* records := deref (flattenAzureStackDnsARecords (ARecords props)) in
          let* err := Set_ "records" (VStrings records) in
          match err with
          | Some e => ret (FromErr (Some e))
          | None =>
              modify (λ d, flattenAndSetTags E d (Metadata props)) ;;
              ret []
          end
      end
  end.

(** [func resourceArmDnsARecordDelete]; [resp.StatusCode] reads the
    [*http.Response] inside [resp]. *)
Definition resourceArmDnsARecordDelete : M E Diagnostics :=
  let* d := getData in
  match parseAzureResourceID E (Id d) with
  | inr err => ret (FromErr (Some err))
  | inl id =>
      let resGroup := ResourceGroup id in
      let name := index (Path id) "A" in
      let zoneName := index (Path id) "dnszones" in
      let* (resp, error) := sdk (dnsClient_Delete E resGroup zoneName name) EvDelete in
      let* StatusCode := deref resp in
      if decide (StatusCode ≠ StatusOK) then
        ret (Errorf "Error deleting DNS A Record %s: %+v" [name; default "<nil>" error])
      else ret []
  end.

(** *** DNS zones (src/azurestack/resource_arm_dns_zone.go, lines 84-118) *)

(** [func resourceArmDnsZoneRead] *)
Definition resourceArmDnsZoneRead : M E Diagnostics :=
  let* d := getData in
  match parseAzureResourceID E (Id d) with
  | inr err => ret (FromErr (Some err))
  | inl id =>
      let resGroup := ResourceGroup id in
      let name := index (Path id) "dnszones" in
      let* (resp, err) := sdk (zonesClient_Get E resGroup name) EvGet in
      match err with
      | Some e =>
          if ResponseWasNotFound E (zone_Response resp) then
            SetId "" ;; ret []
          else
            ret (Errorf "Error reading DNS zone %s (resource group %s): %+v" [name; resGroup; e])
      | None =>
          Set_ "name" (VString name) ;;
          Set_ "resource_group_name" (VString resGroup) ;;
          let* props := deref (zone_Properties resp) in
          Set_ "number_of_record_sets" (of_ptr VInt (NumberOfRecordSets props)) ;;
          Set_ "max_number_of_record_sets" (of_ptr VInt (MaxNumberOfRecordSets props)) ;;
          let* err :=
            match NameServers props with
            | Some nameServers => Set_ "name_servers" (VStrings nameServers)
            | None => ret None
            end in
          match err with
          | Some e => ret (Errorf "Error setting `name_servers`: %+v" [e])
          | None =>
              modify (λ d, flattenAndSetTags E d (zone_Tags resp)) ;;
              ret []
          end
      end
  end.

(** *** Availability sets (src/azurestack/resource_arm_availability_set.go) *)

(** [func resourceArmAvailabilitySetRead] *)
Definition resourceArmAvailabilitySetRead : M E Diagnostics :=
  let* d := getData in
  match parseAzureResourceID E (Id d) with
  | inr err => ret (FromErr (Some err))
  | inl id =>
      let resGroup := ResourceGroup id in
      let name := index (Path id) "availabilitySets" in
      let* (resp, err) := sdk (availSetClient_Get E resGroup name) EvGet in
      match err with
      | Some e =>
          if ResponseWasNotFound E (as_Response resp) then
            SetId "" ;; ret []
          else
            ret (Errorf "Error making Read request on Azure Availability Set %q (Resource Group %q): %+v"
                   [name; resGroup; e])
      | None =>
          let* availSet := deref (as_Properties resp) in
          Set_ "name" (of_ptr VString (as_Name resp)) ;;
          Set_ "resource_group_name" (VString resGroup) ;;
          match as_Location resp with
          | Some location => Set_ "location" (VString (azureStackNormalizeLocation E location))
          | None => ret None
          end ;;
          Set_ "platform_update_domain_count" (of_ptr VInt (PlatformUpdateDomainCount availSet)) ;;
          Set_ "platform_fault_domain_count" (of_ptr VInt (PlatformFaultDomainCount availSet)) ;;
          match as_Sku resp with
          | Some sku =>
              match sku_Name sku with
              | Some n => Set_ "managed" (VBool (EqualFold E n "Aligned"))
              | None => ret None
              end
          | None => ret None
          end ;;
          modify (λ d, flattenAndSetTags E d (as_Tags resp)) ;;
          ret []
      end
  end.

(** *** Virtual machine extensions (src/unnamed/part_002, lines 82-191) *)

(** [func resourceArmVirtualMachineExtensionsRead]; the assertion
    [settings.(map[string]interface{})] panics on any other value. *)
Definition resourceArmVirtualMachineExtensionsRead : M E Diagnostics :=
  let* d := getData in
  match parseAzureResourceID E (Id d) with
  | inr err => ret (FromErr (Some err))
  | inl id =>
      let resGroup := ResourceGroup id in
      let vmName := index (Path id) "virtualMachines" in
      let name := index (Path id) "extensions" in
      let* (resp, err) := sdk (vmExtensionClient_Get E resGroup vmName name) EvGet in
      match err with
      | Some e =>
          if ResponseWasNotFound E (ext_Response resp) then
            SetId "" ;; ret []
          else
            ret (Errorf "Error making Read request on Virtual Machine Extension %s: %s" [name; e])
      | None =>
          Set_ "name" (of_ptr VString (ext_Name resp)) ;;
          match ext_Location resp with
          | Some location => Set_ "location" (VString (azureStackNormalizeLocation E location))
          | None => ret None
          end ;;
          Set_ "virtual_machine_name" (VString vmName) ;;
          Set_ "resource_group_name" (VString resGroup) ;;
          let* diags :=
            match ext_Properties resp with
            | Some props =>
                Set_ "publisher" (of_ptr VString (Publisher props)) ;;
                Set_ "type" (of_ptr VString (ext_Type props)) ;;
                Set_ "type_handler_version" (of_ptr VString (TypeHandlerVersion props)) ;;
                Set_ "auto_upgrade_minor_version" (of_ptr VBool (AutoUpgradeMinorVersion props)) ;;
                match ext_Settings props with
                | SettingsNil => ret None
                | SettingsOther => panic
                | SettingsMap settingsVal =>
                    match FlattenJsonToString E settingsVal with
                    | inr e =>
                        ret (Some (Errorf "unable to parse settings from response: %s" [e]))
                    | inl settingsJson => Set_ "settings" (VString settingsJson) ;; ret None
                    end
                end
            | None => ret None
            end in
          match diags with
          | Some ds => ret ds
          | None =>
              modify (λ d, flattenAndSetTags E d (ext_Tags resp)) ;;
              ret []
          end
      end
  end.

(** [func resourceArmVirtualMachineExtensionsCreate] *)
Definition resourceArmVirtualMachineExtensionsCreate : M E Diagnostics :=
  let* d := getData in
  let name := GetString d "name" in
  let location := azureStackNormalizeLocation E (GetString d "location") in
  let vmName := GetString d "virtual_machine_name" in
  let resGroup := GetString d "resource_group_name" in
  let publisher := GetString d "publisher" in
  let extensionType := GetString d "type" in
  let typeHandlerVersion := GetString d "type_handler_version" in
  let autoUpgradeMinor := GetBool d "auto_upgrade_minor_version" in
  let tags := GetTags d "tags" in
  let settingsString := GetString d "settings" in
  let protectedSettingsString := GetString d "protected_settings" in
  let parse (s : string) : Settings (json E) + error :=
    if decide (s ≠ "") then
      match ExpandJsonFromString E s with
      | inl j => inl (SettingsMap j)
      | inr e => inr e
      end
    else inl SettingsNil in
  match parse settingsString with
  | inr e => ret (Errorf "unable to parse settings: %s" [e])
  | inl settings =>
      match parse protectedSettingsString with
      | inr e => ret (Errorf "unable to parse protected_settings: %s" [e])
      | inl protectedSettings =>
          let extension :=
            mkExtension None None None (Some location)
              (Some (mkExtProps (Some publisher) (Some extensionType) (Some typeHandlerVersion)
                       (Some autoUpgradeMinor) settings protectedSettings))
              (expandTags E tags) in
          let* (future, err) :=
            sdk (vmExtensionClient_CreateOrUpdate E resGroup vmName name extension)
                EvCreateOrUpdate in
          match err with
          | Some e => ret (FromErr (Some e))
          | None =>
              let* err := wait future in
              match err with
              | Some e => ret (FromErr (Some e))
              | None =>
                  let* (read, err) := sdk (vmExtensionClient_Get E resGroup vmName name) EvGet in
                  match err with
                  | Some e => ret (FromErr (Some e))
                  | None =>
                      match ext_ID read with
                      | None =>
                          ret (Errorf "Cannot read  Virtual Machine Extension %s (resource group %s) ID"
                                 [name; resGroup])
                      | Some id => SetId id ;; resourceArmVirtualMachineExtensionsRead
                      end
                  end
              end
          end
      end
  end.

End Operations.

(** The events [evs] read the resource back and set its ID only after a
    wait for completion that returned no error. *)
Definition after_completion (evs : list event) : Prop :=
  ∀ pre ev post, evs = pre ++ ev :: post →
    (∃ ok, ev = EvGet ok) ∨ (∃ id, ev = EvSetId id) →
    EvWaitForCompletion true ∈ pre.

(** The request that starts the long-running operation, or the wait for
    its completion, returned an error. *)
Definition started_or_polled_in_vain (evs : list event) : Prop :=
  EvCreateOrUpdate false ∈ evs ∨ EvWaitForCompletion false ∈ evs.

(** The event is a GET or a SetId. *)
Definition reads_back (ev : event) : Prop :=
  (∃ ok, ev = EvGet ok) ∨ (∃ id, ev = EvSetId id).

(** A successful wait comes before the first GET and the first SetId. *)
Fixpoint waits_first (evs : list event) : bool :=
  match evs with
  | [] => true
  | EvWaitForCompletion true :: _ => true
  | EvGet _ :: _ | EvSetId _ :: _ => false
  | _ :: evs' => waits_first evs'
  end.

Section Properties.
Context (E : Env).

(** What the claim asks of a Read operation whose GET call, made with the
    parsed ID, hands back the response [r] and an error. *)
Definition not_found_leaves_state {A} (Read : M E Diagnostics)
    (Get : ResourceID → cloud E → (A * option error) * cloud E)
    (response : A → Response) : Prop :=
  ∀ w id r e c,
    parseAzureResourceID E (Id (data w)) = inl id →
    Get id (azure w) = ((r, Some e), c) →
    ∃ diags w', Read w = (Some diags, w') ∧
      if ResponseWasNotFound E (response r)
      then diags = [] ∧ Id (data w') = ""
      else diags ≠ [] ∧ data w' = data w.

(** The operation adds events to the log, GET and SetId events only. *)
Definition appends {A} (c : M E A) : Prop :=
  ∀ w, ∃ evs, log (c w).2 = log w ++ evs ∧ Forall reads_back evs.

(** What the claim asks of a create operation, on the events [evs] of a
    run: the read-back and the SetId come after the completion, and a run
    whose start or wait failed returns diagnostics, with the resource data
    as it was and no SetId. *)
Definition polls_before_state (Create : M E Diagnostics) : Prop :=
  ∀ w, ∃ evs, log (Create w).2 = log w ++ evs ∧
    after_completion evs ∧
    (started_or_polled_in_vain evs →
       (∃ diags, (Create w).1 = Some diags ∧ diags ≠ []) ∧
       data (Create w).2 = data w ∧
       ∀ id, EvSetId id ∉ evs).

(** [parse] of the virtual machine extension create: an empty string gives
    no settings, any other string is expanded as JSON. *)
Definition expand_settings (s : string) : Settings (json E) + error :=
  if decide (s ≠ "") then
    match ExpandJsonFromString E s with
    | inl j => inl (SettingsMap j)
    | inr e => inr e
    end
  else inl SettingsNil.

(** What the claim asks of a run of a create operation from [w], in terms
    of what the service answers.  [start] is the request that starts the
    long-running operation, [get] the request that reads the resource back,
    [ID] the ID of what it returns and [Read] the Read operation; [pre] and
    [post] are the events before the first request and after the last.
    - When [start] returns an error, the run returns diagnostics; it has
      made this one call and the resource data is as it was.
    - Otherwise the run waits for the completion.  When the wait returns an
      error, the run returns diagnostics; it has made these two calls and
      the resource data is as it was.
    - Otherwise the run reads the resource back, from the state of the
      service the wait left.  When that returns an error or no ID, the run
      returns diagnostics and the resource data is as it was.
    - Otherwise the run sets the ID to the ID read back and goes on as
      [Read]. *)
Definition waits_then_reads_back {R} (Create : M E Diagnostics) (w : world E)
    (pre post : list event)
    (start : cloud E → (Future E * option error) * cloud E)
    (get : cloud E → (R * option error) * cloud E) (ID : R → option string)
    (Read : M E Diagnostics) : Prop :=
  let fails (c : cloud E) (evs : list event) :=
    ∃ diags, diags ≠ [] ∧
      Create w = (Some diags, mkWorld c (data w) (log w ++ pre ++ evs ++ post)) in
  match start (azure w) with
  | ((_, Some _), c1) => fails c1 [EvCreateOrUpdate false]
  | ((future, None), c1) =>
      match WaitForCompletionRef E future c1 with
      | (Some _, c2) => fails c2 [EvCreateOrUpdate true; EvWaitForCompletion false]
      | (None, c2) =>
          match get c2 with
          | ((_, Some _), c3) =>
              fails c3 [EvCreateOrUpdate true; EvWaitForCompletion true; EvGet false]
          | ((read, None), c3) =>
              match ID read with
              | None => fails c3 [EvCreateOrUpdate true; EvWaitForCompletion true; EvGet true]
              | Some id =>
                  match Read (mkWorld c3 (mkData id (attrs (data w)))
                                (log w ++ pre ++ [EvCreateOrUpdate true; EvWaitForCompletion true;
                                                  EvGet true; EvSetId id])) with
                  | (Some diags, w') =>
                      Create w = (Some diags, mkWorld (azure w') (data w') (log w' ++ post))
                  | (None, w') => Create w = (None, w')
                  end
              end
          end
      end
  end.

End Properties.

Arguments not_found_leaves_state {E A} Read Get response.
Arguments appends {E A} c.
Arguments polls_before_state {E} Create.
Arguments waits_then_reads_back {E R} Create w pre post start get ID Read.

Lemma waits_first_after_completion evs : waits_first evs = true → after_completion evs.
Proof.
induction evs as [|ev0 evs IH]; intros Hw pre ev post Heq Hev.
- by destruct pre.
- destruct pre as [|p pre]; simplify_eq/=.
  + destruct Hev as [[? ->]|[? ->]]; done.
  + destruct p as [| | |[]| | |]; try done; try (apply list_elem_of_further; eapply IH; eauto; fail).
    apply list_elem_of_here.
Qed.


Section Proofs.
Context (E : Env).

Ltac run_read Hp Hg :=
  unfold bind, getData, sdk; cbn; rewrite Hp; cbn; rewrite Hg; cbn;
  match goal with
  | |- context [ResponseWasNotFound E ?r] => destruct (ResponseWasNotFound E r)
  end; cbn; eauto.

Lemma route_read_not_found :
  not_found_leaves_state (resourceArmRouteRead E)
    (λ id, routesClient_Get E (ResourceGroup id) (index (Path id) "routeTables")
                         (index (Path id) "routes")) route_Response.
Proof.
intros w id resp e c Hp Hg. unfold resourceArmRouteRead. run_read Hp Hg.
Qed.

Lemma dns_a_read_not_found :
  not_found_leaves_state (resourceArmDnsARecordRead E)
    (λ id, dnsClient_Get E (ResourceGroup id) (index (Path id) "dnszones") (index (Path id) "A"))
    rs_Response.
Proof.
intros w id resp e c Hp Hg. unfold resourceArmDnsARecordRead. run_read Hp Hg.
Qed.

Lemma zone_read_not_found :
  not_found_leaves_state (resourceArmDnsZoneRead E)
    (λ id, zonesClient_Get E (ResourceGroup id) (index (Path id) "dnszones"))
    zone_Response.
Proof.
intros w id resp e c Hp Hg. unfold resourceArmDnsZoneRead. run_read Hp Hg.
Qed.

Lemma avail_read_not_found :
  not_found_leaves_state (resourceArmAvailabilitySetRead E)
    (λ id, availSetClient_Get E (ResourceGroup id) (index (Path id) "availabilitySets"))
    as_Response.
Proof.
intros w id resp e c Hp Hg. unfold resourceArmAvailabilitySetRead. run_read Hp Hg.
Qed.

Lemma ext_read_not_found :
  not_found_leaves_state (resourceArmVirtualMachineExtensionsRead E)
    (λ id, vmExtensionClient_Get E (ResourceGroup id) (index (Path id) "virtualMachines") (index (Path id) "extensions"))
    ext_Response.
Proof.
intros w id resp e c Hp Hg. unfold resourceArmVirtualMachineExtensionsRead. run_read Hp Hg.
Qed.

Lemma appends_ret {A} (a : A) : appends (E := E) (ret a).
Proof. intros w. exists []. by rewrite app_nil_r. Qed.

Lemma appends_panic {A} : appends (@panic E A).
Proof. intros w. exists []. by rewrite app_nil_r. Qed.

Lemma appends_bind {A B} (c : M E A) (k : A → M E B) :
  appends c → (∀ a, appends (k a)) → appends (bind c k).
Proof.
intros Hc Hk w. unfold bind. destruct (Hc w) as (evs1 & H1 & F1).
destruct (c w) as [[a|] w1]; cbn in *.
- destruct (Hk a w1) as (evs2 & H2 & F2). exists (evs1 ++ evs2).
  rewrite H2, H1, app_assoc. split; [done|]. by apply Forall_app.
- eauto.
Qed.

Lemma appends_deref {A} (p : option A) : appends (@deref E A p).
Proof. destruct p; [apply appends_ret|apply appends_panic]. Qed.

Lemma appends_getData : appends (@getData E).
Proof. intros w. exists []. by rewrite app_nil_r. Qed.

Lemma appends_modify f : appends (@modify E f).
Proof. intros w. exists []. by rewrite app_nil_r. Qed.

Lemma appends_SetId id : appends (@SetId E id).
Proof. intros w. exists [EvSetId id]. split; [done|]. constructor; [right; eauto|constructor]. Qed.

Lemma appends_Set key v : appends (@Set_ E key v).
Proof.
unfold Set_. destruct (set_refused E key v); [apply appends_ret|].
apply appends_bind; [apply appends_modify|intros; apply appends_ret].
Qed.

Lemma appends_Get {A} (call : cloud E → (A * option error) * cloud E) : appends (sdk call EvGet).
Proof.
intros w. unfold sdk. destruct (call (azure w)) as [r c]. eexists [_].
split; [done|]. constructor; [left; eauto|constructor].
Qed.

Ltac appends :=
  repeat first
    [ apply appends_ret | apply appends_panic | apply appends_getData | apply appends_modify
    | apply appends_SetId | apply appends_Set | apply appends_Get | apply appends_deref
    | apply appends_bind; [|intros]
    | match goal with |- appends (match ?x with _ => _ end) => destruct x end
    | match goal with |- appends (if ?x then _ else _) => destruct x end
    | match goal with |- appends (let (_, _) := ?x in _) => destruct x end ].

Lemma appends_route_read : appends (resourceArmRouteRead E).
Proof. unfold resourceArmRouteRead. appends. Qed.

Lemma appends_ext_read : appends (resourceArmVirtualMachineExtensionsRead E).
Proof. unfold resourceArmVirtualMachineExtensionsRead. appends. Qed.

Lemma reads_back_not_in_vain (pre evs post : list event) :
  Forall reads_back evs →
  ¬ started_or_polled_in_vain pre → ¬ started_or_polled_in_vain post →
  ¬ started_or_polled_in_vain (pre ++ evs ++ post).
Proof.
intros F Hpre Hpost. rewrite Forall_forall in F.
assert (∀ ev, ev ∈ pre ++ evs ++ post → ev ∈ pre ∨ reads_back ev ∨ ev ∈ post) as Hin.
{ intros ev. rewrite !elem_of_app. intros [?|[?|?]]; auto. }
intros [[H|[[[? ?]|[? ?]]|H]]%Hin|[H|[[[? ?]|[? ?]]|H]]%Hin]; try done.
- apply Hpre. by left.
- apply Hpost. by left.
- apply Hpre. by right.
- apply Hpost. by right.
Qed.

Local Arguments resourceArmRouteRead : simpl never.
Local Arguments resourceArmVirtualMachineExtensionsRead : simpl never.

Ltac absent Hin :=
  repeat (apply elem_of_cons in Hin as [Hin|Hin]; [discriminate Hin|]);
  by apply elem_of_nil in Hin.

Ltac in_vain_case :=
  eexists; split; [by rewrite <- ?app_assoc|];
  split; [by apply waits_first_after_completion|];
  intros Hv; split_and!; [by eauto| done | intros ? Hin; absent Hin ].

Ltac not_in_vain_case :=
  eexists; split; [by rewrite <- ?app_assoc|];
  split; [by apply waits_first_after_completion|];
  intros [Hv|Hv]; exfalso; absent Hv.

Lemma route_create_polls : polls_before_state (resourceArmRouteCreateUpdate E).
Proof.
intros w. unfold resourceArmRouteCreateUpdate, bind, getData, emit, sdk, wait; cbn.
destruct (routesClient_CreateOrUpdate _ _ _ _ _ _) as [[fut [e|]] c1]; cbn; [in_vain_case|].
destruct (WaitForCompletionRef _ _ _) as [[e|] c2]; cbn; [in_vain_case|].
destruct (routesClient_Get _ _ _ _ _) as [[read [e|]] c3]; cbn; [not_in_vain_case|].
destruct (route_ID read) as [id|]; cbn; [|not_in_vain_case].
match goal with |- context [resourceArmRouteRead E ?w1] =>
  destruct (appends_route_read w1) as (evs & Hlog & Hall);
  destruct (resourceArmRouteRead E w1) as [[ds|] w2] end; cbn in *.
- eexists ([_; _; _; _; _] ++ evs ++ [_]). rewrite Hlog, <- !app_assoc.
  split; [done|]. split; [by apply waits_first_after_completion|].
  intros []%reads_back_not_in_vain; [done|intros [Hv|Hv]; absent Hv..].
- exists ([EvLockByName (GetString (data w) "route_table_name") (routeTableResourceName E);
            EvCreateOrUpdate true; EvWaitForCompletion true; EvGet true; EvSetId id]
           ++ evs ++ []).
  split; [by rewrite Hlog, app_nil_r, <- !app_assoc|].
  split; [by apply waits_first_after_completion|].
  intros []%reads_back_not_in_vain; [done|intros [Hv|Hv]; absent Hv..].
Qed.

Lemma ext_create_polls : polls_before_state (resourceArmVirtualMachineExtensionsCreate E).
Proof.
intros w. unfold resourceArmVirtualMachineExtensionsCreate, bind, getData, emit, sdk, wait; cbn.
repeat case_decide; repeat (destruct (ExpandJsonFromString E _)); cbn.
all: try (exists []; (split; [by rewrite app_nil_r|]);
          (split; [by apply waits_first_after_completion|]); intros [Hv|Hv]; absent Hv).
all: destruct (vmExtensionClient_CreateOrUpdate _ _ _ _ _ _) as [[fut [e|]] c1]; cbn; [in_vain_case|].
all: destruct (WaitForCompletionRef _ _ _) as [[e|] c2]; cbn; [in_vain_case|].
all: destruct (vmExtensionClient_Get _ _ _ _ _) as [[read [e|]] c3]; cbn; [not_in_vain_case|].
all: destruct (ext_ID read) as [id|]; cbn; [|not_in_vain_case].
all: match goal with |- context [resourceArmVirtualMachineExtensionsRead E ?w1] =>
  destruct (appends_ext_read w1) as (evs & Hlog & Hall);
  destruct (resourceArmVirtualMachineExtensionsRead E w1) as [[ds|] w2] end; cbn in *.
all: exists ([EvCreateOrUpdate true; EvWaitForCompletion true; EvGet true; EvSetId id]
               ++ evs ++ []);
  (split; [by rewrite Hlog, app_nil_r, <- !app_assoc|]);
  (split; [by apply waits_first_after_completion|]);
  intros []%reads_back_not_in_vain; [done|intros [Hv|Hv]; absent Hv..].
Qed.

Lemma route_create_follows_service (w : world E) :
  let d := data w in
  let name := GetString d "name" in
  let rtName := GetString d "route_table_name" in
  let resGroup := GetString d "resource_group_name" in
  waits_then_reads_back (resourceArmRouteCreateUpdate E) w
    [EvLockByName rtName (routeTableResourceName E)]
    [EvUnlockByName rtName (routeTableResourceName E)]
    (routesClient_CreateOrUpdate E resGroup rtName name
       (mkRoute None None (Some name)
          (Some (mkRouteProps (Some (GetString d "address_prefix")) (GetString d "next_hop_type")
                   (GetOk d "next_hop_in_ip_address")))))
    (routesClient_Get E resGroup rtName name) route_ID (resourceArmRouteRead E).
Proof.
cbn zeta. unfold waits_then_reads_back, resourceArmRouteCreateUpdate, bind, getData, emit, sdk, wait.
cbn.
destruct (routesClient_CreateOrUpdate _ _ _ _ _ _) as [[fut [e|]] c1]; cbn;
  [eexists; split; [|by rewrite <- ?app_assoc]; done|].
destruct (WaitForCompletionRef _ _ _) as [[e|] c2]; cbn;
  [eexists; split; [|by rewrite <- ?app_assoc]; done|].
destruct (routesClient_Get _ _ _ _ _) as [[read [e|]] c3]; cbn;
  [eexists; split; [|by rewrite <- ?app_assoc]; done|].
destruct (route_ID read) as [id|]; cbn;
  [|eexists; split; [|by rewrite <- ?app_assoc]; done].
rewrite <- !app_assoc. cbn.
by destruct (resourceArmRouteRead E _) as [[ds|] w2].
Qed.

Lemma ext_create_follows_service (w : world E) settings protectedSettings :
  let d := data w in
  let name := GetString d "name" in
  let vmName := GetString d "virtual_machine_name" in
  let resGroup := GetString d "resource_group_name" in
  expand_settings E (GetString d "settings") = inl settings →
  expand_settings E (GetString d "protected_settings") = inl protectedSettings →
  waits_then_reads_back (resourceArmVirtualMachineExtensionsCreate E) w [] []
    (vmExtensionClient_CreateOrUpdate E resGroup vmName name
       (mkExtension None None None
          (Some (azureStackNormalizeLocation E (GetString d "location")))
          (Some (mkExtProps (Some (GetString d "publisher")) (Some (GetString d "type"))
                   (Some (GetString d "type_handler_version"))
                   (Some (GetBool d "auto_upgrade_minor_version"))
                   settings protectedSettings))
          (expandTags E (GetTags d "tags"))))
    (vmExtensionClient_Get E resGroup vmName name) ext_ID
    (resourceArmVirtualMachineExtensionsRead E).
Proof.
cbn zeta. intros Hs Hp.
unfold waits_then_reads_back, resourceArmVirtualMachineExtensionsCreate, bind, getData, emit,
  sdk, wait.
cbn. unfold expand_settings in Hs, Hp. rewrite Hs, Hp.
destruct (vmExtensionClient_CreateOrUpdate _ _ _ _ _ _) as [[fut [e|]] c1]; cbn;
  [eexists; split; [|by rewrite ?app_nil_r]; done|].
destruct (WaitForCompletionRef _ _ _) as [[e|] c2]; cbn;
  [eexists; split; [|by rewrite ?app_nil_r, <- ?app_assoc]; done|].
destruct (vmExtensionClient_Get _ _ _ _ _) as [[read [e|]] c3]; cbn;
  [eexists; split; [|by rewrite ?app_nil_r, <- ?app_assoc]; done|].
destruct (ext_ID read) as [id|]; cbn;
  [|eexists; split; [|by rewrite ?app_nil_r, <- ?app_assoc]; done].
rewrite <- !app_assoc. cbn.
destruct (resourceArmVirtualMachineExtensionsRead E _) as [[ds|] w2]; [|done].
rewrite app_nil_r. by destruct w2.
Qed.

End Proofs.

(** *** An Azure service with fixed answers

    Every GET answers with the response and error [get], the request that
    starts a long-running operation with the error [create], the wait for
    its completion with [poll], and DELETE with [delete]. *)
Definition fixed_answers (get : Response * option error) (create poll : option error)
    (delete : Response * option error) : Env :=
  {| cloud := unit;
     json := string;
     Future := unit;
     ResponseWasNotFound := λ r, bool_decide (r = Some StatusNotFound);
     parseAzureResourceID := λ id,
       if decide (id = "") then inr "empty resource id"
       else inl (mkResourceID "rg"
                   {[ "dnszones" := "example.com"; "A" := "www";
                      "routeTables" := "rt"; "routes" := "r1" ]});
     flattenAndSetTags := λ d tags, mkData (Id d) (<["tags" := VTags (default "" <$> tags)]> (attrs d));
     expandTags := fmap Some;
     azureStackNormalizeLocation := λ l, l;
     routeTableResourceName := "azurestack_route_table";
     EqualFold := λ a b, bool_decide (a = b);
     ExpandJsonFromString := inl;
     FlattenJsonToString := inl;
     set_refused := λ _ _, None;
     WaitForCompletionRef := λ _ c, (poll, c);
     routesClient_CreateOrUpdate := λ _ _ _ _ c, ((tt, create), c);
     routesClient_Get := λ _ _ _ c, ((mkRoute get.1 (Some "/rg/rt/r1") (Some "r1") None, get.2), c);
     dnsClient_Get := λ _ _ _ c, ((mkRecordSet get.1 (Some "/rg/example.com/www") (Some "www") None, get.2), c);
     dnsClient_Delete := λ _ _ _ c, (delete, c);
     zonesClient_Get := λ _ _ c, ((mkZone get.1 (Some "/rg/example.com") None ∅, get.2), c);
     availSetClient_Get := λ _ _ c,
       ((mkAvailabilitySet get.1 (Some "/rg/as") (Some "as") None None None ∅, get.2), c);
     vmExtensionClient_CreateOrUpdate := λ _ _ _ _ c, ((tt, create), c);
     vmExtensionClient_Get := λ _ _ _ c,
       ((mkExtension get.1 (Some "/rg/vm/ext") (Some "ext") None None ∅, get.2), c)
  |}.

(** The resource data of a DNS A record that is in the state. *)
Definition www_record (E : Env) (c : cloud E) : world E :=
  mkWorld c (mkData "/rg/example.com/www" {[ "name" := VString "www" ]}) [].

(** The GET answers 404 Not Found. *)
Definition gone : Env :=
  fixed_answers (Some StatusNotFound, Some "404 Not Found") None None (None, None).

(** The wait for completion fails. *)
Definition never_completes : Env :=
  fixed_answers (Some StatusOK, None) None (Some "polling failed") (None, None).

(** DELETE answers 204 No Content, with a nil error. *)
Definition deletes_nothing : Env :=
  fixed_answers (None, None) None None (Some StatusNoContent, None).

(** C3. Retry Not-Found as delete-from-state: when the GET call of the Read
    operation of a DNS A record, a route, an availability set, a DNS zone or
    a virtual machine extension returns an error, then, if the response is
    Not-Found, the operation sets the resource ID to the empty string and
    returns no diagnostics, and otherwise it returns diagnostics and leaves
    the resource data, the ID with it, as it was. *)
Theorem read_not_found_removes_from_state (E : Env) :
  not_found_leaves_state (resourceArmDnsARecordRead E)
    (λ id, dnsClient_Get E (ResourceGroup id) (index (Path id) "dnszones") (index (Path id) "A"))
    rs_Response ∧
  not_found_leaves_state (resourceArmRouteRead E)
    (λ id, routesClient_Get E (ResourceGroup id) (index (Path id) "routeTables")
             (index (Path id) "routes"))
    route_Response ∧
  not_found_leaves_state (resourceArmAvailabilitySetRead E)
    (λ id, availSetClient_Get E (ResourceGroup id) (index (Path id) "availabilitySets"))
    as_Response ∧
  not_found_leaves_state (resourceArmDnsZoneRead E)
    (λ id, zonesClient_Get E (ResourceGroup id) (index (Path id) "dnszones"))
    zone_Response ∧
  not_found_leaves_state (resourceArmVirtualMachineExtensionsRead E)
    (λ id, vmExtensionClient_Get E (ResourceGroup id) (index (Path id) "virtualMachines")
             (index (Path id) "extensions"))
    ext_Response.
Proof.
split_and!.
- apply dns_a_read_not_found.
- apply route_read_not_found.
- apply avail_read_not_found.
- apply zone_read_not_found.
- apply ext_read_not_found.
Qed.

Lemma read_not_found_witness :
  ∃ diags w',
    resourceArmDnsARecordRead gone (www_record gone tt) = (Some diags, w') ∧
    diags = [] ∧ Id (data w') = "".
Proof.
exact (proj1 (read_not_found_removes_from_state gone)
         (www_record gone tt)
         (mkResourceID "rg" {[ "dnszones" := "example.com"; "A" := "www";
                               "routeTables" := "rt"; "routes" := "r1" ]})
         (mkRecordSet (Some StatusNotFound) (Some "/rg/example.com/www") (Some "www") None)
         "404 Not Found" tt eq_refl eq_refl).
Defined.

(** C4. Long-running operations are polled to completion before state is
    written.  A route create/update and a virtual machine extension create
    follow the answers of the service: when the request that starts the
    long-running operation returns an error they return diagnostics, having
    made no other call; otherwise they wait for the completion, and when
    the wait returns an error they return diagnostics, having read nothing
    back; only after a wait that returned no error they read the resource
    back, from the state the wait left, and only with the ID read back they
    set the resource ID and go on as Read.  Whenever the start, the wait or
    the read-back fails, the resource data is as it was and no ID is set.
    On the events of every run, panicking runs included: a read-back and a
    SetId come only after a wait for completion that returned no error. *)
Theorem create_polls_before_state (E : Env) :
  (polls_before_state (resourceArmRouteCreateUpdate E) ∧
   polls_before_state (resourceArmVirtualMachineExtensionsCreate E)) ∧
  (∀ w : world E,
     let d := data w in
     let name := GetString d "name" in
     let rtName := GetString d "route_table_name" in
     let resGroup := GetString d "resource_group_name" in
     waits_then_reads_back (resourceArmRouteCreateUpdate E) w
       [EvLockByName rtName (routeTableResourceName E)]
       [EvUnlockByName rtName (routeTableResourceName E)]
       (routesClient_CreateOrUpdate E resGroup rtName name
          (mkRoute None None (Some name)
             (Some (mkRouteProps (Some (GetString d "address_prefix"))
                      (GetString d "next_hop_type") (GetOk d "next_hop_in_ip_address")))))
       (routesClient_Get E resGroup rtName name) route_ID (resourceArmRouteRead E)) ∧
  (∀ (w : world E) settings protectedSettings,
     let d := data w in
     let name := GetString d "name" in
     let vmName := GetString d "virtual_machine_name" in
     let resGroup := GetString d "resource_group_name" in
     expand_settings E (GetString d "settings") = inl settings →
     expand_settings E (GetString d "protected_settings") = inl protectedSettings →
     waits_then_reads_back (resourceArmVirtualMachineExtensionsCreate E) w [] []
       (vmExtensionClient_CreateOrUpdate E resGroup vmName name
          (mkExtension None None None
             (Some (azureStackNormalizeLocation E (GetString d "location")))
             (Some (mkExtProps (Some (GetString d "publisher")) (Some (GetString d "type"))
                      (Some (GetString d "type_handler_version"))
                      (Some (GetBool d "auto_upgrade_minor_version"))
                      settings protectedSettings))
             (expandTags E (GetTags d "tags"))))
       (vmExtensionClient_Get E resGroup vmName name) ext_ID
       (resourceArmVirtualMachineExtensionsRead E)).
Proof.
split_and!.
- apply route_create_polls.
- apply ext_create_polls.
- apply route_create_follows_service.
- apply ext_create_follows_service.
Qed.

(** The wait fails: the route create/update returns its diagnostic after
    the start and the wait, between the lock and the unlock of the route
    table, and the extension create after the start and the wait. *)
Lemma create_polls_witness :
  (∃ diags, diags ≠ [] ∧
     resourceArmRouteCreateUpdate never_completes (www_record never_completes tt) =
       (Some diags,
        @mkWorld never_completes tt (mkData "/rg/example.com/www" {[ "name" := VString "www" ]})
          [EvLockByName "" "azurestack_route_table"; EvCreateOrUpdate true;
           EvWaitForCompletion false; EvUnlockByName "" "azurestack_route_table"])) ∧
  (∃ diags, diags ≠ [] ∧
     resourceArmVirtualMachineExtensionsCreate never_completes (www_record never_completes tt) =
       (Some diags,
        @mkWorld never_completes tt (mkData "/rg/example.com/www" {[ "name" := VString "www" ]})
          [EvCreateOrUpdate true; EvWaitForCompletion false])).
Proof.
split.
- exact (proj1 (proj2 (create_polls_before_state never_completes))
           (www_record never_completes tt)).
- exact (proj2 (proj2 (create_polls_before_state never_completes))
           (www_record never_completes tt) SettingsNil SettingsNil eq_refl eq_refl).
Defined.

(** What [resourceArmDnsARecordDelete] returns is decided by the status code
    of the response alone, whatever the error of the SDK call. *)
Lemma dns_a_record_delete_by_status (E : Env) w id code err c :
  parseAzureResourceID E (Id (data w)) = inl id →
  dnsClient_Delete E (ResourceGroup id) (index (Path id) "dnszones") (index (Path id) "A")
    (azure w) = ((Some code, err), c) →
  ∃ diags w', resourceArmDnsARecordDelete E w = (Some diags, w') ∧
    (diags = [] ↔ code = StatusOK).
Proof.
intros Hp Hd. unfold resourceArmDnsARecordDelete, bind, getData, sdk. cbn.
rewrite Hp. cbn. rewrite Hd. cbn. case_decide as Hc; cbn; eexists _, _; (split; [done|]); split; done.
Qed.

(** C5, at the input where the code leaves the claim.  The SDK's delete call
    succeeds with 204 No Content and a nil error, and the operation returns
    an error diagnostic; the claim says it returns none. *)
Theorem dns_a_record_delete_no_content :
  (resourceArmDnsARecordDelete deletes_nothing (www_record deletes_nothing tt)).1
  = Some [DiagErrorf "Error deleting DNS A Record %s: %+v" ["www"; "<nil>"]].
Proof. reflexivity. Qed.

(** C10, at the input where the code leaves the claim.  For a nil [records]
    pointer the function panics, while the claim says it returns the empty
    list. *)
Theorem flattenAzureStackDnsARecords_nil :
  flattenAzureStackDnsARecords None = None.
Proof. reflexivity. Qed.

(** For a pointer that is not nil the function returns the addresses in
    input order, provided every record has one. *)
Lemma flattenAzureStackDnsARecords_some (rs : list ARecord) (ips : list string) :
  Ipv4Address <$> rs = Some <$> ips →
  flattenAzureStackDnsARecords (Some rs) = Some ips.
Proof.
intros H. cbn. apply mapM_Some. revert ips H.
induction rs as [|r rs IH]; intros [|ip ips] H; simplify_eq/=; constructor; auto.
Qed.

End Resources.

(** ** Go's regexp, for the patterns of the validators

    The patterns of this provider are made of literals, classes of ASCII
    characters, [+], alternation and the anchors [^] and [$], which, without
    the multi-line flag, stand for the beginning and the end of the text.  A
    character outside ASCII is one or more bytes above 127 and matches none
    of the literals and classes here, so matching byte by byte gives what
    matching rune by rune gives. *)

Module Regexp.

Inductive item : Type :=
| Range (lo hi : ascii)
| Single (c : ascii).

(** [Bol] is [^] and [Eol] is [$]. *)
Inductive re : Type :=
| Bol
| Eol
| Lit (c : ascii)
| Class (items : list item)
| Cat (r1 r2 : re)
| Alt (r1 r2 : re)
| Plus (r : re).

Definition in_item (c : ascii) (i : item) : bool :=
  match i with
  | Range lo hi => (N_of_ascii lo <=? N_of_ascii c)%N && (N_of_ascii c <=? N_of_ascii hi)%N
  | Single c' => bool_decide (c = c')
  end.

Definition in_class (c : ascii) (items : list item) : bool := existsb (in_item c) items.

(** [r+]: [body] matches [r] once; after it the rest of the pattern
    follows, or [r] is matched again on a shorter text. *)
Definition plus_loop (body : bool → string → (bool → string → bool) → bool)
    (k : bool → string → bool) : nat → bool → string → bool :=
  fix plus n bot s :=
    body bot s (λ bot' s',
      k bot' s' ||
      match n with
      | 0 => false
      | S n' => Nat.ltb (String.length s') (String.length s) && plus n' bot' s'
      end).

(** [accept r bot s k]: [r] matches a prefix of [s] after which [k]
    accepts the rest; [bot] tells whether [s] is the whole text. *)
Fixpoint accept (r : re) (bot : bool) (s : string) (k : bool → string → bool) : bool :=
  match r with
  | Bol => bot && k bot s
  | Eol => match s with EmptyString => k bot s | _ => false end
  | Lit c => match s with String c' s' => bool_decide (c' = c) && k false s' | _ => false end
  | Class items => match s with String c' s' => in_class c' items && k false s' | _ => false end
  | Cat r1 r2 => accept r1 bot s (λ bot' s', accept r2 bot' s' k)
  | Alt r1 r2 => accept r1 bot s k || accept r2 bot s k
  | Plus r' => plus_loop (accept r') k (String.length s) bot s
  end.

(** A match may begin anywhere in the text. *)
Fixpoint search (r : re) (bot : bool) (s : string) : bool :=
  accept r bot s (λ _ _, true) ||
  match s with
  | EmptyString => false
  | String _ s' => search r false s'
  end.

(** [MatchString] of a compiled pattern. *)
Definition MatchString (r : re) (s : string) : bool := search r true s.

(** The literal characters of [s], one after the other. *)
Fixpoint Str (s : string) : re :=
  match s with
  | EmptyString => Cat Bol Bol
  | String c EmptyString => Lit c
  | String c s' => Cat (Lit c) (Str s')
  end.


(** The characters of a Go string, byte by byte. *)
Definition chars (s : string) : list ascii := list_ascii_of_string s.

(** The end of the text, as a continuation. *)
Definition at_end (bot : bool) (s : string) : bool := accept Eol bot s (λ _ _, true).

Lemma accept_Cat r1 r2 b s k :
  accept (Cat r1 r2) b s k = accept r1 b s (λ b' s', accept r2 b' s' k).
Proof. done. Qed.

Lemma accept_Lit c b s k :
  accept (Lit c) b s k = true ↔ ∃ s', s = String c s' ∧ k false s' = true.
Proof.
destruct s as [|c' s']; cbn.
- split; [done|]. by intros (? & ? & ?).
- rewrite andb_true_iff, bool_decide_eq_true. split.
  + intros [-> ?]. eauto.
  + intros (? & [= -> ->] & ?). done.
Qed.

Lemma accept_Str t : t ≠ "" → ∀ b s k,
  accept (Str t) b s k = true ↔ ∃ s', s = t +:+ s' ∧ k false s' = true.
Proof.
induction t as [|c t IH]; [done|]. intros _ b s k.
destruct t as [|c' t].
- cbn [Str]. apply accept_Lit.
- change (Str (String c (String c' t))) with (Cat (Lit c) (Str (String c' t))).
  rewrite accept_Cat, accept_Lit. split.
  + intros (s' & -> & (s'' & -> & Hk)%IH); [|done]. by exists s''.
  + intros (s'' & -> & Hk). eexists. split; [done|]. apply IH; [done|]. by exists s''.
Qed.

Lemma search_Bol_false r s : search (Cat Bol r) false s = false.
Proof. induction s as [|c s IH]; cbn; [done|]. by rewrite IH. Qed.

Lemma search_Alt_Bol_false r1 r2 s : search (Alt (Cat Bol r1) (Cat Bol r2)) false s = false.
Proof. induction s as [|c s IH]; cbn; [done|]. by rewrite IH. Qed.

Lemma at_end_true b s : at_end b s = true ↔ s = "".
Proof. by destruct s. Qed.

Lemma plus_Class_at_end items n : ∀ b s,
  (String.length s ≤ n)%nat →
  plus_loop (accept (Class items)) at_end n b s
  = negb (bool_decide (s = "")) && forallb (λ c, in_class c items) (chars s).
Proof.
induction n as [|n IH]; intros b [|c s] Hn; cbn in *; try done.
- exfalso. lia.
- rewrite Nat.leb_refl, IH by lia.
  destruct (in_class c items), s; done.
Qed.

End Regexp.

(** ** Storage container names (src/azurestack/resource_arm_route.go, lines 225-242) *)

Module StorageContainer.
Import Regexp.

(** The [error] that [fmt.Errorf(format, args...)] builds. *)
Record Error : Type := Errorf { format : string; args : list string }.

(** [regexp.MustCompile(`^\$root$|^[0-9a-z-]+$`)] *)
Definition name_pattern : re :=
  Alt (Cat Bol (Cat (Str "$root") Eol))
      (Cat Bol (Cat (Plus (Class [Range "0" "9"; Range "a" "z"; Single "-"])) Eol)).

(** [regexp.MustCompile(`^-`)] *)
Definition hyphen_pattern : re := Cat Bol (Lit "-").

(** [func validateArmStorageContainerName(v interface{}, k string) (ws []string, errors []error)];
    [v] is the string the schema hands over. *)
Definition validateArmStorageContainerName (value k : string) : list string * list Error :=
  let errors := [] in
  let errors :=
    if negb (MatchString name_pattern value)
    then errors ++ [Errorf "only lowercase alphanumeric characters and hyphens allowed in %q: %q" [k; value]]
    else errors in
  let errors :=
    if Nat.ltb (String.length value) 3 || Nat.ltb 63 (String.length value)
    then errors ++ [Errorf "%q must be between 3 and 63 characters: %q" [k; value]]
    else errors in
  let errors :=
    if MatchString hyphen_pattern value
    then errors ++ [Errorf "%q cannot begin with a hyphen: %q" [k; value]]
    else errors in
  ([], errors).

(** The rules, in the words of the naming convention. *)
Definition lower_alnum_or_hyphen (c : ascii) : bool :=
  let n := N_of_ascii c in
  ((48 <=? n) && (n <=? 57) || (97 <=? n) && (n <=? 122) || (n =? 45))%N.

(** The name is "$root" or consists only of lowercase alphanumeric
    characters and hyphens. *)
Definition only_allowed_characters (value : string) : bool :=
  bool_decide (value = "$root") || forallb lower_alnum_or_hyphen (chars value).

(** The same, for a name that has at least one character. *)
Definition some_allowed_characters (value : string) : bool :=
  bool_decide (value = "$root") ||
  negb (bool_decide (value = "")) && forallb lower_alnum_or_hyphen (chars value).

Definition length_3_to_63 (value : string) : bool :=
  Nat.leb 3 (String.length value) && Nat.leb (String.length value) 63.

Definition no_leading_hyphen (value : string) : bool :=
  match value with
  | String "-" _ => false
  | _ => true
  end.

Definition violated (rules : list bool) : nat := length (filter (λ ok, ok = false) rules).

(** No error exactly when the three rules hold, and otherwise one error for
    each rule that does not; [characters] is the rule on the characters. *)
Definition one_error_per_rule (characters : string → bool) (value k : string) : Prop :=
  let errors := (validateArmStorageContainerName value k).2 in
  (errors = [] ↔
     characters value = true ∧ length_3_to_63 value = true ∧ no_leading_hyphen value = true) ∧
  length errors = violated [characters value; length_3_to_63 value; no_leading_hyphen value].

Lemma class_lower_alnum_or_hyphen c :
  in_class c [Range "0" "9"; Range "a" "z"; Single "-"] = lower_alnum_or_hyphen c.
Proof.
destruct c as [[] [] [] [] [] [] [] []]; by vm_compute.
Qed.

Lemma MatchString_name_pattern value :
  MatchString name_pattern value = some_allowed_characters value.
Proof.
unfold MatchString, some_allowed_characters, name_pattern.
assert (search (Alt (Cat Bol (Cat (Str "$root") Eol))
                  (Cat Bol (Cat (Plus (Class [Range "0" "9"; Range "a" "z"; Single "-"])) Eol)))
          true value
        = accept (Str "$root") true value at_end ||
          plus_loop (accept (Class [Range "0" "9"; Range "a" "z"; Single "-"])) at_end
            (String.length value) true value) as ->.
{ destruct value as [|c s]; cbn -[Str]; [by rewrite orb_false_r|].
  by rewrite search_Alt_Bol_false, orb_false_r. }
rewrite plus_Class_at_end by done. f_equal.
- apply eq_true_iff_eq. rewrite accept_Str by done. rewrite bool_decide_eq_true. split.
  + intros (s' & -> & ->%at_end_true). done.
  + intros ->. by exists "".
- f_equal. unfold chars. induction (list_ascii_of_string value) as [|c l IH]; [done|].
  cbn [forallb]. by rewrite IH, class_lower_alnum_or_hyphen.
Qed.

Lemma MatchString_hyphen_pattern value :
  MatchString hyphen_pattern value = negb (no_leading_hyphen value).
Proof.
unfold MatchString, hyphen_pattern.
destruct value as [|c s]; cbn; [done|].
rewrite search_Bol_false, orb_false_r, andb_true_r.
destruct (decide (c = "-"%char)) as [->|]; [done|].
rewrite bool_decide_eq_false_2 by done.
destruct c as [[] [] [] [] [] [] [] []]; done.
Qed.

Lemma length_3_to_63_spec value :
  Nat.ltb (String.length value) 3 || Nat.ltb 63 (String.length value)
  = negb (length_3_to_63 value).
Proof.
unfold length_3_to_63. rewrite negb_andb, !Nat.ltb_antisym. done.
Qed.

(** The errors, rule by rule. *)
Lemma validateArmStorageContainerName_errors value k :
  (validateArmStorageContainerName value k).2 =
  (if some_allowed_characters value then []
   else [Errorf "only lowercase alphanumeric characters and hyphens allowed in %q: %q" [k; value]])
  ++ (if length_3_to_63 value then []
      else [Errorf "%q must be between 3 and 63 characters: %q" [k; value]])
  ++ (if no_leading_hyphen value then []
      else [Errorf "%q cannot begin with a hyphen: %q" [k; value]]).
Proof.
unfold validateArmStorageContainerName. cbn [snd].
rewrite MatchString_name_pattern, MatchString_hyphen_pattern, length_3_to_63_spec.
by destruct (some_allowed_characters value), (length_3_to_63 value), (no_leading_hyphen value).
Qed.

(** C6 as the claim states it fails for the empty name: it breaks the length
    rule only, and the function returns two errors. *)
Lemma empty_name_two_errors : ¬ one_error_per_rule only_allowed_characters "" "name".
Proof. intros [_ H]. vm_compute in H. discriminate. Qed.

(** C6, amended. Storage container name validation: for every string,
    validateArmStorageContainerName returns no errors if and only if the
    name is exactly "$root" or is one or more lowercase alphanumeric
    characters and hyphens, and its length is between 3 and 63, and it does
    not begin with a hyphen; otherwise it returns one error per violated
    rule. *)
Theorem validateArmStorageContainerName_one_error_per_rule value k :
  one_error_per_rule some_allowed_characters value k.
Proof.
unfold one_error_per_rule. cbn zeta. rewrite validateArmStorageContainerName_errors.
destruct (some_allowed_characters value), (length_3_to_63 value), (no_leading_hyphen value);
  cbn; (split; [split; [done|by intros (? & ? & ?)]|done]).
Qed.

(** The first half of the claim holds as stated. *)
Lemma validateArmStorageContainerName_no_errors value k :
  (validateArmStorageContainerName value k).2 = [] ↔
  only_allowed_characters value = true ∧ length_3_to_63 value = true ∧
  no_leading_hyphen value = true.
Proof.
rewrite validateArmStorageContainerName_errors.
assert (length_3_to_63 value = true →
        only_allowed_characters value = some_allowed_characters value) as Hsame.
{ unfold some_allowed_characters, only_allowed_characters. by destruct value. }
destruct (length_3_to_63 value); [rewrite Hsame by done|];
  destruct (some_allowed_characters value), (no_leading_hyphen value); cbn;
  split; try done; by intros (? & ? & ?).
Qed.

End StorageContainer.

(** ** The route table data source (src/unnamed/part_000, lines 423-457) *)

Module RouteTable.
Import Sdk.

(** [network.Subnet], with the field the data source reads. *)
Record Subnet : Type := mkSubnet { subnet_ID : option string }.

(** The body of the loop of [flattenRouteTableDataSourceRoutes]: the map
    [r] of one route.  [None] when a nil pointer is dereferenced. *)
Definition flattenRoute (route : Route) : option (gmap string string) :=
  name ← route_Name route;
  let r := <["name" := name]> ∅ in
  match route_Properties route with
  | Some props =>
      prefix ← AddressPrefix props;
      let r := <["address_prefix" := prefix]> r in
      let r := <["next_hop_type" := NextHopType props]> r in
      match NextHopIPAddress props with
      | Some ip => Some (<["next_hop_in_ip_address" := ip]> r)
      | None => Some r
      end
  | None => Some r
  end.

(** [func flattenRouteTableDataSourceRoutes(input *[]network.Route) []interface{}] *)
Definition flattenRouteTableDataSourceRoutes (input : option (list Route)) :
    option (list (gmap string string)) :=
  let results := [] in
  match input with
  | Some routes =>
      foldl (λ results route, rs ← results; r ← flattenRoute route; Some (rs ++ [r]))
            (Some results) routes
  | None => Some results
  end.

(** [func flattenRouteTableDataSourceSubnets(subnets *[]network.Subnet) []string] *)
Definition flattenRouteTableDataSourceSubnets (subnets : option (list Subnet)) :
    option (list string) :=
  let output := [] in
  match subnets with
  | Some subnets =>
      foldl (λ output subnet, out ← output; id ← subnet_ID subnet; Some (out ++ [id]))
            (Some output) subnets
  | None => Some output
  end.

(** The route has a name and an address prefix. *)
Definition named_with_prefix (route : Route) : Prop :=
  is_Some (route_Name route) ∧
  ∃ props, route_Properties route = Some props ∧ is_Some (AddressPrefix props).

(** The map [m] carries the name, the address prefix, the type of the next
    hop and, when the route has one, the address of the next hop. *)
Definition carries_route (route : Route) (m : gmap string string) : Prop :=
  m !! "name" = route_Name route ∧
  ∃ props, route_Properties route = Some props ∧
    m !! "address_prefix" = AddressPrefix props ∧
    m !! "next_hop_type" = Some (NextHopType props) ∧
    m !! "next_hop_in_ip_address" = NextHopIPAddress props.

Lemma foldl_append_Some {A B} (f : A → option B) (l : list A) : ∀ acc,
  foldl (λ acc a, rs ← acc; r ← f a; Some (rs ++ [r])) (Some acc) l
  = (acc ++.) <$> mapM f l.
Proof.
induction l as [|a l IH]; intros acc; cbn; [by rewrite app_nil_r|].
destruct (f a) as [r|]; cbn.
- rewrite IH. destruct (mapM f l); cbn; [|done]. by rewrite <- app_assoc.
- clear IH. induction l; [done|]. done.
Qed.

Lemma flattenRoute_carries route :
  named_with_prefix route → ∃ m, flattenRoute route = Some m ∧ carries_route route m.
Proof.
intros [[name Hn] (props & Hp & [prefix Ha])]. unfold flattenRoute, carries_route.
rewrite Hn, Hp; cbn. rewrite Ha; cbn.
destruct (NextHopIPAddress props) as [ip|] eqn:Hip; eexists; (split; [done|]);
  (split; [|exists props; rewrite Ha, ?Hip; split_and!]); by simplify_map_eq.
Qed.

(** C7. Route table flattening preserves elements and order: for a list of
    routes that all have a name and an address prefix,
    flattenRouteTableDataSourceRoutes returns one map per route, in input
    order, that carries the route's name, address_prefix, next_hop_type and,
    when the route has one, next_hop_in_ip_address; for a list of subnets
    that all have an ID, flattenRouteTableDataSourceSubnets returns these
    IDs in input order; and a nil pointer gives the empty list in both. *)
Theorem flatten_route_table_preserves_order :
  (∀ routes, Forall named_with_prefix routes →
     ∃ results, flattenRouteTableDataSourceRoutes (Some routes) = Some results ∧
       Forall2 carries_route routes results) ∧
  (∀ subnets ids, subnet_ID <$> subnets = Some <$> ids →
     flattenRouteTableDataSourceSubnets (Some subnets) = Some ids) ∧
  flattenRouteTableDataSourceRoutes None = Some [] ∧
  flattenRouteTableDataSourceSubnets None = Some [].
Proof.
split_and!; [| |done..].
- intros routes Hall. unfold flattenRouteTableDataSourceRoutes.
  rewrite foldl_append_Some.
  assert (∃ results, mapM flattenRoute routes = Some results ∧
            Forall2 carries_route routes results) as (results & -> & ?).
  { induction Hall as [|route routes Hr _ (results & IH & ?)]; [by exists []|].
    destruct (flattenRoute_carries route Hr) as (m & Hm & ?).
    exists (m :: results). cbn. rewrite Hm, IH. split; [done|]. by constructor. }
  by exists results.
- intros subnets ids H. unfold flattenRouteTableDataSourceSubnets.
  rewrite foldl_append_Some. cbn.
  replace (mapM subnet_ID subnets) with (Some ids); [done|].
  symmetry. apply mapM_Some. revert ids H.
  induction subnets as [|r rs IH]; intros [|ip ips] H; simplify_eq/=; constructor; auto.
Qed.

Lemma flatten_route_table_witness :
  ∃ results,
    flattenRouteTableDataSourceRoutes
      (Some [mkRoute None None (Some "default")
               (Some (mkRouteProps (Some "0.0.0.0/0") "Internet" None));
             mkRoute None None (Some "appliance")
               (Some (mkRouteProps (Some "10.1.0.0/16") "VirtualAppliance" (Some "10.0.0.4")))])
    = Some results ∧
    Forall2 carries_route
      [mkRoute None None (Some "default")
         (Some (mkRouteProps (Some "0.0.0.0/0") "Internet" None));
       mkRoute None None (Some "appliance")
         (Some (mkRouteProps (Some "10.1.0.0/16") "VirtualAppliance" (Some "10.0.0.4")))]
      results.
Proof.
apply (proj1 flatten_route_table_preserves_order).
repeat constructor; cbn; eauto.
Defined.

End RouteTable.

(** ** Load balancer backend address pools (src/azurestack/resource_arm_dns_zone.go, lines 205-392) *)

Module LoadBalancer.
Import Sdk.

Record SubResource : Type := mkSubResource { sr_ID : option string }.

Record BackendAddressPoolPropertiesFormat : Type := mkPoolProps {
  BackendIPConfigurations : option (list SubResource);
  pool_LoadBalancingRules : option (list SubResource);
  pool_ProvisioningState : option string
}.

Record BackendAddressPool : Type := mkPool {
  pool_Properties : option BackendAddressPoolPropertiesFormat;
  pool_Name : option string;
  pool_Etag : option string;
  pool_ID : option string
}.

Record LoadBalancerPropertiesFormat : Type := mkLBProps {
  FrontendIPConfigurations : option (list SubResource);
  BackendAddressPools : option (list BackendAddressPool);
  LoadBalancingRules : option (list SubResource);
  Probes : option (list SubResource);
  InboundNatRules : option (list SubResource);
  InboundNatPools : option (list SubResource);
  OutboundNatRules : option (list SubResource);
  ResourceGUID : option string;
  ProvisioningState : option string
}.

Record LoadBalancer : Type := mkLB {
  lb_Response : Response;
  lb_Sku : option string;
  lb_Properties : option LoadBalancerPropertiesFormat;
  lb_Etag : option string;
  lb_ID : option string;
  lb_Name : option string;
  lb_Type : option string;
  lb_Location : option string;
  lb_Tags : Tags
}.

(** [loadBalancer.LoadBalancerPropertiesFormat.BackendAddressPools = &pools],
    on a load balancer whose properties are [props]. *)
Definition set_BackendAddressPools (loadBalancer : LoadBalancer)
    (props : LoadBalancerPropertiesFormat) (pools : list BackendAddressPool) : LoadBalancer :=
  mkLB (lb_Response loadBalancer) (lb_Sku loadBalancer)
    (Some (mkLBProps (FrontendIPConfigurations props) (Some pools) (LoadBalancingRules props)
             (Probes props) (InboundNatRules props) (InboundNatPools props)
             (OutboundNatRules props) (ResourceGUID props) (ProvisioningState props)))
    (lb_Etag loadBalancer) (lb_ID loadBalancer) (lb_Name loadBalancer) (lb_Type loadBalancer)
    (lb_Location loadBalancer) (lb_Tags loadBalancer).

(** [append(s[:i], s[i+1:]...)]; the slice expressions panic unless
    [0 <= i] and [i+1 <= len(s)]. *)
Definition remove_at {A} (i : Z) (s : list A) : option (list A) :=
  if decide (0 ≤ i < Z.of_nat (length s))%Z
  then Some (take (Z.to_nat i) s ++ drop (S (Z.to_nat i)) s)
  else None.

(** [func expandAzureRmLoadBalancerBackendAddressPools] *)
Definition expandAzureRmLoadBalancerBackendAddressPools (name : string) : BackendAddressPool :=
  mkPool None (Some name) None None.

(** How far an operation gets on its way to [client.CreateOrUpdate]: it
    returns before the call, with its diagnostics and whether it has set the
    ID to the empty string; or it makes the call, with these arguments; or
    it panics. *)
Inductive request : Type :=
| Returns (diags : Diagnostics) (clearsId : bool)
| Sends (resGroup loadBalancerName : string) (loadBalancer : LoadBalancer)
| Panics.

Section Operations.

(** [findLoadBalancerBackEndAddressPoolByName] and
    [resourceGroupAndLBNameFromId], which are defined outside the sources at
    hand. *)
Variable findLoadBalancerBackEndAddressPoolByName :
  LoadBalancer → string → option BackendAddressPool * Z * bool.
Variable resourceGroupAndLBNameFromId : string → (string * string) + error.

(** [func resourceArmLoadBalancerBackendAddressPoolCreate], from the answer
    [retrieved] of [retrieveLoadBalancerById] to the call of
    [client.CreateOrUpdate]; [name] is [d.Get("name")] and [loadBalancerID]
    is [d.Get("loadbalancer_id")]. *)
Definition resourceArmLoadBalancerBackendAddressPoolCreate (name loadBalancerID : string)
    (retrieved : option LoadBalancer * bool * option error) : request :=
  let '(loadBalancer, exists_, err) := retrieved in
  match err with
  | Some e => Returns (FromErr (Some e)) false
  | None =>
      if negb exists_ then Returns [] true
      else
        match loadBalancer with
        | None => Panics
        | Some lb =>
            match lb_Properties lb with
            | None => Panics
            | Some props =>
                match BackendAddressPools props with
                | None => Panics
                | Some pools =>
                    let backendAddressPools :=
                      pools ++ [expandAzureRmLoadBalancerBackendAddressPools name] in
                    let '(existingPool, existingPoolIndex, exists_) :=
                      findLoadBalancerBackEndAddressPoolByName lb name in
                    let backendAddressPools :=
                      if exists_ then
                        existingPool ← existingPool;
                        existingName ← pool_Name existingPool;
                        if decide (name = existingName)
                        then remove_at existingPoolIndex backendAddressPools
                        else Some backendAddressPools
                      else Some backendAddressPools in
                    match backendAddressPools with
                    | None => Panics
                    | Some backendAddressPools =>
                        let lb := set_BackendAddressPools lb props backendAddressPools in
                        match resourceGroupAndLBNameFromId loadBalancerID with
                        | inr e =>
                            Returns (Errorf "Error parsing LoadBalancer Name and Group: %+v" [e])
                                    false
                        | inl (resGroup, loadBalancerName) => Sends resGroup loadBalancerName lb
                        end
                    end
                end
            end
        end
  end.

(** [func resourceArmLoadBalancerBackendAddressPoolDelete], likewise. *)
Definition resourceArmLoadBalancerBackendAddressPoolDelete (name loadBalancerID : string)
    (retrieved : option LoadBalancer * bool * option error) : request :=
  let '(loadBalancer, exists_, err) := retrieved in
  match err with
  | Some e => Returns (Errorf "Error retrieving Load Balancer by ID: %+v" [e]) false
  | None =>
      if negb exists_ then Returns [] true
      else
        match loadBalancer with
        | None => Panics
        | Some lb =>
            let '(_, index, exists_) := findLoadBalancerBackEndAddressPoolByName lb name in
            if negb exists_ then Returns [] false
            else
              match lb_Properties lb with
              | None => Panics
              | Some props =>
                  match BackendAddressPools props with
                  | None => Panics
                  | Some oldBackEndPools =>
                      match remove_at index oldBackEndPools with
                      | None => Panics
                      | Some newBackEndPools =>
                          let lb := set_BackendAddressPools lb props newBackEndPools in
                          match resourceGroupAndLBNameFromId loadBalancerID with
                          | inr e => Returns (FromErr (Some e)) false
                          | inl (resGroup, loadBalancerName) =>
                              Sends resGroup loadBalancerName lb
                          end
                      end
                  end
              end
        end
  end.

End Operations.

(** Modelled from the spec: [findLoadBalancerBackEndAddressPoolByName] is not
    among the sources.  It looks for "the pool found at the matching index":
    the first pool of the load balancer whose name is the given one, which
    it returns with its index; without such a pool, and for a load balancer
    without properties or pools, it returns nil, -1 and false. *)
Fixpoint find_from (name : string) (i : Z) (pools : list BackendAddressPool) :
    option BackendAddressPool * Z * bool :=
  match pools with
  | [] => (None, (-1)%Z, false)
  | apc :: pools' =>
      if decide (pool_Name apc = Some name) then (Some apc, i, true)
      else find_from name (i + 1)%Z pools'
  end.

Definition find_first (lb : LoadBalancer) (name : string) :
    option BackendAddressPool * Z * bool :=
  match lb_Properties lb with
  | Some props =>
      match BackendAddressPools props with
      | Some pools => find_from name 0 pools
      | None => (None, (-1)%Z, false)
      end
  | None => (None, (-1)%Z, false)
  end.

(** A load balancer of resource group "rg" with the given pools. *)
Definition example_lb (pools : list BackendAddressPool) : LoadBalancer :=
  mkLB (Some StatusOK) None
    (Some (mkLBProps (Some [mkSubResource (Some "/lb/frontend")]) (Some pools) None None None
             None None None (Some "Succeeded")))
    (Some "W/1") (Some "/rg/lb") (Some "lb") None (Some "local") ∅.

Definition example_pool (name id : string) : BackendAddressPool :=
  mkPool None (Some name) None (Some id).

Definition example_parse (id : string) : (string * string) + error := inl ("rg", "lb").

(** [loadBalancer.LoadBalancerPropertiesFormat.BackendAddressPools], when
    none of the pointers is nil. *)
Definition pools_of (lb : LoadBalancer) : option (list BackendAddressPool) :=
  props ← lb_Properties lb; BackendAddressPools props.

(** The number of pools that have the name. *)
Definition count_named (name : string) (pools : list BackendAddressPool) : nat :=
  length (filter (λ pool, pool_Name pool = Some name) pools).

(** What the helper is relied on for: a pool it finds is the pool at the
    index it returns and has the name; when it finds none, no pool has the
    name. *)
Definition finds_by_name
    (find : LoadBalancer → string → option BackendAddressPool * Z * bool) : Prop :=
  ∀ lb name found i ex, find lb name = (found, i, ex) →
    if ex then
      ∃ pools pool, pools_of lb = Some pools ∧ (0 ≤ i)%Z ∧
        pools !! Z.to_nat i = Some pool ∧ found = Some pool ∧ pool_Name pool = Some name
    else ∀ pools pool, pools_of lb = Some pools → pool ∈ pools → pool_Name pool ≠ Some name.

(** Every field of the load balancer other than [BackendAddressPools] is
    the same in [lb'] as in [lb]. *)
Definition same_but_pools (lb lb' : LoadBalancer) : Prop :=
  lb_Response lb' = lb_Response lb ∧ lb_Sku lb' = lb_Sku lb ∧ lb_Etag lb' = lb_Etag lb ∧
  lb_ID lb' = lb_ID lb ∧ lb_Name lb' = lb_Name lb ∧ lb_Type lb' = lb_Type lb ∧
  lb_Location lb' = lb_Location lb ∧ lb_Tags lb' = lb_Tags lb ∧
  ∃ props props', lb_Properties lb = Some props ∧ lb_Properties lb' = Some props' ∧
    FrontendIPConfigurations props' = FrontendIPConfigurations props ∧
    LoadBalancingRules props' = LoadBalancingRules props ∧
    Probes props' = Probes props ∧
    InboundNatRules props' = InboundNatRules props ∧
    InboundNatPools props' = InboundNatPools props ∧
    OutboundNatRules props' = OutboundNatRules props ∧
    ResourceGUID props' = ResourceGUID props ∧
    ProvisioningState props' = ProvisioningState props.

(** The update Create sends for the retrieved load balancer [lb] changes
    the pools only and has exactly one pool of the configured name. *)
Definition create_leaves_one_pool
    (find : LoadBalancer → string → option BackendAddressPool * Z * bool)
    (parse : string → (string * string) + error)
    (name loadBalancerID : string) (lb : LoadBalancer) : Prop :=
  ∀ resGroup loadBalancerName lb',
    resourceArmLoadBalancerBackendAddressPoolCreate find parse name loadBalancerID
      (Some lb, true, None) = Sends resGroup loadBalancerName lb' →
    same_but_pools lb lb' ∧
    ∃ pools', pools_of lb' = Some pools' ∧ count_named name pools' = 1.

(** The update Create sends for the retrieved load balancer [lb] changes
    the pools only, and its pools are the other pools of [lb], in their
    order, followed by the new pool of the configured name: all the pools
    of [lb] when the helper found none of the name, and the pools of [lb]
    without the one at the index found otherwise. *)
Definition create_keeps_other_pools
    (find : LoadBalancer → string → option BackendAddressPool * Z * bool)
    (parse : string → (string * string) + error)
    (name loadBalancerID : string) (lb : LoadBalancer) : Prop :=
  ∀ resGroup loadBalancerName lb',
    resourceArmLoadBalancerBackendAddressPoolCreate find parse name loadBalancerID
      (Some lb, true, None) = Sends resGroup loadBalancerName lb' →
    same_but_pools lb lb' ∧
    ∃ pools others,
      pools_of lb = Some pools ∧
      pools_of lb' = Some (others ++ [mkPool None (Some name) None None]) ∧
      match find lb name with
      | (_, i, true) =>
          (0 ≤ i < Z.of_nat (length pools))%Z ∧
          others = take (Z.to_nat i) pools ++ drop (S (Z.to_nat i)) pools
      | (_, _, false) => others = pools
      end.

(** The update Delete sends for the retrieved load balancer [lb] changes
    the pools only, and its pools are those of [lb] without the one at the
    index the helper found. *)
Definition delete_removes_found_pool
    (find : LoadBalancer → string → option BackendAddressPool * Z * bool)
    (parse : string → (string * string) + error)
    (name loadBalancerID : string) (lb : LoadBalancer) : Prop :=
  ∀ resGroup loadBalancerName lb',
    resourceArmLoadBalancerBackendAddressPoolDelete find parse name loadBalancerID
      (Some lb, true, None) = Sends resGroup loadBalancerName lb' →
    same_but_pools lb lb' ∧
    ∃ pools found i,
      pools_of lb = Some pools ∧ find lb name = (found, Z.of_nat i, true) ∧
      i < length pools ∧
      pools_of lb' = Some (take i pools ++ drop (S i) pools).

Lemma same_but_pools_set lb props pools :
  lb_Properties lb = Some props → same_but_pools lb (set_BackendAddressPools lb props pools).
Proof. intros H. unfold same_but_pools; cbn. split_and!; try done. eexists props, _. by split_and!. Qed.

Lemma find_from_spec name pools : ∀ i found j ex,
  (0 ≤ i)%Z →
  find_from name i pools = (found, j, ex) →
  if ex then
    ∃ pool, (i ≤ j)%Z ∧ pools !! Z.to_nat (j - i) = Some pool ∧ found = Some pool ∧
      pool_Name pool = Some name
  else ∀ pool, pool ∈ pools → pool_Name pool ≠ Some name.
Proof.
induction pools as [|apc pools IH]; intros i found j ex Hi; cbn.
- intros [= <- <- <-] pool Hin. by apply elem_of_nil in Hin.
- case_decide as Hn.
  + intros [= <- <- <-]. exists apc. rewrite Z.sub_diag. split_and!; [lia|done..].
  + intros Hf. specialize (IH (i + 1)%Z _ _ _ ltac:(lia) Hf). destruct ex.
    * destruct IH as (pool & Hle & Hl & -> & Hname). exists pool. split_and!; try done; [lia|].
      replace (Z.to_nat (j - i)) with (S (Z.to_nat (j - (i + 1)))) by lia. done.
    * intros pool [->|Hin]%elem_of_cons; auto.
Qed.

Lemma finds_by_name_find_first : finds_by_name find_first.
Proof.
intros lb name found i ex. unfold find_first, pools_of.
destruct (lb_Properties lb) as [props|]; cbn.
- destruct (BackendAddressPools props) as [pools|]; cbn.
  + intros Hf. pose proof (find_from_spec name pools 0 found i ex ltac:(done) Hf) as H.
    destruct ex.
    * destruct H as (pool & ? & Hl & ? & ?). exists pools, pool.
      rewrite Z.sub_0_r in Hl. done.
    * intros ? ? [= <-]. apply H.
  + by intros [= <- <- <-].
- by intros [= <- <- <-].
Qed.

Lemma count_named_app name (l1 l2 : list BackendAddressPool) :
  count_named name (l1 ++ l2) = count_named name l1 + count_named name l2.
Proof. unfold count_named. by rewrite filter_app, length_app. Qed.

Lemma count_named_none name (pools : list BackendAddressPool) :
  (∀ pool, pool ∈ pools → pool_Name pool ≠ Some name) → count_named name pools = 0.
Proof.
intros H. unfold count_named. induction pools as [|p pools IH]; [done|].
rewrite filter_cons_False; [|by apply H; left].
apply IH. intros ? ?. apply H. by right.
Qed.

Lemma count_named_remove name (pools : list BackendAddressPool) i pool :
  pools !! i = Some pool → pool_Name pool = Some name →
  count_named name pools = S (count_named name (take i pools ++ drop (S i) pools)).
Proof.
intros Hl Hn. rewrite <- (take_drop_middle pools i pool Hl) at 1.
rewrite !count_named_app. change (pool :: drop (S i) pools) with ([pool] ++ drop (S i) pools).
rewrite count_named_app. unfold count_named at 2. rewrite filter_cons_True by done. cbn. lia.
Qed.

Lemma remove_at_app {A} i (l : list A) x j :
  l !! Z.to_nat i = Some j → (0 ≤ i)%Z →
  remove_at i (l ++ [x]) = Some ((take (Z.to_nat i) l ++ drop (S (Z.to_nat i)) l) ++ [x]).
Proof.
intros Hl Hi. apply lookup_lt_Some in Hl. unfold remove_at.
rewrite decide_True by (rewrite length_app; cbn; lia).
rewrite take_app_le, drop_app_le by lia. by rewrite app_assoc.
Qed.

(** Why the count of the pools of the name is stated for a retrieved load
    balancer that has at most one pool of the name, as the service returns
    them (the names of the pools of a load balancer are unique): were there
    two, Create would remove the one the helper found and append the new
    pool, whatever helper finds pools by name, and the update would have two
    pools of the name. *)
Lemma create_keeps_second_duplicate :
  ¬ ∃ find, finds_by_name find ∧
      create_leaves_one_pool find example_parse "pool" "/rg/lb"
        (example_lb [example_pool "pool" "/rg/lb/1"; example_pool "pool" "/rg/lb/2"]).
Proof.
intros (find & Hfind & H).
set (lb := example_lb [example_pool "pool" "/rg/lb/1"; example_pool "pool" "/rg/lb/2"]) in *.
destruct (find lb "pool") as [[found i] ex] eqn:Hf.
pose proof (Hfind _ _ _ _ _ Hf) as Hc. destruct ex.
- destruct Hc as (pools & pool & [= <-] & Hi & Hl & -> & Hn).
  assert (i = 0 ∨ i = 1)%Z as Hcase.
  { apply lookup_lt_Some in Hl. cbn in Hl. lia. }
  edestruct (H "rg" "lb") as [_ (pools' & Hp & Hcount)].
  { unfold resourceArmLoadBalancerBackendAddressPoolCreate. cbn. rewrite Hf. cbn.
    rewrite Hn. cbn. destruct Hcase as [-> | ->]; cbn in Hl; simplify_eq; reflexivity. }
  destruct Hcase as [-> | ->]; cbn in Hl; simplify_eq; vm_compute in Hp; simplify_eq;
    vm_compute in Hcount; discriminate.
- eapply (Hc _ (example_pool "pool" "/rg/lb/1")); [done| |done]. apply list_elem_of_here.
Qed.

(** For a load balancer with one pool of the name, Create sends the other
    pools followed by the new pool, and Delete sends the other pools. *)
Lemma create_replaces_pool :
  resourceArmLoadBalancerBackendAddressPoolCreate find_first example_parse "pool" "/rg/lb"
    (Some (example_lb [example_pool "pool" "/rg/lb/1"; example_pool "web" "/rg/lb/2"]),
     true, None)
  = Sends "rg" "lb" (example_lb [example_pool "web" "/rg/lb/2"; mkPool None (Some "pool") None None]).
Proof. reflexivity. Qed.

Lemma delete_removes_pool :
  resourceArmLoadBalancerBackendAddressPoolDelete find_first example_parse "pool" "/rg/lb"
    (Some (example_lb [example_pool "pool" "/rg/lb/1"; example_pool "web" "/rg/lb/2"]),
     true, None)
  = Sends "rg" "lb" (example_lb [example_pool "web" "/rg/lb/2"]).
Proof. reflexivity. Qed.

(** C8. Backend address pool operations frame their parent load balancer.
    With a helper that finds pools by name, for every retrieved load
    balancer: the update Create sends changes only the list of pools, which
    becomes the other pools in their order followed by the new pool of the
    configured name, so that an existing pool of that name is replaced and
    not duplicated; the update Delete sends changes only the list of pools,
    which becomes the pools without the one at the index found; every other
    field of the retrieved load balancer is passed through unchanged; and
    the updates are sent.  For a retrieved load balancer that has at most
    one pool of the configured name, the update Create sends has exactly
    one pool of that name. *)
Theorem backend_address_pool_frames_load_balancer find parse name loadBalancerID lb :
  finds_by_name find →
  create_keeps_other_pools find parse name loadBalancerID lb ∧
  ((∀ pools, pools_of lb = Some pools → (count_named name pools ≤ 1)%nat) →
   create_leaves_one_pool find parse name loadBalancerID lb) ∧
  delete_removes_found_pool find parse name loadBalancerID lb ∧
  (∀ pools resGroup loadBalancerName,
     pools_of lb = Some pools → parse loadBalancerID = inl (resGroup, loadBalancerName) →
     ∃ lb', resourceArmLoadBalancerBackendAddressPoolCreate find parse name loadBalancerID
              (Some lb, true, None) = Sends resGroup loadBalancerName lb') ∧
  (∀ found i resGroup loadBalancerName,
     find lb name = (found, i, true) → parse loadBalancerID = inl (resGroup, loadBalancerName) →
     ∃ lb', resourceArmLoadBalancerBackendAddressPoolDelete find parse name loadBalancerID
              (Some lb, true, None) = Sends resGroup loadBalancerName lb').
Proof.
intros Hfind.
assert (Hcreate : create_keeps_other_pools find parse name loadBalancerID lb).
{ intros rg n lb'. unfold resourceArmLoadBalancerBackendAddressPoolCreate. cbn.
  destruct (lb_Properties lb) as [props|] eqn:Hp; [|done].
  destruct (BackendAddressPools props) as [pools|] eqn:Hb; [|done].
  assert (Hpools : pools_of lb = Some pools) by (unfold pools_of; by rewrite Hp).
  destruct (find lb name) as [[found i] ex] eqn:Hf. specialize (Hfind _ _ _ _ _ Hf).
  destruct ex.
  - destruct Hfind as (pools0 & pool & Hp0 & Hi & Hl & -> & Hn).
    assert (pools0 = pools) as -> by congruence. cbn.
    rewrite Hn. cbn. rewrite decide_True by done.
    rewrite (remove_at_app _ _ _ _ Hl Hi).
    destruct (parse loadBalancerID) as [[rg' n']|e]; [|done]. intros [= <- <- <-].
    split; [by apply same_but_pools_set|]. eexists pools, _. split; [done|].
    split; [done|]. split; [|done]. apply lookup_lt_Some in Hl. lia.
  - cbn. destruct (parse loadBalancerID) as [[rg' n']|e]; [|done]. intros [= <- <- <-].
    split; [by apply same_but_pools_set|]. by eexists pools, _. }
split_and!.
- done.
- intros Hone rg n lb' Hsend. destruct (Hcreate rg n lb' Hsend) as [Hsame Hlist].
  split; [done|]. destruct Hlist as (pools & others & Hpools & Hp' & Hothers).
  eexists. split; [done|]. rewrite count_named_app.
  assert (count_named name others = 0) as ->.
  { destruct (find lb name) as [[found i] ex] eqn:Hf. specialize (Hfind _ _ _ _ _ Hf).
    destruct ex.
    - destruct Hfind as (pools0 & pool & Hp0 & Hi & Hl & -> & Hn).
      assert (pools0 = pools) as -> by congruence.
      destruct Hothers as [_ ->].
      pose proof (count_named_remove name pools _ _ Hl Hn) as Hc.
      specialize (Hone _ Hpools). lia.
    - subst others. apply count_named_none. eauto. }
  unfold count_named. by rewrite filter_cons_True.
- intros rg n lb'. unfold resourceArmLoadBalancerBackendAddressPoolDelete. cbn.
  destruct (find lb name) as [[found i] ex] eqn:Hf. specialize (Hfind _ _ _ _ _ Hf).
  destruct ex; [|done]. cbn.
  destruct Hfind as (pools & pool & Hp0 & Hi & Hl & -> & Hn).
  unfold pools_of in Hp0. destruct (lb_Properties lb) as [props|] eqn:Hp; [|done]. cbn in Hp0.
  rewrite Hp0. unfold remove_at. pose proof (lookup_lt_Some _ _ _ Hl).
  rewrite decide_True by lia.
  destruct (parse loadBalancerID) as [[rg' n']|e]; [|done]. intros [= <- <- <-].
  split; [by apply same_but_pools_set|].
  exists pools, (Some pool), (Z.to_nat i). rewrite Z2Nat.id by done.
  unfold pools_of. rewrite Hp. cbn. done.
- intros pools rg n Hpools Hparse.
  unfold resourceArmLoadBalancerBackendAddressPoolCreate. cbn.
  unfold pools_of in Hpools. destruct (lb_Properties lb) as [props|] eqn:Hp; [|done].
  cbn in Hpools. rewrite Hpools.
  destruct (find lb name) as [[found i] ex] eqn:Hf. specialize (Hfind _ _ _ _ _ Hf).
  destruct ex; cbn.
  + destruct Hfind as (pools0 & pool & Hp0 & Hi & Hl & -> & Hn).
    assert (pools0 = pools) as ->.
    { unfold pools_of in Hp0. rewrite Hp in Hp0. cbn in Hp0. congruence. }
    cbn. rewrite Hn. cbn. rewrite decide_True by done.
    rewrite (remove_at_app _ _ _ _ Hl Hi), Hparse. eauto.
  + rewrite Hparse. eauto.
- intros found i rg n Hf Hparse.
  unfold resourceArmLoadBalancerBackendAddressPoolDelete. cbn. rewrite Hf. cbn.
  destruct (Hfind _ _ _ _ _ Hf) as (pools & pool & Hp0 & Hi & Hl & -> & Hn).
  unfold pools_of in Hp0. destruct (lb_Properties lb) as [props|] eqn:Hp; [|done]. cbn in Hp0.
  rewrite Hp0. unfold remove_at. pose proof (lookup_lt_Some _ _ _ Hl).
  rewrite decide_True by lia. rewrite Hparse. eauto.
Qed.

Lemma backend_address_pool_frames_witness :
  create_keeps_other_pools find_first example_parse "pool" "/rg/lb"
    (example_lb [example_pool "pool" "/rg/lb/1"; example_pool "web" "/rg/lb/2"]) ∧
  create_leaves_one_pool find_first example_parse "pool" "/rg/lb"
    (example_lb [example_pool "pool" "/rg/lb/1"; example_pool "web" "/rg/lb/2"]) ∧
  delete_removes_found_pool find_first example_parse "pool" "/rg/lb"
    (example_lb [example_pool "pool" "/rg/lb/1"; example_pool "web" "/rg/lb/2"]).
Proof.
refine
  (let H := backend_address_pool_frames_load_balancer find_first example_parse "pool" "/rg/lb"
              (example_lb [example_pool "pool" "/rg/lb/1"; example_pool "web" "/rg/lb/2"])
              finds_by_name_find_first in
   conj (proj1 H) (conj (proj1 (proj2 H) _) (proj1 (proj2 (proj2 H))))).
intros pools [= <-]. vm_compute. lia.
Defined.

End LoadBalancer.

(** ** Go's encoding/base64, [base64.StdEncoding] *)

Module Base64.

(** [encodeStd], the alphabet of the standard encoding. *)
Definition encodeStd : string :=
  "ABCDEFGHIJKLMNOPQRSTUVWXYZabcdefghijklmnopqrstuvwxyz0123456789+/".

(** [StdPadding] *)
Definition padChar : ascii := "="%char.

(** [enc.encode[i]], for [i] below 64. *)
Definition encode (i : N) : ascii :=
  nth (N.to_nat i) (list_ascii_of_string encodeStd) "A"%char.

Fixpoint index_of (c : ascii) (l : list ascii) (i : N) : option N :=
  match l with
  | [] => None
  | c' :: l' => if decide (c = c') then Some i else index_of c l' (i + 1)%N
  end.

(** [enc.decodeMap[in]]; [None] stands for the 0xff of a byte that is not in
    the alphabet. *)
Definition decodeMap (c : ascii) : option N :=
  index_of c (list_ascii_of_string encodeStd) 0.

(** [uint(b)] of a byte of a string. *)
Definition byte (c : ascii) : N := N_of_ascii c.

(** [func (enc *Encoding) EncodeToString(src []byte) string], which is
    [Encode]: three bytes give four characters, and the one or two bytes
    that remain give two or three characters and padding. *)
Fixpoint EncodeToString (src : string) : string :=
  match src with
  | String s0 (String s1 (String s2 rest)) =>
      let val := N.lor (N.lor (N.shiftl (byte s0) 16) (N.shiftl (byte s1) 8)) (byte s2) in
      String (encode (N.land (N.shiftr val 18) 63))
        (String (encode (N.land (N.shiftr val 12) 63))
           (String (encode (N.land (N.shiftr val 6) 63))
              (String (encode (N.land val 63)) (EncodeToString rest))))
  | String s0 (String s1 EmptyString) =>
      let val := N.lor (N.shiftl (byte s0) 16) (N.shiftl (byte s1) 8) in
      String (encode (N.land (N.shiftr val 18) 63))
        (String (encode (N.land (N.shiftr val 12) 63))
           (String (encode (N.land (N.shiftr val 6) 63)) (String padChar EmptyString)))
  | String s0 EmptyString =>
      let val := N.shiftl (byte s0) 16 in
      String (encode (N.land (N.shiftr val 18) 63))
        (String (encode (N.land (N.shiftr val 12) 63))
           (String padChar (String padChar EmptyString)))
  | EmptyString => EmptyString
  end.

Definition is_newline (c : ascii) : bool :=
  bool_decide (c = "010"%char) || bool_decide (c = "013"%char).

(** [for si < len(src) && (src[si] == '\n' || src[si] == '\r') { si++ }] *)
Fixpoint skip_newlines (src : string) : string :=
  match src with
  | String c rest => if is_newline c then skip_newlines rest else src
  | EmptyString => EmptyString
  end.

(** The end of [decodeQuantum]: the [dlen - 1] bytes of the sextets in
    [dbuf], which are not checked for bits that do not belong to a byte
    ([enc.strict] is false). *)
Definition quantum (d0 d1 d2 d3 : N) (dlen : nat) : list ascii :=
  let val := N.lor (N.lor (N.lor (N.shiftl d0 18) (N.shiftl d1 12)) (N.shiftl d2 6)) d3 in
  take (dlen - 1)
    [ascii_of_N (N.land (N.shiftr val 16) 255);
     ascii_of_N (N.land (N.shiftr val 8) 255);
     ascii_of_N (N.land val 255)].

(** [func (enc *Encoding) Decode], the loop of [decodeQuantum]: [dbuf] holds
    the sextets of the quantum read so far and [src] is the input from [si]
    on.  [None] is a [CorruptInputError]. *)
Fixpoint decode (dbuf : list N) (src : string) : option (list ascii) :=
  match src with
  | EmptyString =>
      match dbuf with
      | [] => Some []
      | _ => None
      end
  | String c rest =>
      match decodeMap c with
      | Some out =>
          match dbuf with
          | [d0; d1; d2] => dst ← decode [] rest; Some (quantum d0 d1 d2 out 4 ++ dst)
          | _ => decode (dbuf ++ [out]) rest
          end
      | None =>
          if is_newline c then decode dbuf rest
          else if negb (bool_decide (c = padChar)) then None
          else
            match dbuf with
            | [d0; d1] =>
                match skip_newlines rest with
                | String c' rest' =>
                    if negb (bool_decide (c' = padChar)) then None
                    else
                      match skip_newlines rest' with
                      | EmptyString => Some (quantum d0 d1 0 0 2)
                      | _ => None
                      end
                | EmptyString => None
                end
            | [d0; d1; d2] =>
                match skip_newlines rest with
                | EmptyString => Some (quantum d0 d1 d2 0 3)
                | _ => None
                end
            | _ => None
            end
      end
  end.

(** [func (enc *Encoding) DecodeString(s string) ([]byte, error)] *)
Definition DecodeString (s : string) : option string :=
  string_of_list_ascii <$> decode [] s.

(** The 24 bits of three bytes, as [Encode] joins them. *)
Definition val3 (a b c : N) : N := N.lor (N.lor (N.shiftl a 16) (N.shiftl b 8)) c.

Lemma land_63_lt n : (N.land n 63 < 64)%N.
Proof.
change 63%N with (N.ones 6). rewrite N.land_ones. by apply N.mod_lt.
Qed.

Lemma decodeMap_encode i : (i < 64)%N → decodeMap (encode i) = Some i.
Proof.
intros Hi.
assert (forallb (λ n, bool_decide (decodeMap (encode (N.of_nat n)) = Some (N.of_nat n)))
          (seq 0 64) = true) as Hall by by vm_compute.
rewrite forallb_forall in Hall. specialize (Hall (N.to_nat i)).
rewrite N2Nat.id, bool_decide_eq_true in Hall. apply Hall.
apply in_seq. lia.
Qed.

Lemma decodeMap_padChar : decodeMap padChar = None.
Proof. by vm_compute. Qed.

Lemma decode_sextet dbuf i rest :
  (i < 64)%N →
  decode dbuf (String (encode i) rest) =
  match dbuf with
  | [d0; d1; d2] => dst ← decode [] rest; Some (quantum d0 d1 d2 i 4 ++ dst)
  | _ => decode (dbuf ++ [i]) rest
  end.
Proof. intros Hi. cbn [decode]. by rewrite decodeMap_encode. Qed.

Lemma string_ind3 (P : string → Prop) :
  P "" → (∀ a, P (String a "")) → (∀ a b, P (String a (String b ""))) →
  (∀ a b c s, P s → P (String a (String b (String c s)))) →
  ∀ s, P s.
Proof.
intros H0 H1 H2 H3 s.
assert (P s ∧ (∀ a, P (String a s)) ∧ (∀ a b, P (String a (String b s)))) as [? _];
  [|done].
induction s as [|c s (IH0 & IH1 & IH2)]; [done|].
split_and!; [done|done|]. intros a b. by apply H3.
Qed.

Lemma testbit_below v k n : (v < 2 ^ k)%N → (k ≤ n)%N → N.testbit v n = false.
Proof.
intros Hv Hn. destruct (decide (v = 0%N)) as [->|Hz]; [apply N.bits_0|].
apply N.bits_above_log2. apply N.lt_le_trans with k; [|done].
apply N.log2_lt_pow2; lia.
Qed.

Lemma testbit_sextet v k n :
  N.testbit (N.shiftl (N.land (N.shiftr v k) 63) k) n
  = N.testbit v n && (k <=? n)%N && (n <? k + 6)%N.
Proof.
destruct (N.leb_spec k n) as [Hk|Hk].
- rewrite N.shiftl_spec_high' by done. rewrite N.land_spec, N.shiftr_spec'.
  replace (n - k + k)%N with n by lia.
  change 63%N with (N.ones 6). rewrite andb_true_r. f_equal.
  destruct (N.ltb_spec n (k + 6)) as [H6|H6].
  + apply N.ones_spec_low. lia.
  + apply N.ones_spec_high. lia.
- rewrite N.shiftl_spec_low by done. by rewrite andb_false_r.
Qed.

Lemma sextets_join v :
  (∀ n, (24 ≤ n)%N → N.testbit v n = false) →
  N.lor (N.lor (N.lor (N.shiftl (N.land (N.shiftr v 18) 63) 18)
                      (N.shiftl (N.land (N.shiftr v 12) 63) 12))
               (N.shiftl (N.land (N.shiftr v 6) 63) 6))
        (N.land v 63) = v.
Proof.
intros Hv. apply N.bits_inj. intros n.
rewrite !N.lor_spec, !testbit_sextet.
replace (N.land v 63) with (N.shiftl (N.land (N.shiftr v 0) 63) 0) by by rewrite N.shiftl_0_r, N.shiftr_0_r.
rewrite testbit_sextet.
destruct (N.testbit v n) eqn:Hb; cbn [andb orb]; [|done].
assert (n < 24)%N.
{ destruct (N.lt_ge_cases n 24) as [|Hge]; [done|]. rewrite Hv in Hb; done. }
destruct (N.leb_spec 18 n), (N.ltb_spec n (18 + 6)), (N.leb_spec 12 n), (N.ltb_spec n (12 + 6)),
  (N.leb_spec 6 n), (N.ltb_spec n (6 + 6)), (N.leb_spec 0 n), (N.ltb_spec n (0 + 6)); cbn; try done; lia.
Qed.

Lemma testbit_shiftl x k n :
  N.testbit (N.shiftl x k) n = (k <=? n)%N && N.testbit x (n - k).
Proof.
destruct (N.leb_spec k n).
- by rewrite N.shiftl_spec_high'.
- by rewrite N.shiftl_spec_low.
Qed.

Lemma testbit_val3 a b c n :
  N.testbit (val3 a b c) n
  = (16 <=? n)%N && N.testbit a (n - 16) || (8 <=? n)%N && N.testbit b (n - 8) || N.testbit c n.
Proof. unfold val3. by rewrite !N.lor_spec, !testbit_shiftl. Qed.

Lemma testbit_land_255 v k n :
  N.testbit (N.land (N.shiftr v k) 255) n = N.testbit v (n + k) && (n <? 8)%N.
Proof.
rewrite N.land_spec, N.shiftr_spec'. f_equal. change 255%N with (N.ones 8).
destruct (N.ltb_spec n 8).
- by apply N.ones_spec_low.
- by apply N.ones_spec_high.
Qed.

Lemma val3_bytes a b c :
  (a < 256)%N → (b < 256)%N → (c < 256)%N →
  N.land (N.shiftr (val3 a b c) 16) 255 = a ∧
  N.land (N.shiftr (val3 a b c) 8) 255 = b ∧
  N.land (val3 a b c) 255 = c ∧
  (∀ n, (24 ≤ n)%N → N.testbit (val3 a b c) n = false).
Proof.
intros Ha Hb Hc.
assert (∀ x n, (x < 256)%N → (8 ≤ n)%N → N.testbit x n = false) as Hhigh.
{ intros x n Hx Hn. by apply (testbit_below x 8 n). }
split_and!.
- apply N.bits_inj. intros n. rewrite testbit_land_255, testbit_val3.
  replace (n + 16 - 16)%N with n by lia.
  rewrite (Hhigh b (n + 16 - 8)%N), (Hhigh c (n + 16)%N) by (done || lia).
  replace (16 <=? n + 16)%N with true by (symmetry; apply N.leb_le; lia).
  rewrite !andb_false_r, !orb_false_r. cbn [andb].
  destruct (N.ltb_spec n 8); [by rewrite andb_true_r|].
  by rewrite Hhigh.
- apply N.bits_inj. intros n. rewrite testbit_land_255, testbit_val3.
  replace (n + 8 - 8)%N with n by lia.
  rewrite (Hhigh c (n + 8)%N) by (done || lia).
  replace (8 <=? n + 8)%N with true by (symmetry; apply N.leb_le; lia).
  rewrite orb_false_r. cbn [andb].
  destruct (N.ltb_spec n 8) as [H8|H8].
  + replace (16 <=? n + 8)%N with false by (symmetry; apply N.leb_gt; lia).
    by rewrite andb_true_r.
  + rewrite andb_false_r. symmetry. by apply Hhigh.
- replace (val3 a b c) with (N.shiftr (val3 a b c) 0) at 1 by apply N.shiftr_0_r.
  apply N.bits_inj. intros n. rewrite testbit_land_255, testbit_val3, N.add_0_r.
  destruct (N.ltb_spec n 8) as [H8|H8].
  + replace (16 <=? n)%N with false by (symmetry; apply N.leb_gt; lia).
    replace (8 <=? n)%N with false by (symmetry; apply N.leb_gt; lia).
    by rewrite andb_true_r.
  + rewrite (Hhigh c n) by done. by rewrite andb_false_r.
- intros n Hn. rewrite testbit_val3.
  rewrite (Hhigh a (n - 16)%N), (Hhigh b (n - 8)%N), (Hhigh c n) by (done || lia).
  by rewrite !andb_false_r.
Qed.

Lemma testbit_land_63 v k n :
  N.testbit (N.land (N.shiftr v k) 63) n = N.testbit v (n + k) && (n <? 6)%N.
Proof.
rewrite N.land_spec, N.shiftr_spec'. f_equal. change 63%N with (N.ones 6).
destruct (N.ltb_spec n 6).
- by apply N.ones_spec_low.
- by apply N.ones_spec_high.
Qed.

Lemma val3_low_sextet a b : N.land (val3 a b 0) 63 = 0%N.
Proof.
replace (val3 a b 0) with (N.shiftr (val3 a b 0) 0) by apply N.shiftr_0_r.
apply N.bits_inj. intros n. rewrite testbit_land_63, testbit_val3, N.add_0_r, !N.bits_0.
destruct (N.ltb_spec n 6); [|by rewrite andb_false_r].
replace (16 <=? n)%N with false by (symmetry; apply N.leb_gt; lia).
by replace (8 <=? n)%N with false by (symmetry; apply N.leb_gt; lia).
Qed.

Lemma val3_second_sextet a : N.land (N.shiftr (val3 a 0 0) 6) 63 = 0%N.
Proof.
apply N.bits_inj. intros n. rewrite testbit_land_63, testbit_val3, !N.bits_0.
destruct (N.ltb_spec n 6); [|by rewrite andb_false_r].
replace (16 <=? n + 6)%N with false by (symmetry; apply N.leb_gt; lia).
by rewrite andb_false_r.
Qed.

(** The bytes of a quantum are the bytes its sextets were made of. *)
Lemma quantum_val3 a b c :
  let v := val3 (byte a) (byte b) (byte c) in
  quantum (N.land (N.shiftr v 18) 63) (N.land (N.shiftr v 12) 63) (N.land (N.shiftr v 6) 63)
    (N.land v 63) 4 = [a; b; c].
Proof.
intros v. unfold quantum.
destruct (val3_bytes (byte a) (byte b) (byte c)) as (Ha & Hb & Hc & Hv);
  [apply N_ascii_bounded..|].
rewrite sextets_join by done. fold v in Ha, Hb, Hc. rewrite Ha, Hb, Hc.
unfold byte. by rewrite !ascii_N_embedding.
Qed.

Lemma quantum_val3_two a b :
  let v := val3 (byte a) (byte b) 0 in
  quantum (N.land (N.shiftr v 18) 63) (N.land (N.shiftr v 12) 63)
    (N.land (N.shiftr v 6) 63) 0 3 = [a; b].
Proof.
intros v.
transitivity (take 2 (quantum (N.land (N.shiftr v 18) 63) (N.land (N.shiftr v 12) 63)
                        (N.land (N.shiftr v 6) 63) (N.land v 63) 4)).
- unfold v. by rewrite val3_low_sextet.
- pose proof (quantum_val3 a b "000"%char) as H. cbn zeta in H.
  change (byte "000") with 0%N in H. unfold v. by rewrite H.
Qed.

Lemma quantum_val3_one a :
  let v := val3 (byte a) 0 0 in
  quantum (N.land (N.shiftr v 18) 63) (N.land (N.shiftr v 12) 63) 0 0 2 = [a].
Proof.
intros v.
transitivity (take 1 (quantum (N.land (N.shiftr v 18) 63) (N.land (N.shiftr v 12) 63)
                        (N.land (N.shiftr v 6) 63) (N.land v 63) 4)).
- unfold v. by rewrite val3_low_sextet, val3_second_sextet.
- pose proof (quantum_val3 a "000"%char "000"%char) as H. cbn zeta in H.
  change (byte "000") with 0%N in H. unfold v. by rewrite H.
Qed.

(** [DecodeString] gives back what [EncodeToString] was given. *)
Lemma decode_EncodeToString src :
  decode [] (EncodeToString src) = Some (list_ascii_of_string src).
Proof.
induction src as [|a|a b|a b c src IH] using string_ind3.
- done.
- cbn [EncodeToString].
  replace (N.shiftl (byte a) 16) with (val3 (byte a) 0 0)
    by (unfold val3; by rewrite N.shiftl_0_l, !N.lor_0_r).
  rewrite !decode_sextet by apply land_63_lt. cbn [app].
  cbn [decode]. rewrite decodeMap_padChar. cbn.
  f_equal. apply (quantum_val3_one a).
- cbn [EncodeToString].
  replace (N.lor (N.shiftl (byte a) 16) (N.shiftl (byte b) 8)) with (val3 (byte a) (byte b) 0)
    by (unfold val3; by rewrite N.lor_0_r).
  rewrite !decode_sextet by apply land_63_lt. cbn [app].
  cbn [decode]. rewrite decodeMap_padChar. cbn.
  f_equal. apply (quantum_val3_two a b).
- cbn [EncodeToString].
  change (N.lor (N.lor (N.shiftl (byte a) 16) (N.shiftl (byte b) 8)) (byte c))
    with (val3 (byte a) (byte b) (byte c)).
  rewrite !decode_sextet by apply land_63_lt. cbn [app].
  rewrite IH. cbn [mbind option_bind]. f_equal.
  change (list_ascii_of_string (String a (String b (String c src))))
    with ([a; b; c] ++ list_ascii_of_string src).
  f_equal. apply quantum_val3.
Qed.

Lemma DecodeString_EncodeToString src : DecodeString (EncodeToString src) = Some src.
Proof.
unfold DecodeString. rewrite decode_EncodeToString. cbn.
by rewrite string_of_list_ascii_of_string.
Qed.

End Base64.

(** ** base64Encode (src/azurestack/data_source_virtual_network.go, lines 358-373) *)

Module Provider.
Import Base64.

(** [func isBase64Encoded(data string) bool] *)
Definition isBase64Encoded (data : string) : bool :=
  match DecodeString data with
  | Some _ => true
  | None => false
  end.

(** [func base64Encode(data string) string] *)
Definition base64Encode (data : string) : string :=
  if isBase64Encoded data then data else EncodeToString data.

Lemma isBase64Encoded_EncodeToString data : isBase64Encoded (EncodeToString data) = true.
Proof.
unfold isBase64Encoded, DecodeString.
by rewrite decode_EncodeToString.
Qed.

Lemma base64Encode_encoded data decoded :
  DecodeString data = Some decoded → base64Encode data = data.
Proof. intros H. unfold base64Encode, isBase64Encoded. by rewrite H. Qed.

Lemma base64Encode_not_encoded data :
  DecodeString data = None → base64Encode data = EncodeToString data.
Proof. intros H. unfold base64Encode, isBase64Encoded. by rewrite H. Qed.

(** C9. base64Encode is idempotent: for every string,
    base64Encode(base64Encode(s)) = base64Encode(s); an input that decodes
    as standard base64 is returned unchanged, and any other input is
    returned as its standard base64 encoding. *)
Theorem base64Encode_idempotent data :
  base64Encode (base64Encode data) = base64Encode data ∧
  (is_Some (DecodeString data) → base64Encode data = data) ∧
  (DecodeString data = None → base64Encode data = EncodeToString data).
Proof.
split_and!.
- destruct (DecodeString data) as [decoded|] eqn:Hd.
  + by rewrite !(base64Encode_encoded data decoded).
  + rewrite (base64Encode_not_encoded data Hd).
    unfold base64Encode. by rewrite isBase64Encoded_EncodeToString.
- intros [decoded Hd]. by eapply base64Encode_encoded.
- apply base64Encode_not_encoded.
Qed.

Lemma base64Encode_idempotent_witness :
  base64Encode "aGVsbG8=" = "aGVsbG8=" ∧ base64Encode "hello" = "aGVsbG8=".
Proof.
split.
- apply (proj1 (proj2 (base64Encode_idempotent "aGVsbG8="))). by eexists.
- apply (proj2 (proj2 (base64Encode_idempotent "hello"))). by vm_compute.
Defined.

Example DecodeString_skips_newlines :
  DecodeString (String "Y" (String "Q" (String "=" (String "010" (String "=" ""))))) = Some "a".
Proof. reflexivity. Qed.

Example DecodeString_needs_padding : DecodeString "aGVsbG8" = None.
Proof. reflexivity. Qed.

End Provider.

(** ** The registry of named mutexes, used sequentially

    [src/azurestack/data_source_virtual_network.go], lines 380-423. *)

Module MutexKVFacts.
Import MutexKV.

(** The key of a call. *)
Definition op_key (o : op) : string :=
  match o with
  | OpLock key | OpUnlock key | OpGet key => key
  end.

(** The mutex [get] returns for the key is not locked. *)
Definition unlocked (key : string) (m : t) : Prop :=
  heap (get key m).2 !! (get key m).1 = Some false.

Lemma get_census key m :
  length (heap m) = size (store m) →
  length (heap (get key m).2) = size (store (get key m).2) ∧
  dom (store (get key m).2) = {[key]} ∪ dom (store m).
Proof.
intros Hc. unfold get. destruct (store m !! key) as [mu|] eqn:Hs; cbn.
- split; [done|]. apply set_eq. intros k. rewrite elem_of_union, elem_of_singleton, !elem_of_dom.
  split; [by right|]. intros [->|?]; [by rewrite Hs|done].
- rewrite length_app, map_size_insert_None by done. cbn. split; [lia|].
  apply dom_insert_L.
Qed.

Lemma apply_census o m m' :
  apply o m = Some m' →
  length (heap m) = size (store m) →
  length (heap m') = size (store m') ∧ dom (store m') = {[op_key o]} ∪ dom (store m).
Proof.
intros Ha Hc. destruct (get_census (op_key o) m Hc) as [Hl Hd].
destruct o as [key|key|key]; cbn in *.
- destruct (get key m) as [mu m1]; cbn in *.
  destruct (heap m1 !! mu) as [[]|]; simplify_eq. cbn. by rewrite length_insert.
- destruct (get key m) as [mu m1]; cbn in *.
  destruct (heap m1 !! mu) as [[]|]; simplify_eq. cbn. by rewrite length_insert.
- by simplify_eq.
Qed.

Lemma run_census ops : ∀ m m',
  run ops m = Some m' →
  length (heap m) = size (store m) →
  length (heap m') = size (store m') ∧
  dom (store m') = list_to_set (op_key <$> ops) ∪ dom (store m).
Proof.
induction ops as [|o ops IH]; intros m m'; cbn.
- intros [= <-] Hc. split; [done|]. by rewrite (left_id_L ∅ (∪)).
- destruct (apply o m) as [m1|] eqn:Ha; [|done]. intros Hr Hc.
  destruct (apply_census _ _ _ Ha Hc) as [Hc1 Hd1].
  destruct (IH _ _ Hr Hc1) as [Hc' Hd']. split; [done|].
  rewrite Hd', Hd1. rewrite (assoc_L (∪)). f_equal. apply (comm_L (∪)).
Qed.

(** X1. The registry keeps one mutex for every key it was ever asked for, and
    no other: after any calls on a new registry the keys of the store are
    the keys of the calls, and as many mutexes were allocated as there are
    keys.  Nothing is ever removed. *)
Theorem one_mutex_per_key_ever_seen ops m :
  run ops NewMutexKV = Some m →
  dom (store m) = list_to_set (op_key <$> ops) ∧ length (heap m) = size (store m).
Proof.
intros Hr. destruct (run_census ops _ _ Hr) as [Hc Hd]; [done|].
split; [|done]. rewrite Hd. cbn. by rewrite dom_empty_L, (right_id_L ∅ (∪)).
Qed.

Lemma one_mutex_per_key_witness :
  dom (store (mk false {["lb1" := 0; "lb2" := 1]} [false; true]))
  = list_to_set (op_key <$> [OpLock "lb1"; OpLock "lb2"; OpUnlock "lb1"]) ∧
  length (heap (mk false {["lb1" := 0; "lb2" := 1]} [false; true]))
  = size (store (mk false {["lb1" := 0; "lb2" := 1]} [false; true])).
Proof.
apply (one_mutex_per_key_ever_seen [OpLock "lb1"; OpLock "lb2"; OpUnlock "lb1"]).
by vm_compute.
Defined.

(** X2. Lock and Unlock of a key whose mutex is free return and leave every
    mutex as it was, the key registered; a second Lock without an Unlock
    never returns, and an Unlock without a Lock is fatal. *)
Theorem lock_unlock_restores key m :
  unlocked key m →
  run [OpLock key; OpUnlock key] m = Some (get key m).2 ∧
  run [OpLock key; OpLock key] m = None ∧
  run [OpUnlock key] m = None.
Proof.
intros Hfree. unfold unlocked in Hfree.
pose proof (get_lookup key m) as Hl.
destruct (get key m) as [mu m1] eqn:Hg. cbn in *.
assert (Hlt : mu < length (heap m1)) by by eapply lookup_lt_Some.
assert (Hg1 : ∀ h, get key (mk (lock m1) (store m1) h) = (mu, mk (lock m1) (store m1) h)).
{ intros h. by apply get_stored. }
split_and!.
- rewrite Hg, Hfree. cbn. rewrite Hg1. cbn. rewrite list_lookup_insert_eq by done.
  rewrite list_insert_insert_eq, list_insert_id by done. by destruct m1.
- rewrite Hg, Hfree. cbn. rewrite Hg1. cbn. by rewrite list_lookup_insert_eq.
- by rewrite Hg, Hfree.
Qed.

Lemma lock_unlock_restores_witness :
  run [OpLock "lb1"; OpUnlock "lb1"] NewMutexKV = Some (get "lb1" NewMutexKV).2 ∧
  run [OpLock "lb1"; OpLock "lb1"] NewMutexKV = None ∧
  run [OpUnlock "lb1"] NewMutexKV = None.
Proof.
apply lock_unlock_restores. by vm_compute.
Defined.

End MutexKVFacts.

(** ** The registry of named mutexes, used by concurrent goroutines

    [src/azurestack/data_source_virtual_network.go], lines 380-423. *)

Module Goroutines.
Import MutexKV.

(** The goroutine has run all its operations. *)
Definition finished (g : goroutine) : Prop := at_pc g = Idle ∧ todo g = [].

(** What holds of every reachable world besides [inv]: no goroutine died,
    the registry's lock is taken only while a goroutine is inside [get], and
    a locked mutex belongs to an operation that has not unlocked it yet. *)
Record alive (w : world) : Prop := Alive {
  alive_inv : inv w;
  alive_fatal : ∀ i g, w.2 !! i = Some g → at_pc g ≠ Fatal;
  alive_lock : lock w.1 = true → ∃ i g, w.2 !! i = Some g ∧ holds (at_pc g) = true;
  alive_owned : ∀ key mu, store w.1 !! key = Some mu → heap w.1 !! mu = Some true →
      ∃ i g, w.2 !! i = Some g ∧ owns (at_pc g) = Some key
}.

Lemma lookup_update {A} (l : list A) i j x y :
  l !! i = Some x →
  <[i := y]> l !! j = if decide (j = i) then Some y else l !! j.
Proof.
intros Hi. case_decide as Hj.
- subst. apply list_lookup_insert_eq. by eapply lookup_lt_Some.
- by apply list_lookup_insert_ne.
Qed.

(** A goroutine other than [i], or [i] itself when its step keeps what it
    owns, still owns the key after the step. *)
Lemma owner_kept (ts : list goroutine) i g g' key :
  ts !! i = Some g →
  owns (at_pc g') = owns (at_pc g) →
  (∃ j gj, ts !! j = Some gj ∧ owns (at_pc gj) = Some key) →
  ∃ j gj, <[i := g']> ts !! j = Some gj ∧ owns (at_pc gj) = Some key.
Proof.
intros Hi Ho (j & gj & Hj & Hk). destruct (decide (j = i)) as [->|Hne].
- exists i, g'. rewrite (lookup_update _ _ _ _ _ Hi), decide_True by done.
  split; [done|]. simplify_eq. congruence.
- exists j, gj. rewrite (lookup_update _ _ _ _ _ Hi), decide_False by done. done.
Qed.

Lemma holder_kept (ts : list goroutine) i g g' :
  ts !! i = Some g →
  (holds (at_pc g) = true → holds (at_pc g') = true) →
  (∃ j gj, ts !! j = Some gj ∧ holds (at_pc gj) = true) →
  ∃ j gj, <[i := g']> ts !! j = Some gj ∧ holds (at_pc gj) = true.
Proof.
intros Hi Ho (j & gj & Hj & Hk). destruct (decide (j = i)) as [->|Hne].
- exists i, g'. rewrite (lookup_update _ _ _ _ _ Hi), decide_True by done.
  split; [done|]. simplify_eq. auto.
- exists j, gj. rewrite (lookup_update _ _ _ _ _ Hi), decide_False by done. done.
Qed.

Lemma next_alive m ts i g g' m' :
  alive (m, ts) → ts !! i = Some g → next g m = Some (g', m') → alive (m', <[i := g']> ts).
Proof.
intros [Hinv Hfatal Hlock Howned] Hi Hn.
pose proof (next_inv _ _ _ _ _ _ Hinv Hi Hn) as Hinv'.
assert (Hpc : at_pc g ≠ Fatal) by eauto.
cbn in *.
assert (Hnew : ∀ j gj, <[i := g']> ts !! j = Some gj → (j = i ∧ gj = g') ∨ (j ≠ i ∧ ts !! j = Some gj)).
{ intros j gj. rewrite (lookup_update _ _ _ _ _ Hi). case_decide; [intros [= <-]; by left|by right]. }
assert (Hme : <[i := g']> ts !! i = Some g').
{ by rewrite (lookup_update _ _ _ _ _ Hi), decide_True. }
destruct g as [p td];
  destruct p as [|c key|c key|c key|c key mu|key mu|key|key mu|]; cbn in Hn; [..|done].
- (* Idle *)
  destruct td as [|key td]; simplify_eq. split; [done|..]; cbn.
  + intros j gj [[-> ->]|[? ?]]%Hnew; [done|eauto].
  + intros Hl. eapply holder_kept; [done| |by eauto]. done.
  + intros k mu Hk Hh. eapply owner_kept; [done| |by eauto]. done.
- (* GetEnter *)
  destruct (lock m) eqn:Hl; simplify_eq. split; [done|..]; cbn.
  + intros j gj [[-> ->]|[? ?]]%Hnew; [done|eauto].
  + intros _. by exists i, (Go (GetLookup c key) td).
  + intros k mu Hk Hh. eapply owner_kept; [done| |by eauto]. by destruct c.
- (* GetLookup *)
  destruct (store m !! key) as [mu|] eqn:Hs; simplify_eq; (split; [done|..]); cbn.
  + intros j gj [[-> ->]|[? ?]]%Hnew; [done|eauto].
  + intros _. by eexists i, _.
  + intros k mu' Hk Hh. eapply owner_kept; [done| |by eauto]. by destruct c.
  + intros j gj [[-> ->]|[? ?]]%Hnew; [done|eauto].
  + intros _. by eexists i, _.
  + intros k mu' Hk Hh. eapply owner_kept; [done| |by eauto]. by destruct c.
- (* GetAlloc *)
  simplify_eq. split; [done|..]; cbn.
  + intros j gj [[-> ->]|[? ?]]%Hnew; [done|eauto].
  + intros _. by eexists i, _.
  + intros k mu. rewrite lookup_insert. case_decide as Hk.
    * intros [= <-]. by rewrite lookup_app_r, Nat.sub_diag.
    * intros Hs Hh. eapply owner_kept; [done|by destruct c|].
      apply (Howned k mu Hs). apply lookup_app_Some in Hh as [?|[? Hh]]; [done|].
      apply list_lookup_singleton_Some in Hh as [_ ?]. done.
- (* GetReturn *)
  simplify_eq. split; [done|..]; cbn.
  + intros j gj [[-> ->]|[? ?]]%Hnew; [by destruct c|eauto].
  + done.
  + intros k mu' Hk Hh. eapply owner_kept; [done| |by eauto]. by destruct c.
- (* MutexLock *)
  destruct (heap m !! mu) as [[]|] eqn:Hmu; simplify_eq. split; [done|..]; cbn.
  + intros j gj [[-> ->]|[? ?]]%Hnew; [done|eauto].
  + intros Hl. eapply holder_kept; [done| |by eauto]. done.
  + intros k mu' Hk Hh.
    pose proof (inv_carries _ Hinv i _ key mu Hi eq_refl) as Hc. cbn in Hc.
    destruct (decide (mu' = mu)) as [->|Hne].
    * exists i, (Go (Critical key) td). split; [done|]. cbn. f_equal.
      by eapply (proj2 (inv_wf _ Hinv)).
    * rewrite list_lookup_insert_ne in Hh by done.
      destruct (Howned k mu' Hk Hh) as (j & gj & Hj & Ho).
      exists j, gj. split; [|done]. rewrite (lookup_update _ _ _ _ _ Hi).
      case_decide; [|done]. by simplify_eq.
- (* Critical *)
  simplify_eq. split; [done|..]; cbn.
  + intros j gj [[-> ->]|[? ?]]%Hnew; [done|eauto].
  + intros Hl. eapply holder_kept; [done| |by eauto]. done.
  + intros k mu Hk Hh. eapply owner_kept; [done| |by eauto]. done.
- (* MutexUnlock *)
  pose proof (inv_carries _ Hinv i _ key mu Hi eq_refl) as Hc. cbn in Hc.
  destruct (inv_locked _ Hinv i _ key Hi eq_refl) as (mu0 & Hk0 & Hh0). cbn in Hk0, Hh0.
  assert (mu0 = mu) as -> by congruence. rewrite Hh0 in Hn. simplify_eq.
  split; [done|..]; cbn.
  + intros j gj [[-> ->]|[? ?]]%Hnew; [done|eauto].
  + intros Hl. eapply holder_kept; [done| |by eauto]. done.
  + intros k mu' Hk Hh.
    destruct (decide (mu' = mu)) as [->|Hne].
    * rewrite list_lookup_insert_eq in Hh by by eapply lookup_lt_Some. done.
    * rewrite list_lookup_insert_ne in Hh by done.
      destruct (Howned k mu' Hk Hh) as (j & gj & Hj & Ho).
      exists j, gj. split; [|done]. rewrite (lookup_update _ _ _ _ _ Hi).
      case_decide; [|done]. simplify_eq. cbn in Ho. by simplify_eq.
Qed.

Lemma alive_start keys : alive (start keys).
Proof.
split; [apply inv_start|..]; cbn.
- intros i g. rewrite list_lookup_fmap. intros; simplify_option_eq. done.
- done.
- intros key mu. by rewrite lookup_empty.
Qed.

Lemma step_alive w w' : alive w → step w w' → alive w'.
Proof.
intros Ha [i Hs]. unfold step_of in Hs. destruct w as [m ts]; cbn in Hs.
destruct (ts !! i) as [g|] eqn:Hi; [|done].
destruct (next g m) as [[g' m']|] eqn:Hn; simplify_eq.
by eapply next_alive.
Qed.

Lemma reachable_alive keys w : reachable keys w → alive w.
Proof.
revert w. apply rtc_ind_r; [apply alive_start|]. intros ? ? _ ? ?. by eapply step_alive.
Qed.

#[local] Instance finished_dec g : Decision (finished g).
Proof.
destruct g as [[] []]; first (left; by split); right; intros [? ?]; cbn in *; congruence.
Defined.

(** A goroutine that holds the registry's lock, or that owns a mutex, can
    take its next step. *)
Lemma holder_moves g m : holds (at_pc g) = true → is_Some (next g m).
Proof. destruct g as [[] td]; cbn; try done; intros _; by destruct (store m !! _). Qed.

Lemma owner_moves g m key :
  lock m = false → owns (at_pc g) = Some key → is_Some (next g m).
Proof.
intros Hl. destruct g as [[| [] ?| [] ?| [] ?| [] ? ?| | |? mu|] td]; cbn; rewrite ?Hl; try done.
- intros _. by destruct (store m !! _).
- intros _. by destruct (heap m !! mu) as [[]|].
Qed.

Lemma moves_step m ts i g : ts !! i = Some g → is_Some (next g m) → ∃ w', step_of i (m, ts) = Some w'.
Proof.
intros Hi [[g' m'] Hn]. unfold step_of. cbn. rewrite Hi, Hn. by eexists.
Qed.

(** X3. The program never unlocks a mutex that is not locked: no goroutine
    running operations of the form Lock(key); body; Unlock(key) reaches the
    fatal error of sync.Mutex.Unlock, under any schedule. *)
Theorem unlock_never_fatal keys w i g :
  reachable keys w → w.2 !! i = Some g → at_pc g ≠ Fatal.
Proof. intros Hr%reachable_alive. by apply alive_fatal. Qed.

Lemma unlock_never_fatal_witness :
  at_pc (Go (MutexUnlock "lb" 0) []) ≠ Fatal.
Proof.
apply (unlock_never_fatal [["lb"]]
         (mk false {["lb" := 0]} [true], [Go (MutexUnlock "lb" 0) []]) 0).
- apply (schedule_rtc [0; 0; 0; 0; 0; 0; 0; 0; 0; 0]). by vm_compute.
- done.
Defined.

(** X4. The registry's own lock is taken exactly while one goroutine is
    inside get, and never by two goroutines at once. *)
Theorem registry_lock_held_by_one keys w :
  reachable keys w →
  (lock w.1 = true ↔ ∃ i g, w.2 !! i = Some g ∧ holds (at_pc g) = true) ∧
  (∀ i j gi gj, w.2 !! i = Some gi → w.2 !! j = Some gj →
     holds (at_pc gi) = true → holds (at_pc gj) = true → i = j).
Proof.
intros Hr%reachable_alive. split; [split|].
- by apply alive_lock.
- intros (i & g & Hi & Hh). by eapply (inv_lock _ (alive_inv _ Hr)).
- apply (inv_holder _ (alive_inv _ Hr)).
Qed.

Lemma registry_lock_held_by_one_witness :
  (lock (mk true ∅ []) = true ↔
   ∃ i g, [Go (GetAlloc FromLock "lb1") []; Go (GetEnter FromLock "lb2") []] !! i = Some g ∧
          holds (at_pc g) = true) ∧
  (∀ i j gi gj,
     [Go (GetAlloc FromLock "lb1") []; Go (GetEnter FromLock "lb2") []] !! i = Some gi →
     [Go (GetAlloc FromLock "lb1") []; Go (GetEnter FromLock "lb2") []] !! j = Some gj →
     holds (at_pc gi) = true → holds (at_pc gj) = true → i = j).
Proof.
apply (registry_lock_held_by_one [["lb1"]; ["lb2"]]
         (mk true ∅ [], [Go (GetAlloc FromLock "lb1") []; Go (GetEnter FromLock "lb2") []])).
apply (schedule_rtc [0; 1; 0; 0]). by vm_compute.
Defined.

(** X5. No deadlock: in every reachable state either every goroutine has run
    all its operations, or some goroutine can take a step. *)
Theorem no_deadlock keys w :
  reachable keys w →
  (∀ i g, w.2 !! i = Some g → finished g) ∨ (∃ i w', step_of i w = Some w').
Proof.
intros Hr%reachable_alive. destruct w as [m ts].
destruct (decide (Forall finished ts)) as [Hall|Hsome].
{ left. intros i g Hi. by eapply (proj1 (Forall_lookup _ _) Hall). }
right. apply not_Forall_Exists in Hsome; [|apply _].
apply Exists_exists in Hsome as (g & [i Hi]%list_elem_of_lookup & Hg).
destruct (lock m) eqn:Hl.
{ destruct (alive_lock _ Hr Hl) as (j & gj & Hj & Hh). exists j.
  eapply moves_step; [done|]. by apply holder_moves. }
pose proof (alive_fatal _ Hr i g Hi) as Hf. cbn in Hf, Hi.
destruct g as [p td]; destruct p as [|c key|c key|c key|c key mu|key mu|key|key mu|];
  cbn in Hf; [| | | | | | | |done].
- destruct td as [|key td]; [by destruct Hg|]. exists i. eapply moves_step; [done|]. by eexists.
- exists i. eapply moves_step; [done|]. cbn. rewrite Hl. by eexists.
- exists i. eapply moves_step; [done|]. by apply holder_moves.
- exists i. eapply moves_step; [done|]. by apply holder_moves.
- exists i. eapply moves_step; [done|]. by apply holder_moves.
- pose proof (inv_carries _ (alive_inv _ Hr) i _ key mu Hi eq_refl) as Hs. cbn in Hs.
  destruct (heap m !! mu) as [[]|] eqn:Hh.
  + destruct (alive_owned _ Hr key mu Hs Hh) as (j & gj & Hj & Ho). exists j.
    eapply moves_step; [done|]. by eapply owner_moves.
  + exists i. eapply moves_step; [done|]. cbn. rewrite Hh. by eexists.
  + apply lookup_ge_None in Hh.
    pose proof (proj1 (inv_wf _ (alive_inv _ Hr)) key mu Hs). cbn in *. lia.
- exists i. eapply moves_step; [done|]. by eexists.
- exists i. eapply moves_step; [done|]. by eapply owner_moves.
Qed.

Lemma no_deadlock_witness :
  (∀ i g, [Go (Critical "lb") []; Go (MutexLock "lb" 0) []] !! i = Some g → finished g) ∨
  (∃ i w', step_of i (mk false {["lb" := 0]} [true],
                      [Go (Critical "lb") []; Go (MutexLock "lb" 0) []]) = Some w').
Proof.
apply (no_deadlock [["lb"]; ["lb"]]
         (mk false {["lb" := 0]} [true], [Go (Critical "lb") []; Go (MutexLock "lb" 0) []])).
apply (schedule_rtc [0; 0; 0; 0; 0; 0; 1; 1; 1; 1]). by vm_compute.
Defined.

End Goroutines.

(** ** Create and Delete of the resources *)

Module Lifecycle.

#[local] Set Warnings "-clear-no-such-hyp".

Import Sdk Resources.

(** *** resources.Group *)
Record Group : Type := mkGroup {
  group_Response : Response;
  group_ID : option string;
  group_Name : option string;
  group_Location : option string;
  group_Tags : Tags
}.

(** The clients and helpers the Create and Delete operations call besides
    those of [Env].  [future.Response()] reads the last response the future
    has seen, which the wait for completion changes. *)
Record Clients (E : Env) : Type := mkClients {
  future_Response : Future E → cloud E → Response;
  response_WasNotFound : Response → bool;
  (* d.Get("records").( *schema.Set).List() *)
  records_List : ResourceData → list string;
  routesClient_Delete :
    string → string → string → cloud E → (Future E * option error) * cloud E;
  dnsClient_CreateOrUpdate :
    string → string → string → string → RecordSet → string → string → cloud E →
    (RecordSet * option error) * cloud E;
  zonesClient_Delete : string → string → string → cloud E → (Future E * option error) * cloud E;
  availSetClient_CreateOrUpdate :
    string → string → AvailabilitySet → cloud E → (AvailabilitySet * option error) * cloud E;
  availSetClient_Delete : string → string → cloud E → (Response * option error) * cloud E;
  vmExtensionClient_Delete :
    string → string → string → cloud E → (Future E * option error) * cloud E;
  resourceGroupsClient_CreateOrUpdate :
    string → Group → cloud E → (Group * option error) * cloud E;
  resourceGroupsClient_Get : string → cloud E → (Group * option error) * cloud E;
  resourceGroupsClient_Delete : string → cloud E → (Future E * option error) * cloud E
}.
Arguments future_Response {E}.
Arguments response_WasNotFound {E}.
Arguments records_List {E}.
Arguments routesClient_Delete {E}.
Arguments dnsClient_CreateOrUpdate {E}.
Arguments zonesClient_Delete {E}.
Arguments availSetClient_CreateOrUpdate {E}.
Arguments availSetClient_Delete {E}.
Arguments vmExtensionClient_Delete {E}.
Arguments resourceGroupsClient_CreateOrUpdate {E}.
Arguments resourceGroupsClient_Get {E}.
Arguments resourceGroupsClient_Delete {E}.

(** [d.Get(key).(int)]: the zero value when the attribute is not set. *)
Definition GetInt (d : ResourceData) (key : string) : Z :=
  match attrs d !! key with
  | Some (VInt n) => n
  | _ => 0%Z
  end.

(** The conversion [int32(n)] keeps the low 32 bits, as a signed number. *)
Definition int32 (n : Z) : Z := ((n + 2 ^ 31) mod 2 ^ 32 - 2 ^ 31)%Z.

Section Operations.
Context {E : Env} (K : Clients E).

(** [future.Response()] *)
Definition Response_of (future : Future E) : M E Response :=
  λ w, (Some (future_Response K future (azure w)), w).

(** *** Routes (src/azurestack/resource_arm_route.go, lines 149-173) *)

(** [func resourceArmRouteDelete]; the deferred unlock runs when the
    function returns. *)
Definition resourceArmRouteDelete : M E Diagnostics :=
  let* d := getData in
  match parseAzureResourceID E (Id d) with
  | inr err => ret (FromErr (Some err))
  | inl id =>
      let resGroup := ResourceGroup id in
      let rtName := index (Path id) "routeTables" in
      let routeName := index (Path id) "routes" in
      emit (EvLockByName rtName (routeTableResourceName E)) ;;
      let* diags :=
        (let* (future, err) := sdk (routesClient_Delete K resGroup rtName routeName) EvDelete in
         match err with
         | Some e =>
             ret (Errorf "Error deleting Route %q (Route Table %q / Resource Group %q): %+v"
                    [routeName; rtName; resGroup; e])
         | None =>
             let* err := wait future in
             match err with
             | Some e =>
                 ret (Errorf "Error waiting for deletion of Route %q (Route Table %q / Resource Group %q): %+v"
                        [routeName; rtName; resGroup; e])
             | None => ret []
             end
         end) in
      emit (EvUnlockByName rtName (routeTableResourceName E)) ;;
      ret diags
  end.

(** *** DNS A records (src/azurestack/resource_arm_dns_a_record.go, lines 54-91 and 159-171) *)

(** [func expandAzureStackDnsARecords]: the loop fills [records[i]] from
    [recordStrings[i]]; the error returned is always nil. *)
Definition expandAzureStackDnsARecords (d : ResourceData) : list ARecord * option error :=
  let recordStrings := records_List K d in
  ((λ ipv4, mkARecord (Some ipv4)) <$> recordStrings, None).

(** [func resourceArmDnsARecordCreateOrUpdate] *)
Definition resourceArmDnsARecordCreateOrUpdate : M E Diagnostics :=
  let* d := getData in
  let name := GetString d "name" in
  let resGroup := GetString d "resource_group_name" in
  let zoneName := GetString d "zone_name" in
  let ttl := GetInt d "ttl" in
  let tags := GetTags d "tags" in
  let (records, err) := expandAzureStackDnsARecords d in
  match err with
  | Some e => ret (FromErr (Some e))
  | None =>
      let parameters :=
        mkRecordSet None None (Some name)
          (Some (mkRecordSetProps (expandTags E tags) (Some ttl) (Some records))) in
      let eTag := "" in
      let ifNoneMatch := "" in
      let* (resp, err) :=
        sdk (dnsClient_CreateOrUpdate K resGroup zoneName name "A" parameters eTag ifNoneMatch)
            EvCreateOrUpdate in
      match err with
      | Some e => ret (FromErr (Some e))
      | None =>
          match rs_ID resp with
          | None =>
              ret (Errorf "Cannot read DNS A Record %s (resource group %s) ID" [name; resGroup])
          | Some id => SetId id ;; resourceArmDnsARecordRead E
          end
      end
  end.

(** *** DNS zones (src/azurestack/resource_arm_dns_zone.go, lines 120-149) *)

(** [func resourceArmDnsZoneDelete] *)
Definition resourceArmDnsZoneDelete : M E Diagnostics :=
  let* d := getData in
  match parseAzureResourceID E (Id d) with
  | inr err => ret (FromErr (Some err))
  | inl id =>
      let resGroup := ResourceGroup id in
      let name := index (Path id) "dnszones" in
      let etag := "" in
      let* (future, err) := sdk (zonesClient_Delete K resGroup name etag) EvDelete in
      match err with
      | Some e =>
          let* r := Response_of future in
          if response_WasNotFound K r then ret []
          else ret (Errorf "Error deleting DNS zone %s (resource group %s): %+v" [name; resGroup; e])
      | None =>
          let* err := wait future in
          match err with
          | Some e =>
              let* r := Response_of future in
              if response_WasNotFound K r then ret []
              else ret (Errorf "Error deleting DNS zone %s (resource group %s): %+v"
                          [name; resGroup; e])
          | None => ret []
          end
      end
  end.

(** *** Availability sets (src/azurestack/resource_arm_availability_set.go, lines 64-104 and 143-156) *)

(** [func resourceArmAvailabilitySetCreate] *)
Definition resourceArmAvailabilitySetCreate : M E Diagnostics :=
  let* d := getData in
  let name := GetString d "name" in
  let location := azureStackNormalizeLocation E (GetString d "location") in
  let resGroup := GetString d "resource_group_name" in
  let updateDomainCount := GetInt d "platform_update_domain_count" in
  let faultDomainCount := GetInt d "platform_fault_domain_count" in
  let managed := GetBool d "managed" in
  let tags := GetTags d "tags" in
  let availSet :=
    mkAvailabilitySet None None (Some name) (Some location)
      (if managed then Some (mkSku (Some "Aligned")) else None)
      (Some (mkAvailProps (Some (int32 updateDomainCount)) (Some (int32 faultDomainCount))))
      (expandTags E tags) in
  let* (resp, err) :=
    sdk (availSetClient_CreateOrUpdate K resGroup name availSet) EvCreateOrUpdate in
  match err with
  | Some e => ret (FromErr (Some e))
  | None =>
      let* id := deref (as_ID resp) in
      SetId id ;;
      resourceArmAvailabilitySetRead E
  end.

(** [func resourceArmAvailabilitySetDelete] *)
Definition resourceArmAvailabilitySetDelete : M E Diagnostics :=
  let* d := getData in
  match parseAzureResourceID E (Id d) with
  | inr err => ret (FromErr (Some err))
  | inl id =>
      let resGroup := ResourceGroup id in
      let name := index (Path id) "availabilitySets" in
      let* (_, err) := sdk (availSetClient_Delete K resGroup name) EvDelete in
      ret (FromErr err)
  end.

(** *** Virtual machine extensions (src/unnamed/part_002, lines 193-210) *)

(** [func resourceArmVirtualMachineExtensionsDelete] *)
Definition resourceArmVirtualMachineExtensionsDelete : M E Diagnostics :=
  let* d := getData in
  match parseAzureResourceID E (Id d) with
  | inr err => ret (FromErr (Some err))
  | inl id =>
      let resGroup := ResourceGroup id in
      let name := index (Path id) "extensions" in
      let vmName := index (Path id) "virtualMachines" in
      let* (future, err) := sdk (vmExtensionClient_Delete K resGroup vmName name) EvDelete in
      match err with
      | Some e => ret (FromErr (Some e))
      | None =>
          let* err := wait future in
          ret (FromErr err)
      end
  end.

(** *** Resource groups (src/azurestack/resource_arm_resource_group.go, lines 34-113) *)

(** [func resourceArmResourceGroupRead] *)
Definition resourceArmResourceGroupRead : M E Diagnostics :=
  let* d := getData in
  match parseAzureResourceID E (Id d) with
  | inr err => ret (Errorf "Error parsing Azure Resource ID %q: %+v" [Id d; err])
  | inl id =>
      let name := ResourceGroup id in
      let* (resp, err) := sdk (resourceGroupsClient_Get K name) EvGet in
      match err with
      | Some e =>
          if ResponseWasNotFound E (group_Response resp) then
            SetId "" ;; ret []
          else
            ret (Errorf "Error reading resource group: %+v" [e])
      | None =>
          Set_ "name" (of_ptr VString (group_Name resp)) ;;
          let* location := deref (group_Location resp) in
          Set_ "location" (VString (azureStackNormalizeLocation E location)) ;;
          modify (λ d, flattenAndSetTags E d (group_Tags resp)) ;;
          ret []
      end
  end.

(** [func resourceArmResourceGroupCreateUpdate] *)
Definition resourceArmResourceGroupCreateUpdate : M E Diagnostics :=
  let* d := getData in
  let name := GetString d "name" in
  let location := GetString d "location" in
  let tags := GetTags d "tags" in
  let parameters := mkGroup None None None (Some location) (expandTags E tags) in
  let* (_, err) := sdk (resourceGroupsClient_CreateOrUpdate K name parameters) EvCreateOrUpdate in
  match err with
  | Some e => ret (Errorf "Error creating resource group: %+v" [e])
  | None =>
      let* (resp, err) := sdk (resourceGroupsClient_Get K name) EvGet in
      match err with
      | Some e => ret (Errorf "Error retrieving resource group: %+v" [e])
      | None =>
          let* id := deref (group_ID resp) in
          SetId id ;;
          resourceArmResourceGroupRead
      end
  end.

(** [func resourceArmResourceGroupDelete] *)
Definition resourceArmResourceGroupDelete : M E Diagnostics :=
  let* d := getData in
  match parseAzureResourceID E (Id d) with
  | inr err => ret (Errorf "Error parsing Azure Resource ID %q: %+v" [Id d; err])
  | inl id =>
      let name := ResourceGroup id in
      let* (deleteFuture, err) := sdk (resourceGroupsClient_Delete K name) EvDelete in
      match err with
      | Some e =>
          let* r := Response_of deleteFuture in
          if response_WasNotFound K r then ret []
          else ret (Errorf "Error deleting Resource Group %q: %+v" [name; e])
      | None =>
          let* err := wait deleteFuture in
          match err with
          | Some e =>
              let* r := Response_of deleteFuture in
              if response_WasNotFound K r then ret []
              else ret (Errorf "Error deleting Resource Group %q: %+v" [name; e])
          | None => ret []
          end
      end
  end.

End Operations.

(** The events of a run under the lock of [name]: the lock is taken first,
    released last, and no lock is taken or released in between. *)
Definition lock_event (ev : event) : bool :=
  match ev with
  | EvLockByName _ _ | EvUnlockByName _ _ => true
  | _ => false
  end.

Definition locked_throughout (name resourceType : string) (evs : list event) : Prop :=
  ∃ body, evs = EvLockByName name resourceType :: body ++ [EvUnlockByName name resourceType] ∧
    Forall (λ ev, lock_event ev = false) body.

(** The operation returns, whatever the state, and touches no lock. *)
Definition returns_unlocked {E A} (c : M E A) : Prop :=
  ∀ w, ∃ a w' evs, c w = (Some a, w') ∧ log w' = log w ++ evs ∧
    Forall (λ ev, lock_event ev = false) evs.

(** What a Delete that starts a long-running deletion with [request] does
    in a run from [w], in terms of what the service answers.  When the
    request returns an error the run returns diagnostics and does not wait;
    otherwise it waits for the completion, and returns diagnostics exactly
    when the wait returns an error.  [pre] and [post] are the events before
    the request and after the last call. *)
Definition deletes_and_waits {E} (Delete : M E Diagnostics) (w : world E)
    (pre post : list event)
    (request : cloud E → (Future E * option error) * cloud E) : Prop :=
  match request (azure w) with
  | ((_, Some _), c) =>
      ∃ diags, diags ≠ [] ∧
        Delete w = (Some diags, mkWorld c (data w) (log w ++ pre ++ [EvDelete false] ++ post))
  | ((future, None), c) =>
      let '(err, c') := WaitForCompletionRef E future c in
      ∃ diags, (diags = [] ↔ err = None) ∧
        Delete w =
          (Some diags,
           mkWorld c' (data w)
             (log w ++ pre ++ [EvDelete true; EvWaitForCompletion (succeeded err)] ++ post))
  end.

Ltac run :=
  unfold bind, getData, sdk, wait, emit, ret, panic, deref, modify, Response_of, SetId, Set_;
  cbn.

Ltac crunch :=
  run;
  repeat first [ progress simplify_eq/= | case_match
               | progress (unfold ret, panic, bind, modify, emit in *) ];
  try done.

Ltac absent :=
  repeat match goal with
  | H : _ ∈ [] |- _ => (by apply elem_of_nil in H)
  | H : _ ∈ _ :: _ |- _ => apply elem_of_cons in H as [?|?]; [done|]
  | |- _ ∉ _ => intros ?
  end.

Section Proofs.
Context {E : Env} (K : Clients E).

Lemma unlocked_ret {A} (a : A) : returns_unlocked (E := E) (ret a).
Proof. intros w. exists a, w, []. by rewrite app_nil_r. Qed.

Lemma unlocked_bind {A B} (c : M E A) (k : A → M E B) :
  returns_unlocked c → (∀ a, returns_unlocked (k a)) → returns_unlocked (bind c k).
Proof.
intros Hc Hk w. unfold bind. destruct (Hc w) as (a & w1 & evs1 & -> & H1 & F1).
destruct (Hk a w1) as (b & w2 & evs2 & -> & H2 & F2). exists b, w2, (evs1 ++ evs2).
rewrite H2, H1, app_assoc. split; [done|]. split; [done|]. by apply Forall_app.
Qed.

Lemma unlocked_getData : returns_unlocked (@getData E).
Proof. intros w. exists (data w), w, []. by rewrite app_nil_r. Qed.

Lemma unlocked_modify f : returns_unlocked (@modify E f).
Proof. intros w. eexists tt, _, []. split; [done|]. by rewrite app_nil_r. Qed.

Lemma unlocked_SetId id : returns_unlocked (@SetId E id).
Proof. intros w. eexists tt, _, [EvSetId id]. split; [done|]. split; [done|]. by repeat constructor. Qed.

Lemma unlocked_Set key v : returns_unlocked (@Set_ E key v).
Proof.
unfold Set_. destruct (set_refused E key v); [apply unlocked_ret|].
apply unlocked_bind; [apply unlocked_modify|intros; apply unlocked_ret].
Qed.

Lemma unlocked_sdk {A} (call : cloud E → (A * option error) * cloud E) (ev : bool → event) :
  (∀ ok, lock_event (ev ok) = false) → returns_unlocked (sdk call ev).
Proof.
intros Hev w. unfold sdk. destruct (call (azure w)) as [r c]. eexists r, _, [_].
split; [done|]. split; [done|]. by repeat constructor.
Qed.

Lemma unlocked_wait future : returns_unlocked (@wait E future).
Proof.
intros w. unfold wait. destruct (WaitForCompletionRef E future (azure w)) as [r c].
eexists r, _, [_]. split; [done|]. split; [done|]. by repeat constructor.
Qed.

Ltac unlocked :=
  repeat first
    [ apply unlocked_ret | apply unlocked_getData | apply unlocked_modify
    | apply unlocked_SetId | apply unlocked_Set | apply unlocked_wait
    | apply unlocked_sdk; done
    | apply unlocked_bind; [|intros]
    | match goal with |- returns_unlocked (match ?x with _ => _ end) => destruct x end
    | match goal with |- returns_unlocked (if ?x then _ else _) => destruct x end
    | match goal with |- returns_unlocked (let (_, _) := ?x in _) => destruct x end ].

Lemma under_lock name ty (body : M E Diagnostics) :
  returns_unlocked body →
  ∀ w, ∃ diags w' evs,
    (emit (EvLockByName name ty) ;;
     let* diags := body in
     emit (EvUnlockByName name ty) ;;
     ret diags) w = (Some diags, w') ∧
    log w' = log w ++ evs ∧ locked_throughout name ty evs.
Proof.
intros Hb w. unfold bind at 1. cbn.
destruct (Hb (mkWorld (azure w) (data w) (log w ++ [EvLockByName name ty])))
  as (diags & w1 & evs & Hr & Hl & Hf).
unfold bind at 1. rewrite Hr. cbn. eexists _, _, _. split; [done|]. cbn.
rewrite Hl. cbn. rewrite <- !app_assoc. split; [done|]. by exists evs.
Qed.

(** X6. Expanding the records of the resource data and flattening the
    result gives back the records, in the same order; expanding never
    returns an error. *)
Theorem flatten_expand_DnsARecords (d : ResourceData) :
  flattenAzureStackDnsARecords (Some (expandAzureStackDnsARecords K d).1) = Some (records_List K d) ∧
  (expandAzureStackDnsARecords K d).2 = None.
Proof.
split; [|done]. unfold expandAzureStackDnsARecords, flattenAzureStackDnsARecords. cbn.
induction (records_List K d) as [|r rs IH]; [done|]. cbn in *. by rewrite IH.
Qed.

(** X7. The Delete operations never change the resource data: neither the
    ID nor an attribute. *)
Theorem deletes_keep_resource_data (w : world E) :
  data (resourceArmRouteDelete K w).2 = data w ∧
  data (resourceArmDnsARecordDelete E w).2 = data w ∧
  data (resourceArmDnsZoneDelete K w).2 = data w ∧
  data (resourceArmAvailabilitySetDelete K w).2 = data w ∧
  data (resourceArmVirtualMachineExtensionsDelete K w).2 = data w ∧
  data (resourceArmResourceGroupDelete K w).2 = data w.
Proof.
split_and!.
- unfold resourceArmRouteDelete. crunch.
- unfold resourceArmDnsARecordDelete. crunch.
- unfold resourceArmDnsZoneDelete. crunch.
- unfold resourceArmAvailabilitySetDelete. crunch.
- unfold resourceArmVirtualMachineExtensionsDelete. crunch.
- unfold resourceArmResourceGroupDelete. crunch.
Qed.

(** X8. Delete of a route, of a virtual machine extension and of an
    availability set report every failure of the service and nothing else.
    When the ID parses, the route and the extension Delete send the delete
    request for the names of the ID; when it returns an error they return
    diagnostics without waiting, otherwise they wait for the completion and
    return diagnostics exactly when the wait returns an error.  The
    availability set Delete sends the delete request and returns diagnostics
    exactly when it returns an error.  The route Delete does so between the
    lock and the unlock of its route table.  None of them panics. *)
Theorem delete_reports_every_failure (w : world E) (id : ResourceID) :
  parseAzureResourceID E (Id (data w)) = inl id →
  let resGroup := ResourceGroup id in
  (let rtName := index (Path id) "routeTables" in
   deletes_and_waits (resourceArmRouteDelete K) w
     [EvLockByName rtName (routeTableResourceName E)]
     [EvUnlockByName rtName (routeTableResourceName E)]
     (routesClient_Delete K resGroup rtName (index (Path id) "routes"))) ∧
  deletes_and_waits (resourceArmVirtualMachineExtensionsDelete K) w [] []
    (vmExtensionClient_Delete K resGroup (index (Path id) "virtualMachines")
       (index (Path id) "extensions")) ∧
  (let '((_, err), c) :=
     availSetClient_Delete K resGroup (index (Path id) "availabilitySets") (azure w) in
   ∃ diags, (diags = [] ↔ err = None) ∧
     resourceArmAvailabilitySetDelete K w =
       (Some diags, mkWorld c (data w) (log w ++ [EvDelete (succeeded err)]))).
Proof.
intros Hp resGroup. split_and!.
- cbn zeta. unfold deletes_and_waits, resourceArmRouteDelete. run. rewrite Hp. fold resGroup.
  destruct (routesClient_Delete K _ _ _ _) as [[future [e|]] c]; cbn.
  + eexists. split; [|by rewrite <- ?app_assoc]. done.
  + destruct (WaitForCompletionRef E future c) as [[e|] c']; cbn.
    * eexists. split; [|by rewrite <- ?app_assoc]. done.
    * eexists. split; [|by rewrite <- ?app_assoc]. done.
- unfold deletes_and_waits, resourceArmVirtualMachineExtensionsDelete. run. rewrite Hp.
  fold resGroup.
  destruct (vmExtensionClient_Delete K _ _ _ _) as [[future [e|]] c]; cbn.
  + eexists. split; [|done]. done.
  + destruct (WaitForCompletionRef E future c) as [[e|] c']; cbn.
    * eexists. split; [|by rewrite <- ?app_assoc]. done.
    * eexists. split; [|by rewrite <- ?app_assoc]. done.
- unfold resourceArmAvailabilitySetDelete. run. rewrite Hp. fold resGroup.
  destruct (availSetClient_Delete K _ _ _) as [[r [e|]] c]; cbn.
  + eexists. split; [|done]. done.
  + eexists. split; [|done]. done.
Qed.

(** X9. Delete of a DNS zone or of a resource group treats Not Found as success:
    when the request, or the wait for its completion, returns an error, the
    operation returns no diagnostics exactly when the last response of the
    future is Not Found; the wait is not started after a failed request. *)
Theorem delete_of_missing_resource_succeeds (w : world E) (id : ResourceID)
    (Delete : M E Diagnostics) (request : cloud E → (Future E * option error) * cloud E)
    (future : Future E) (err : option error) (c : cloud E) :
  parseAzureResourceID E (Id (data w)) = inl id →
  (Delete, request) ∈
    [(resourceArmDnsZoneDelete K,
      zonesClient_Delete K (ResourceGroup id) (index (Path id) "dnszones") "");
     (resourceArmResourceGroupDelete K, resourceGroupsClient_Delete K (ResourceGroup id))] →
  request (azure w) = ((future, err), c) →
  ∃ diags w', Delete w = (Some diags, w') ∧
    match err with
    | Some _ =>
        azure w' = c ∧ log w' = log w ++ [EvDelete false] ∧
        (diags = [] ↔ response_WasNotFound K (future_Response K future c) = true)
    | None =>
        let (err', c') := WaitForCompletionRef E future c in
        azure w' = c' ∧
        log w' = log w ++ [EvDelete true; EvWaitForCompletion (succeeded err')] ∧
        (diags = [] ↔
         err' = None ∨ response_WasNotFound K (future_Response K future c') = true)
    end.
Proof.
intros Hp HD Hr.
repeat (apply elem_of_cons in HD as [[= -> ->]|HD]); [| |by apply elem_of_nil in HD].
- unfold resourceArmDnsZoneDelete. run. rewrite Hp, Hr. cbn. destruct err as [e|]; cbn.
  + destruct (response_WasNotFound K _) eqn:Hnf; eexists _, _; (split; [done|]); cbn;
      split_and!; try done.
  + destruct (WaitForCompletionRef E future c) as [[e|] c']; cbn.
    * destruct (response_WasNotFound K _) eqn:Hnf; eexists _, _; (split; [done|]); cbn;
        rewrite <- ?app_assoc; split_and!; try done; first [by split; [right|]|by split; [|intros [|]]].
    * eexists _, _. split; [done|]. cbn. rewrite <- ?app_assoc. split_and!; try done. split; [by left|done].
- unfold resourceArmResourceGroupDelete. run. rewrite Hp, Hr. cbn. destruct err as [e|]; cbn.
  + destruct (response_WasNotFound K _) eqn:Hnf; eexists _, _; (split; [done|]); cbn;
      split_and!; try done.
  + destruct (WaitForCompletionRef E future c) as [[e|] c']; cbn.
    * destruct (response_WasNotFound K _) eqn:Hnf; eexists _, _; (split; [done|]); cbn;
        rewrite <- ?app_assoc; split_and!; try done; first [by split; [right|]|by split; [|intros [|]]].
    * eexists _, _. split; [done|]. cbn. rewrite <- ?app_assoc. split_and!; try done. split; [by left|done].
Qed.

(** X10. Read of a resource group whose GET returns an error: on Not Found the
    ID is cleared and no diagnostics are returned, otherwise diagnostics
    are returned and the resource data stays as it was. *)
Theorem resource_group_read_not_found :
  not_found_leaves_state (resourceArmResourceGroupRead K)
    (λ id, resourceGroupsClient_Get K (ResourceGroup id)) group_Response.
Proof.
intros w id r e c Hp Hg. unfold resourceArmResourceGroupRead. run. rewrite Hp, Hg. cbn.
destruct (ResponseWasNotFound E _); eexists _, _; (split; [done|]); by cbn.
Qed.

(** X11. Create, update and delete of a route always return, never panic, and
    run under the lock of the route table: the lock is taken first and
    released last, on every path, also when a call of the SDK fails. *)
Theorem route_operations_release_lock (w : world E) :
  (∃ diags w' evs, resourceArmRouteCreateUpdate E w = (Some diags, w') ∧
     log w' = log w ++ evs ∧
     locked_throughout (GetString (data w) "route_table_name") (routeTableResourceName E) evs) ∧
  (∀ id, parseAzureResourceID E (Id (data w)) = inl id →
     ∃ diags w' evs, resourceArmRouteDelete K w = (Some diags, w') ∧
       log w' = log w ++ evs ∧
       locked_throughout (index (Path id) "routeTables") (routeTableResourceName E) evs).
Proof.
split.
- unfold resourceArmRouteCreateUpdate. unfold bind at 1. cbn.
  apply under_lock. unlocked.
- intros id Hp. unfold resourceArmRouteDelete. unfold bind at 1. cbn. rewrite Hp.
  apply under_lock. unlocked.
Qed.

(** X12. When the service answers the create request without an ID, Create
    of an availability set and of a resource group panic on the nil
    pointer, after the resource was created and with the ID of the resource
    data not set; Create of a DNS A record returns a diagnostic instead.
    The requests are the ones the operations build from the resource
    data. *)
Theorem create_answer_without_id (w : world E) (c : cloud E) :
  let d := data w in
  (∀ resp,
     availSetClient_CreateOrUpdate K (GetString d "resource_group_name") (GetString d "name")
       (mkAvailabilitySet None None (Some (GetString d "name"))
          (Some (azureStackNormalizeLocation E (GetString d "location")))
          (if GetBool d "managed" then Some (mkSku (Some "Aligned")) else None)
          (Some (mkAvailProps (Some (int32 (GetInt d "platform_update_domain_count")))
                   (Some (int32 (GetInt d "platform_fault_domain_count")))))
          (expandTags E (GetTags d "tags")))
       (azure w) = ((resp, None), c) →
     as_ID resp = None →
     resourceArmAvailabilitySetCreate K w =
       (None, mkWorld c (data w) (log w ++ [EvCreateOrUpdate true]))) ∧
  (∀ created resp c',
     resourceGroupsClient_CreateOrUpdate K (GetString d "name")
       (mkGroup None None None (Some (GetString d "location")) (expandTags E (GetTags d "tags")))
       (azure w) = ((created, None), c) →
     resourceGroupsClient_Get K (GetString d "name") c = ((resp, None), c') →
     group_ID resp = None →
     resourceArmResourceGroupCreateUpdate K w =
       (None, mkWorld c' (data w) (log w ++ [EvCreateOrUpdate true; EvGet true]))) ∧
  (∀ resp,
     dnsClient_CreateOrUpdate K (GetString d "resource_group_name") (GetString d "zone_name")
       (GetString d "name") "A"
       (mkRecordSet None None (Some (GetString d "name"))
          (Some (mkRecordSetProps (expandTags E (GetTags d "tags")) (Some (GetInt d "ttl"))
                   (Some (expandAzureStackDnsARecords K d).1))))
       "" "" (azure w) = ((resp, None), c) →
     rs_ID resp = None →
     ∃ diags, diags ≠ [] ∧
       resourceArmDnsARecordCreateOrUpdate K w =
         (Some diags, mkWorld c (data w) (log w ++ [EvCreateOrUpdate true]))).
Proof.
cbn zeta. split_and!.
- intros resp Hc Hid. unfold resourceArmAvailabilitySetCreate. run. rewrite Hc. cbn.
  by rewrite Hid.
- intros created resp c' Hc Hg Hid. unfold resourceArmResourceGroupCreateUpdate. run.
  rewrite Hc. cbn. rewrite Hg. cbn. rewrite Hid. cbn. by rewrite <- app_assoc.
- intros resp Hc Hid. unfold resourceArmDnsARecordCreateOrUpdate. run.
  unfold expandAzureStackDnsARecords in Hc. cbn in Hc. rewrite Hc. cbn.
  rewrite Hid. cbn. eexists. split; [|reflexivity]. done.
Qed.

End Proofs.

(** *** Clients with fixed answers

    The clients of [fixed_answers]: every delete answers [delete], every
    create answers with the ID [id] and the error [create]. *)
Definition fixed_clients (get : Response * option error) (create poll : option error)
    (delete : Response * option error) (id : option string) :
    Clients (fixed_answers get create poll delete) :=
  mkClients (fixed_answers get create poll delete)
    (* future_Response *) (λ _ _, delete.1)
    (* response_WasNotFound *) (λ r, bool_decide (r = Some StatusNotFound))
    (* records_List *)
    (λ d, match attrs d !! "records" with
          | Some (VStrings l) => l
          | _ => []
          end)
    (* routesClient_Delete *) (λ _ _ _ c, ((tt, delete.2), c))
    (* dnsClient_CreateOrUpdate *)
    (λ _ _ _ _ _ _ _ c, ((mkRecordSet get.1 id (Some "www") None, create), c))
    (* zonesClient_Delete *) (λ _ _ _ c, ((tt, delete.2), c))
    (* availSetClient_CreateOrUpdate *)
    (λ _ _ _ c, ((mkAvailabilitySet get.1 id (Some "as") None None None ∅, create), c))
    (* availSetClient_Delete *) (λ _ _ c, (delete, c))
    (* vmExtensionClient_Delete *) (λ _ _ _ c, ((tt, delete.2), c))
    (* resourceGroupsClient_CreateOrUpdate *)
    (λ name _ c, ((mkGroup get.1 id (Some name) (Some "local") ∅, create), c))
    (* resourceGroupsClient_Get *)
    (λ name c, ((mkGroup get.1 id (Some name) (Some "local") ∅, get.2), c))
    (* resourceGroupsClient_Delete *) (λ _ c, ((tt, delete.2), c)).

(** The resource is gone when the delete arrives. *)
Definition missing : Env :=
  fixed_answers (None, None) None None (Some StatusNotFound, Some "404 Not Found").

Definition already_deleted : Clients missing :=
  fixed_clients (None, None) None None (Some StatusNotFound, Some "404 Not Found") None.

(** Every request succeeds, and the answers carry no ID. *)
Definition answering : Env :=
  fixed_answers (Some StatusOK, None) None None (None, None).

Definition answers_without_id : Clients answering :=
  fixed_clients (Some StatusOK, None) None None (None, None) None.

(** The clients of [gone]: the GET answers 404 Not Found. *)
Definition gone_clients : Clients gone :=
  fixed_clients (Some StatusNotFound, Some "404 Not Found") None None (None, None) None.

(** What [parseAzureResourceID] of [fixed_answers] returns. *)
Definition example_id : ResourceID :=
  mkResourceID "rg" {[ "dnszones" := "example.com"; "A" := "www";
                       "routeTables" := "rt"; "routes" := "r1" ]}.

Lemma delete_reports_every_failure_witness :
  ∃ diags, diags ≠ [] ∧
    resourceArmRouteDelete already_deleted (www_record missing tt) =
      (Some diags,
       @mkWorld missing tt (data (www_record missing tt))
         [EvLockByName (index (Path example_id) "routeTables") "azurestack_route_table";
          EvDelete false;
          EvUnlockByName (index (Path example_id) "routeTables") "azurestack_route_table"]).
Proof.
exact (proj1 (delete_reports_every_failure already_deleted (www_record missing tt)
                example_id eq_refl)).
Defined.

Lemma delete_of_missing_resource_witness :
  ∃ diags w',
    resourceArmDnsZoneDelete already_deleted (www_record missing tt) = (Some diags, w') ∧
    azure w' = tt ∧ log w' = [EvDelete false] ∧
    (diags = [] ↔ true = true).
Proof.
apply (delete_of_missing_resource_succeeds already_deleted (www_record missing tt)
         example_id
         (resourceArmDnsZoneDelete already_deleted)
         (zonesClient_Delete already_deleted "rg" "example.com" "")
         tt (Some "404 Not Found") tt).
- reflexivity.
- left.
- reflexivity.
Defined.

Lemma resource_group_read_not_found_witness :
  ∃ diags w',
    resourceArmResourceGroupRead gone_clients (www_record gone tt) = (Some diags, w') ∧
    diags = [] ∧ Id (data w') = "".
Proof.
apply (resource_group_read_not_found gone_clients (www_record gone tt)
         example_id
         (mkGroup (Some StatusNotFound) None (Some "rg") (Some "local") ∅)
         "404 Not Found" tt); reflexivity.
Defined.

Lemma route_operations_release_lock_witness :
  ∃ diags w' evs,
    resourceArmRouteDelete already_deleted (www_record missing tt) = (Some diags, w') ∧
    log w' = log (www_record missing tt) ++ evs ∧
    locked_throughout (index (Path example_id) "routeTables") "azurestack_route_table" evs.
Proof.
apply (proj2 (route_operations_release_lock already_deleted (www_record missing tt))
         example_id).
reflexivity.
Defined.

Lemma create_answer_without_id_witness :
  resourceArmAvailabilitySetCreate answers_without_id (www_record answering tt) =
    (None, @mkWorld answering tt (data (www_record answering tt)) [EvCreateOrUpdate true]).
Proof.
apply (proj1 (create_answer_without_id answers_without_id (www_record answering tt) tt)
         (mkAvailabilitySet (Some StatusOK) None (Some "as") None None None ∅)); reflexivity.
Defined.

End Lifecycle.

(** ** Go's hash/crc32 with the IEEE polynomial

    The table-driven algorithm of the package ([simpleMakeTable],
    [simpleUpdate]), which its other implementations agree with. *)

Module Crc32.

(** [crc32.IEEE], the reversed polynomial. *)
Definition IEEE : N := 0xedb88320%N.

(** One round of the inner loop of [simplePopulateTable]. *)
Definition round (crc : N) : N :=
  if N.testbit crc 0 then N.lxor (N.shiftr crc 1) IEEE else N.shiftr crc 1.

(** [tab[i]] of [simpleMakeTable(IEEE)]: eight rounds from [i]. *)
Definition IEEETable (i : N) : N := Nat.iter 8 round i.

(** [^crc] on a [uint32] *)
Definition complement (crc : N) : N := N.lxor crc 0xffffffff%N.

(** The body of the loop of [simpleUpdate]:
    [crc = tab[byte(crc)^v] ^ (crc >> 8)]. *)
Definition update (crc : N) (v : ascii) : N :=
  N.lxor (IEEETable (N.lxor (N.land crc 255) (N_of_ascii v))) (N.shiftr crc 8).

(** [crc32.ChecksumIEEE(data)] *)
Definition ChecksumIEEE (data : string) : N :=
  complement (fold_left update (list_ascii_of_string data) (complement 0%N)).

Lemma lxor_lt (n a b : N) : (a < 2 ^ n → b < 2 ^ n → N.lxor a b < 2 ^ n)%N.
Proof.
intros Ha Hb.
destruct (N.eq_dec a 0%N) as [->|Hna]; [by rewrite N.lxor_0_l|].
destruct (N.eq_dec b 0%N) as [->|Hnb]; [by rewrite N.lxor_0_r|].
destruct (N.eq_dec (N.lxor a b) 0%N) as [->|Hne]; [lia|].
apply N.log2_lt_pow2; [lia|].
eapply N.le_lt_trans; [apply N.log2_lxor|].
apply N.max_lub_lt; apply N.log2_lt_pow2; (lia || done).
Qed.

Lemma shiftr_le (a k : N) : (N.shiftr a k ≤ a)%N.
Proof.
rewrite N.shiftr_div_pow2. apply N.Div0.div_le_upper_bound.
assert (0 < 2 ^ k)%N by (apply N.neq_0_lt_0; by apply N.pow_nonzero). nia.
Qed.

Lemma round_lt crc : (crc < 2 ^ 32 → round crc < 2 ^ 32)%N.
Proof.
intros H. pose proof (shiftr_le crc 1). unfold round.
destruct (N.testbit crc 0); [apply lxor_lt; [lia|by vm_compute]|lia].
Qed.

Lemma IEEETable_lt i : (i < 2 ^ 32 → IEEETable i < 2 ^ 32)%N.
Proof. intros H. unfold IEEETable. cbn. by do 8 apply round_lt. Qed.

Lemma update_lt crc v : (crc < 2 ^ 32 → update crc v < 2 ^ 32)%N.
Proof.
intros H. unfold update. apply lxor_lt.
- apply IEEETable_lt. apply (lxor_lt 32).
  + eapply N.le_lt_trans; [apply N.land_le_r|]. by vm_compute. 
  + pose proof (N_ascii_bounded v). lia.
- pose proof (shiftr_le crc 8). lia.
Qed.

Lemma ChecksumIEEE_lt data : (ChecksumIEEE data < 2 ^ 32)%N.
Proof.
unfold ChecksumIEEE, complement. apply lxor_lt; [|by vm_compute].
assert (H : (N.lxor 0 0xffffffff < 2 ^ 32)%N) by by vm_compute.
revert H. generalize (N.lxor 0 0xffffffff)%N.
induction (list_ascii_of_string data) as [|v l IH]; intros crc H; cbn; [done|].
apply IH. by apply update_lt.
Qed.

(** The check value of CRC-32/ISO-HDLC. *)
Example ChecksumIEEE_check : ChecksumIEEE "123456789" = 0xcbf43926%N.
Proof. by vm_compute. Qed.

End Crc32.

(** ** More helpers of the provider (src/azurestack/data_source_virtual_network.go, lines 347-378 and 425-440) *)

Module Helpers.
Import Sdk Base64 Provider Crc32.

(** The size of Go's [int] on the platform the provider is built for. *)
Inductive IntSize : Type := Int32 | Int64.

Definition bits (size : IntSize) : Z :=
  match size with
  | Int32 => 32
  | Int64 => 64
  end.

(** The conversion [int(n)], and the result of arithmetic on [int]: the low
    [bits] bits, as a signed number. *)
Definition int (size : IntSize) (n : Z) : Z :=
  ((n + 2 ^ (bits size - 1)) mod 2 ^ bits size - 2 ^ (bits size - 1))%Z.

(** [func HashCodeString(s string) int] *)
Definition HashCodeString (size : IntSize) (s : string) : Z :=
  let v := int size (Z.of_N (ChecksumIEEE s)) in
  if (0 <=? v)%Z then v
  else if (0 <=? int size (- v))%Z then int size (- v)
  else 0%Z.

Section UserData.

(** [sha1.Sum] and [hex.EncodeToString], on byte strings. *)
Variable sha1_Sum : string → string.
Variable hex_EncodeToString : string → string.

(** [func userDataStateFunc(v interface{}) string] *)
Definition userDataStateFunc (v : value) : string :=
  match v with
  | VString s =>
      let s := base64Encode s in
      let hash := sha1_Sum s in
      hex_EncodeToString hash
  | _ => ""
  end.

(** [func userDataDiffSuppressFunc(k, old, new string, d *schema.ResourceData) bool] *)
Definition userDataDiffSuppressFunc (k old new : string) (d : ResourceData) : bool :=
  let oldValue := userDataStateFunc (VString old) in
  String.eqb oldValue new.

End UserData.

Lemma int_small size n :
  (- 2 ^ (bits size - 1) ≤ n < 2 ^ (bits size - 1))%Z → int size n = n.
Proof.
intros H. unfold int.
replace (2 ^ bits size)%Z with (2 * 2 ^ (bits size - 1))%Z in * by by destruct size.
rewrite Z.mod_small; lia.
Qed.

Lemma int_above size n :
  (2 ^ (bits size - 1) ≤ n < 2 ^ bits size)%Z → int size n = (n - 2 ^ bits size)%Z.
Proof.
intros H. unfold int.
replace (n + 2 ^ (bits size - 1))%Z
  with (n - 2 ^ (bits size - 1) + 1 * 2 ^ bits size)%Z by (destruct size; cbn; lia).
rewrite Z.mod_add by by destruct size.
rewrite Z.mod_small; destruct size; cbn in *; lia.
Qed.

(** X13. HashCodeString never returns a negative number.  Where int has 64
    bits it is the CRC-32 checksum of the string, below 2^32, and the two
    branches for a negative value are never taken.  Where int has 32 bits a
    checksum c below 2^31 is returned as it is, a checksum above 2^31 is
    returned as 2^32 - c, and the checksum 2^31 gives 0. *)
Theorem HashCodeString_checksum (s : string) :
  let c := Z.of_N (ChecksumIEEE s) in
  (∀ size, 0 ≤ HashCodeString size s)%Z ∧
  HashCodeString Int64 s = c ∧
  (c < 2 ^ 32)%Z ∧
  HashCodeString Int32 s =
    (if decide (c < 2 ^ 31) then c else if decide (c = 2 ^ 31) then 0 else 2 ^ 32 - c)%Z.
Proof.
intros c. pose proof (ChecksumIEEE_lt s) as Hlt.
assert (Hc : (0 ≤ c < 2 ^ 32)%Z) by (unfold c; lia).
unfold HashCodeString. fold c. clearbody c. clear Hlt.
split_and!.
- intros size. repeat case_match; lia.
- rewrite (int_small Int64) by (cbn; lia). destruct (Z.leb_spec0 0 c); lia.
- lia.
- destruct (decide (c < 2 ^ 31)%Z) as [Hs|Hs].
  + rewrite (int_small Int32) by (cbn; lia). destruct (Z.leb_spec0 0 c); lia.
  + rewrite (int_above Int32 c) by (cbn; lia). cbn [bits].
    destruct (decide (c = 2 ^ 31)%Z) as [->|Hne]; [by vm_compute|].
    rewrite (int_small Int32) by (cbn; lia). repeat case_match; lia.
Qed.

Lemma base64Encode_valid data : isBase64Encoded (base64Encode data) = true.
Proof.
unfold base64Encode. destruct (isBase64Encoded data) eqn:He; [done|].
apply isBase64Encoded_EncodeToString.
Qed.

Lemma base64Encode_twice data : base64Encode (base64Encode data) = base64Encode data.
Proof. unfold base64Encode at 1. by rewrite base64Encode_valid. Qed.

(** X14. What base64Encode returns always decodes as standard base64; it
    decodes to the input when the input was not itself base64, and to the
    decoding of the input otherwise: data that happens to be valid base64
    is not encoded. *)
Theorem base64Encode_decodes (data : string) :
  DecodeString (base64Encode data) =
    Some (match DecodeString data with
          | Some decoded => decoded
          | None => data
          end).
Proof.
destruct (DecodeString data) as [decoded|] eqn:Hd.
- by rewrite (base64Encode_encoded data decoded).
- rewrite (base64Encode_not_encoded data Hd). apply DecodeString_EncodeToString.
Qed.

(** X15. The state function of user data gives the same hash for data and
    for its base64 encoding, so the hash stored for either suppresses the
    difference with the other; a value that is not a string gives the
    empty string. *)
Theorem userDataStateFunc_encoded (sha1_Sum hex_EncodeToString : string → string)
    (k data : string) (d : ResourceData) :
  userDataStateFunc sha1_Sum hex_EncodeToString (VString (base64Encode data)) =
    userDataStateFunc sha1_Sum hex_EncodeToString (VString data) ∧
  userDataDiffSuppressFunc sha1_Sum hex_EncodeToString k (base64Encode data)
    (userDataStateFunc sha1_Sum hex_EncodeToString (VString data)) d = true ∧
  userDataDiffSuppressFunc sha1_Sum hex_EncodeToString k data
    (userDataStateFunc sha1_Sum hex_EncodeToString (VString (base64Encode data))) d = true.
Proof.
unfold userDataDiffSuppressFunc, userDataStateFunc. rewrite base64Encode_twice.
split_and!; [done|apply String.eqb_refl..].
Qed.

End Helpers.

(** ** The data sources *)

Module DataSources.
Import Sdk Resources RouteTable Lifecycle.

(** *** network.VirtualNetwork *)
Record VnetSubnet : Type := mkVnetSubnet { vs_Name : option string }.

Record AddressSpace : Type := mkAddressSpace { AddressPrefixes : option (list string) }.

Record DhcpOptions : Type := mkDhcpOptions { DNSServers : option (list string) }.

Record VirtualNetworkPropertiesFormat : Type := mkVnetProps {
  vnet_AddressSpace : option AddressSpace;
  vnet_DhcpOptions : option DhcpOptions;
  vnet_Subnets : option (list VnetSubnet)
}.

Record VirtualNetwork : Type := mkVnet {
  vnet_Response : Response;
  vnet_ID : option string;
  vnet_Properties : option VirtualNetworkPropertiesFormat
}.

(** *** network.Subnet, as the subnet data source reads it *)
Record Reference : Type := mkReference { ref_ID : option string }.

Record SubnetPropertiesFormat (ipconfig : Type) : Type := mkSubnetProps {
  sn_AddressPrefix : option string;
  sn_NetworkSecurityGroup : option Reference;
  sn_RouteTable : option Reference;
  sn_IPConfigurations : option (list ipconfig)
}.
Arguments mkSubnetProps {ipconfig}.
Arguments sn_AddressPrefix {ipconfig}.
Arguments sn_NetworkSecurityGroup {ipconfig}.
Arguments sn_RouteTable {ipconfig}.
Arguments sn_IPConfigurations {ipconfig}.

Record SubnetResource (ipconfig : Type) : Type := mkSubnetResource {
  sn_Response : Response;
  sn_ID : option string;
  sn_Properties : option (SubnetPropertiesFormat ipconfig)
}.
Arguments mkSubnetResource {ipconfig}.
Arguments sn_Response {ipconfig}.
Arguments sn_ID {ipconfig}.
Arguments sn_Properties {ipconfig}.

(** *** network.SecurityGroup *)
Record SecurityGroupPropertiesFormat (rule : Type) : Type := mkSecGroupProps {
  SecurityRules : option (list rule)
}.
Arguments mkSecGroupProps {rule}.
Arguments SecurityRules {rule}.

Record SecurityGroup (rule : Type) : Type := mkSecGroup {
  sg_Response : Response;
  sg_ID : option string;
  sg_Name : option string;
  sg_Location : option string;
  sg_Properties : option (SecurityGroupPropertiesFormat rule);
  sg_Tags : Tags
}.
Arguments mkSecGroup {rule}.
Arguments sg_Response {rule}.
Arguments sg_ID {rule}.
Arguments sg_Name {rule}.
Arguments sg_Location {rule}.
Arguments sg_Properties {rule}.
Arguments sg_Tags {rule}.

(** *** compute.VirtualMachineImageResource and the list of them *)
Record VirtualMachineImageResource : Type := mkImage {
  img_ID : option string;
  img_Name : option string;
  img_Location : option string
}.

Record ListVirtualMachineImageResource : Type := mkImages {
  img_Value : option (list VirtualMachineImageResource)
}.

(** *** network.RouteTable *)
Record RouteTablePropertiesFormat : Type := mkRouteTableProps {
  rt_Routes : option (list Route);
  rt_Subnets : option (list Subnet)
}.

Record RouteTableResource : Type := mkRouteTable {
  rt_Response : Response;
  rt_ID : option string;
  rt_Location : option string;
  rt_Properties : option RouteTablePropertiesFormat;
  rt_Tags : Tags
}.

(** The clients of the data sources, and the helpers they call that are
    defined outside the sources at hand.  [flattenNetworkSecurityRules] and
    [value_of_maps] give the value [d.Set] is handed for a list of maps. *)
Record Sources (E : Env) : Type := mkSources {
  ipconfig : Type;
  rule : Type;
  flattenSubnetIPConfigurations : option (list ipconfig) → list string;
  flattenNetworkSecurityRules : option (list rule) → value;
  value_of_maps : list (gmap string string) → value;
  vnetClient_Get : string → string → string → cloud E → (VirtualNetwork * option error) * cloud E;
  subnetClient_Get :
    string → string → string → string → cloud E →
    (SubnetResource ipconfig * option error) * cloud E;
  secGroupClient_Get :
    string → string → string → cloud E → (SecurityGroup rule * option error) * cloud E;
  vmImageClient_List :
    string → string → string → string → string → option Z → string → cloud E →
    (ListVirtualMachineImageResource * option error) * cloud E;
  routeTablesClient_Get :
    string → string → string → cloud E → (RouteTableResource * option error) * cloud E
}.
Arguments ipconfig {E}.
Arguments rule {E}.
Arguments flattenSubnetIPConfigurations {E}.
Arguments flattenNetworkSecurityRules {E}.
Arguments value_of_maps {E}.
Arguments vnetClient_Get {E}.
Arguments subnetClient_Get {E}.
Arguments secGroupClient_Get {E}.
Arguments vmImageClient_List {E}.
Arguments routeTablesClient_Get {E}.

(** *** Virtual networks (src/azurestack/data_source_virtual_network.go, lines 59-122) *)

(** [func flattenVnetAddressPrefixes(input *[]string) []interface{}] *)
Definition flattenVnetAddressPrefixes (input : option (list string)) : list string :=
  let prefixes := [] in
  match input with
  | Some myprefixes => foldl (λ prefixes prefix, prefixes ++ [prefix]) prefixes myprefixes
  | None => prefixes
  end.

(** [func flattenVnetSubnetsNames(input *[]network.Subnet) []interface{}];
    [None] when a nil name is dereferenced. *)
Definition flattenVnetSubnetsNames (input : option (list VnetSubnet)) : option (list string) :=
  let subnets := [] in
  match input with
  | Some mysubnets =>
      foldl (λ subnets subnet, out ← subnets; name ← vs_Name subnet; Some (out ++ [name]))
            (Some subnets) mysubnets
  | None => Some subnets
  end.

Section Operations.
Context {E : Env} (K : Clients E) (Src : Sources E).

(** [func dataSourceArmVnetRead] *)
Definition dataSourceArmVnetRead : M E Diagnostics :=
  let* d := getData in
  let resGroup := GetString d "resource_group_name" in
  let name := GetString d "name" in
  let* (resp, err) := sdk (vnetClient_Get Src resGroup name "") EvGet in
  match err with
  | Some e =>
      if ResponseWasNotFound E (vnet_Response resp) then
        ret (Errorf "Error making Read request on Azure virtual network %q (resource group %q): %+v"
               [name; resGroup; e])
      else ret (FromErr (Some e))
  | None =>
      let* id := deref (vnet_ID resp) in
      SetId id ;;
      match vnet_Properties resp with
      | Some props =>
          let* space := deref (vnet_AddressSpace props) in
          let addressSpaces := flattenVnetAddressPrefixes (AddressPrefixes space) in
          let* err := Set_ "address_spaces" (VStrings addressSpaces) in
          match err with
          | Some e => ret (FromErr (Some e))
          | None =>
              let* diags :=
                match vnet_DhcpOptions props with
                | Some options =>
                    let dnsServers := flattenVnetAddressPrefixes (DNSServers options) in
                    let* err := Set_ "dns_servers" (VStrings dnsServers) in
                    match err with
                    | Some e => ret (Some (FromErr (Some e)))
                    | None => ret None
                    end
                | None => ret None
                end in
              match diags with
              | Some ds => ret ds
              | None =>
                  let* subnets := deref (flattenVnetSubnetsNames (vnet_Subnets props)) in
                  let* err := Set_ "subnets" (VStrings subnets) in
                  match err with
                  | Some e => ret (FromErr (Some e))
                  | None => ret []
                  end
              end
          end
      | None => ret []
      end
  end.

(** *** Subnets (src/unnamed/part_001, lines 55-96) *)

(** [func dataSourceArmSubnetRead] *)
Definition dataSourceArmSubnetRead : M E Diagnostics :=
  let* d := getData in
  let name := GetString d "name" in
  let virtualNetworkName := GetString d "virtual_network_name" in
  let resourceGroup := GetString d "resource_group_name" in
  let* (resp, err) := sdk (subnetClient_Get Src resourceGroup virtualNetworkName name "") EvGet in
  match err with
  | Some e =>
      if ResponseWasNotFound E (sn_Response resp) then
        ret (Errorf "Error: Subnet %q (Virtual Network %q / Resource Group %q) was not found"
               [name; resourceGroup; virtualNetworkName])
      else ret (Errorf "Error making Read request on Azure Subnet %q: %+v" [name; e])
  | None =>
      let* id := deref (sn_ID resp) in
      SetId id ;;
      Set_ "name" (VString name) ;;
      Set_ "resource_group_name" (VString resourceGroup) ;;
      Set_ "virtual_network_name" (VString virtualNetworkName) ;;
      match sn_Properties resp with
      | Some props =>
          Set_ "address_prefix" (of_ptr VString (sn_AddressPrefix props)) ;;
          match sn_NetworkSecurityGroup props with
          | Some nsg => Set_ "network_security_group_id" (of_ptr VString (ref_ID nsg))
          | None => Set_ "network_security_group_id" (VString "")
          end ;;
          match sn_RouteTable props with
          | Some rt => Set_ "route_table_id" (of_ptr VString (ref_ID rt))
          | None => Set_ "route_table_id" (VString "")
          end ;;
          let* err :=
            Set_ "ip_configurations"
              (VStrings (flattenSubnetIPConfigurations Src (sn_IPConfigurations props))) in
          match err with
          | Some e => ret (FromErr (Some e))
          | None => ret []
          end
      | None => ret []
      end
  end.

(** *** Network security groups (src/unnamed/part_000, lines 136-168) *)

(** [func dataSourceArmNetworkSecurityGroupRead] *)
Definition dataSourceArmNetworkSecurityGroupRead : M E Diagnostics :=
  let* d := getData in
  let resourceGroup := GetString d "resource_group_name" in
  let name := GetString d "name" in
  let* (resp, err) := sdk (secGroupClient_Get Src resourceGroup name "") EvGet in
  match err with
  | Some e =>
      (if ResponseWasNotFound E (sg_Response resp) then SetId "" else ret tt) ;;
      ret (Errorf "Error making Read request on Network Security Group %q (Resource Group %q): %+v"
             [name; resourceGroup; e])
  | None =>
      let* id := deref (sg_ID resp) in
      SetId id ;;
      Set_ "name" (of_ptr VString (sg_Name resp)) ;;
      Set_ "resource_group_name" (VString resourceGroup) ;;
      match sg_Location resp with
      | Some location => Set_ "location" (VString (azureStackNormalizeLocation E location))
      | None => ret None
      end ;;
      let* diags :=
        match sg_Properties resp with
        | Some props =>
            let flattenedRules := flattenNetworkSecurityRules Src (SecurityRules props) in
            let* err := Set_ "security_rule" flattenedRules in
            match err with
            | Some e => ret (Some (Errorf "Error flattening `security_rule`: %+v" [e]))
            | None => ret None
            end
        | None => ret None
        end in
      match diags with
      | Some ds => ret ds
      | None =>
          modify (λ d, flattenAndSetTags E d (sg_Tags resp)) ;;
          ret []
      end
  end.

(** *** Platform images (src/unnamed/part_000, lines 208-235) *)

(** [func dataSourceArmPlatformImageRead]; the index expression
    [( *result.Value)[len( *result.Value)-1]] panics on a nil pointer and on
    an empty slice. *)
Definition dataSourceArmPlatformImageRead : M E Diagnostics :=
  let* d := getData in
  let location := azureStackNormalizeLocation E (GetString d "location") in
  let publisher := GetString d "publisher" in
  let offer := GetString d "offer" in
  let sku := GetString d "sku" in
  let* (result, err) :=
    sdk (vmImageClient_List Src location publisher offer sku "" (Some (int32 1000)) "name") EvGet in
  match err with
  | Some e => ret (Errorf "Error reading Platform Images: %+v" [e])
  | None =>
      let* images := deref (img_Value result) in
      let* latestVersion := deref (last images) in
      let* id := deref (img_ID latestVersion) in
      SetId id ;;
      match img_Location latestVersion with
      | Some location => Set_ "location" (VString (azureStackNormalizeLocation E location))
      | None => ret None
      end ;;
      Set_ "publisher" (VString publisher) ;;
      Set_ "offer" (VString offer) ;;
      Set_ "sku" (VString sku) ;;
      Set_ "version" (of_ptr VString (img_Name latestVersion)) ;;
      ret []
  end.

(** *** Resource groups (src/unnamed/part_000, lines 257-269) *)

(** [func dataSourceArmResourceGroupRead] *)
Definition dataSourceArmResourceGroupRead : M E Diagnostics :=
  let* d := getData in
  let name := GetString d "name" in
  let* (resp, err) := sdk (resourceGroupsClient_Get K name) EvGet in
  match err with
  | Some e => ret (FromErr (Some e))
  | None =>
      let* id := deref (group_ID resp) in
      SetId id ;;
      resourceArmResourceGroupRead K
  end.

(** *** Route tables (src/unnamed/part_000, lines 386-421) *)

(** [func dataSourceArmRouteTableRead] *)
Definition dataSourceArmRouteTableRead : M E Diagnostics :=
  let* d := getData in
  let name := GetString d "name" in
  let resourceGroup := GetString d "resource_group_name" in
  let* (resp, err) := sdk (routeTablesClient_Get Src resourceGroup name "") EvGet in
  match err with
  | Some e =>
      if ResponseWasNotFound E (rt_Response resp) then
        ret (Errorf "Error: Route Table %q (Resource Group %q) was not found" [name; resourceGroup])
      else ret (Errorf "Error making Read request on Azure Route Table %q: %+v" [name; e])
  | None =>
      let* id := deref (rt_ID resp) in
      SetId id ;;
      Set_ "name" (VString name) ;;
      Set_ "resource_group_name" (VString resourceGroup) ;;
      match rt_Location resp with
      | Some location => Set_ "location" (VString (azureStackNormalizeLocation E location))
      | None => ret None
      end ;;
      let* diags :=
        match rt_Properties resp with
        | Some props =>
            let* routes := deref (flattenRouteTableDataSourceRoutes (rt_Routes props)) in
            let* err := Set_ "route" (value_of_maps Src routes) in
            match err with
            | Some e => ret (Some (FromErr (Some e)))
            | None =>
                let* subnets := deref (flattenRouteTableDataSourceSubnets (rt_Subnets props)) in
                let* err := Set_ "subnets" (VStrings subnets) in
                match err with
                | Some e => ret (Some (FromErr (Some e)))
                | None => ret None
                end
            end
        | None => ret None
        end in
      match diags with
      | Some ds => ret ds
      | None =>
          modify (λ d, flattenAndSetTags E d (rt_Tags resp)) ;;
          ret []
      end
  end.

End Operations.


Section Proofs.
Context {E : Env} (K : Clients E) (Src : Sources E).

Lemma foldl_snoc {A} (l : list A) : ∀ acc, foldl (λ acc a, acc ++ [a]) acc l = acc ++ l.
Proof.
induction l as [|a l IH]; intros acc; cbn; [by rewrite app_nil_r|].
by rewrite IH, <- app_assoc.
Qed.

Lemma mapM_None_Exists {A B} (f : A → option B) (l : list A) :
  mapM f l = None ↔ Exists (λ a, f a = None) l.
Proof.
induction l as [|a l IH]; cbn.
- split; [done|]. by intros ?%Exists_nil.
- rewrite Exists_cons. destruct (f a) as [b|] eqn:Hf; cbn.
  + destruct (mapM f l); cbn.
    * split; [done|]. intros [?|H]; [done|]. by apply IH in H.
    * split; [|done]. intros _. right. by apply IH.
  + split; [by left|done].
Qed.

Lemma fmap_Some_Forall2 {A B} (f : A → option B) (l : list A) (names : list B) :
  f <$> l = Some <$> names ↔ Forall2 (λ a b, f a = Some b) l names.
Proof.
revert names. induction l as [|a l IH]; intros [|n names]; cbn.
- split; [constructor|done].
- split; [done|]. intros H. inversion H.
- split; [done|]. intros H. inversion H.
- rewrite Forall2_cons, <- IH. split.
  + by intros [= -> ->].
  + intros [-> ->]. done.
Qed.

(** X16. The helpers of the virtual network data source keep the order of
    what they flatten: the address prefixes are returned as they are, no
    prefixes for a nil pointer; the names of the subnets are returned in
    order, and the function panics exactly when a subnet has no name. *)
Theorem flattenVnet_in_order :
  (∀ input, flattenVnetAddressPrefixes input = default [] input) ∧
  flattenVnetSubnetsNames None = Some [] ∧
  (∀ subnets names,
     flattenVnetSubnetsNames (Some subnets) = Some names ↔ vs_Name <$> subnets = Some <$> names) ∧
  (∀ input,
     flattenVnetSubnetsNames input = None ↔
     ∃ subnets, input = Some subnets ∧ Exists (λ subnet, vs_Name subnet = None) subnets).
Proof.
split_and!.
- intros [l|]; [|done]. cbn. by rewrite foldl_snoc.
- done.
- intros subnets names. unfold flattenVnetSubnetsNames. rewrite foldl_append_Some. cbn.
  rewrite fmap_Some_Forall2, <- mapM_Some. by destruct (mapM vs_Name subnets).
- intros [subnets|]; cbn.
  + unfold flattenVnetSubnetsNames. rewrite foldl_append_Some. cbn. split.
    * intros Hn. exists subnets. split; [done|]. apply mapM_None_Exists.
      by destruct (mapM vs_Name subnets).
    * intros (? & [= <-] & Hex). apply mapM_None_Exists in Hex. by rewrite Hex.
  + split; [done|]. by intros (? & ? & ?).
Qed.

Ltac appends :=
  repeat first
    [ apply appends_ret | apply appends_panic | apply appends_getData | apply appends_modify
    | apply appends_SetId | apply appends_Set | apply appends_Get | apply appends_deref
    | apply appends_bind; [|intros]
    | match goal with |- appends (match ?x with _ => _ end) => destruct x end
    | match goal with |- appends (if ?x then _ else _) => destruct x end
    | match goal with |- appends (let (_, _) := ?x in _) => destruct x end ].

(** An operation that starts with a GET and goes on with [k] has the GET
    as the first event of every run. *)
Lemma get_comes_first {A} (call : ResourceData → cloud E → (A * option error) * cloud E)
    (k : ResourceData → A * option error → M E Diagnostics) (w : world E) :
  (∀ d r, appends (k d r)) →
  ∃ ok evs,
    log ((let* d := getData in let* r := sdk (call d) EvGet in k d r) w).2
      = log w ++ EvGet ok :: evs.
Proof.
intros Hk. unfold bind, sdk, getData. destruct (call (data w) (azure w)) as [[a err] c]; cbn.
destruct (Hk (data w) (a, err) (mkWorld c (data w) (log w ++ [EvGet (succeeded err)])))
  as (evs & Hl & _).
exists (succeeded err), evs. cbn in *. by rewrite Hl, <- app_assoc.
Qed.

(** X17. Every data source starts with its GET (the platform images with
    their list call), made with the names of the resource data.  When that
    call returns an error, the data sources of virtual networks, subnets,
    route tables, resource groups and platform images make no other call,
    return diagnostics and leave the resource data as it was.  The data
    source of network security groups returns diagnostics too, and it sets
    the ID to the empty string when the response is Not Found and leaves
    the resource data as it was otherwise. *)
Theorem data_source_reports_failed_get (w : world E) (e : error) (c : cloud E) :
  let d := data w in
  let fails (Read : M E Diagnostics) :=
    ∃ diags, diags ≠ [] ∧ Read w = (Some diags, mkWorld c d (log w ++ [EvGet false])) in
  (∀ Read,
     Read ∈ [dataSourceArmVnetRead Src; dataSourceArmSubnetRead Src;
             dataSourceArmRouteTableRead Src; dataSourceArmResourceGroupRead K;
             dataSourceArmPlatformImageRead Src; dataSourceArmNetworkSecurityGroupRead Src] →
     ∃ ok evs, log (Read w).2 = log w ++ EvGet ok :: evs) ∧
  (∀ resp,
     vnetClient_Get Src (GetString d "resource_group_name") (GetString d "name") "" (azure w)
       = ((resp, Some e), c) →
     fails (dataSourceArmVnetRead Src)) ∧
  (∀ resp,
     subnetClient_Get Src (GetString d "resource_group_name")
       (GetString d "virtual_network_name") (GetString d "name") "" (azure w)
       = ((resp, Some e), c) →
     fails (dataSourceArmSubnetRead Src)) ∧
  (∀ resp,
     routeTablesClient_Get Src (GetString d "resource_group_name") (GetString d "name") ""
       (azure w) = ((resp, Some e), c) →
     fails (dataSourceArmRouteTableRead Src)) ∧
  (∀ resp,
     resourceGroupsClient_Get K (GetString d "name") (azure w) = ((resp, Some e), c) →
     fails (dataSourceArmResourceGroupRead K)) ∧
  (∀ result,
     vmImageClient_List Src (azureStackNormalizeLocation E (GetString d "location"))
       (GetString d "publisher") (GetString d "offer") (GetString d "sku") ""
       (Some (int32 1000)) "name" (azure w) = ((result, Some e), c) →
     fails (dataSourceArmPlatformImageRead Src)) ∧
  (∀ resp,
     secGroupClient_Get Src (GetString d "resource_group_name") (GetString d "name") ""
       (azure w) = ((resp, Some e), c) →
     ∃ diags, diags ≠ [] ∧
       dataSourceArmNetworkSecurityGroupRead Src w =
         (Some diags,
          if ResponseWasNotFound E (sg_Response resp)
          then mkWorld c (mkData "" (attrs d)) (log w ++ [EvGet false; EvSetId ""])
          else mkWorld c d (log w ++ [EvGet false]))).
Proof.
cbn zeta. split_and!.
- intros Read HR.
  repeat (apply elem_of_cons in HR as [->|HR]); [| | | | | |by apply elem_of_nil in HR].
  + unfold dataSourceArmVnetRead. apply get_comes_first. intros d [resp [e0|]]; appends.
  + unfold dataSourceArmSubnetRead. apply get_comes_first. intros d [resp [e0|]]; appends.
  + unfold dataSourceArmRouteTableRead. apply get_comes_first. intros d [resp [e0|]]; appends.
  + unfold dataSourceArmResourceGroupRead. apply get_comes_first.
    intros d [resp [e0|]]; unfold resourceArmResourceGroupRead; appends.
  + unfold dataSourceArmPlatformImageRead. apply get_comes_first.
    intros d [resp [e0|]]; appends.
  + unfold dataSourceArmNetworkSecurityGroupRead. apply get_comes_first.
    intros d [resp [e0|]]; appends.
- intros resp Hg. unfold dataSourceArmVnetRead, bind, getData, sdk. cbn. rewrite Hg. cbn.
  destruct (ResponseWasNotFound E (vnet_Response resp)); (eexists; split; [|reflexivity]; done).
- intros resp Hg. unfold dataSourceArmSubnetRead, bind, getData, sdk. cbn. rewrite Hg. cbn.
  destruct (ResponseWasNotFound E (sn_Response resp)); (eexists; split; [|reflexivity]; done).
- intros resp Hg. unfold dataSourceArmRouteTableRead, bind, getData, sdk. cbn. rewrite Hg. cbn.
  destruct (ResponseWasNotFound E (rt_Response resp)); (eexists; split; [|reflexivity]; done).
- intros resp Hg. unfold dataSourceArmResourceGroupRead, bind, getData, sdk. cbn. rewrite Hg.
  cbn. eexists; split; [|reflexivity]; done.
- intros result Hg. unfold dataSourceArmPlatformImageRead, bind, getData, sdk. cbn. rewrite Hg.
  cbn. eexists; split; [|reflexivity]; done.
- intros resp Hg. unfold dataSourceArmNetworkSecurityGroupRead, bind, getData, sdk. cbn.
  rewrite Hg. cbn. destruct (ResponseWasNotFound E (sg_Response resp)); cbn.
  + eexists. split; [|by rewrite <- app_assoc]. done.
  + eexists. split; [|reflexivity]. done.
Qed.

(** X18. The platform image data source takes the last image of the list
    the service returns for the location, publisher, offer and sku of the
    resource data: its ID becomes the ID of the resource data.  It panics
    when the list is nil or empty. *)
Theorem platform_image_takes_last (w : world E) (result : ListVirtualMachineImageResource)
    (c : cloud E) :
  vmImageClient_List Src (azureStackNormalizeLocation E (GetString (data w) "location"))
    (GetString (data w) "publisher") (GetString (data w) "offer") (GetString (data w) "sku") ""
    (Some (int32 1000)) "name" (azure w) = ((result, None), c) →
  (img_Value result = None ∨ img_Value result = Some [] →
   dataSourceArmPlatformImageRead Src w =
     (None, mkWorld c (data w) (log w ++ [EvGet true]))) ∧
  (∀ images latest id,
     img_Value result = Some (images ++ [latest]) → img_ID latest = Some id →
     ∃ w', dataSourceArmPlatformImageRead Src w = (Some [], w') ∧ Id (data w') = id ∧
           azure w' = c ∧ log w' = log w ++ [EvGet true; EvSetId id]).
Proof.
intros Hl. split.
- intros Hv. unfold dataSourceArmPlatformImageRead. run. rewrite Hl. cbn.
  by destruct Hv as [->| ->].
- intros images latest id Hv Hid. unfold dataSourceArmPlatformImageRead. run.
  rewrite Hl. cbn. rewrite Hv. cbn. rewrite last_snoc. cbn. rewrite Hid. cbn.
  repeat first [ progress simplify_eq/= | case_match
               | progress (unfold ret, panic, bind, modify, emit in *) ];
    eexists; split_and!; try done; by rewrite <- app_assoc.
Qed.

End Proofs.

(** *** Data sources with fixed answers

    The data sources of [fixed_answers]: every GET answers [get], and the
    list of platform images holds two versions. *)
Definition fixed_sources (get : Response * option error) (create poll : option error)
    (delete : Response * option error) : Sources (fixed_answers get create poll delete) :=
  mkSources (fixed_answers get create poll delete)
    (* ipconfig *) string
    (* rule *) string
    (* flattenSubnetIPConfigurations *) (default [])
    (* flattenNetworkSecurityRules *) (λ rules, VStrings (default [] rules))
    (* value_of_maps *) (λ maps, VStrings (default "" <$> ((.!! "name") <$> maps)))
    (* vnetClient_Get *) (λ _ _ _ c, ((mkVnet get.1 (Some "/rg/vnet") None, get.2), c))
    (* subnetClient_Get *)
    (λ _ _ _ _ c, ((mkSubnetResource get.1 (Some "/rg/vnet/subnet") None, get.2), c))
    (* secGroupClient_Get *)
    (λ _ _ _ c, ((mkSecGroup get.1 (Some "/rg/nsg") (Some "nsg") None None ∅, get.2), c))
    (* vmImageClient_List *)
    (λ _ _ _ _ _ _ _ c,
       ((mkImages (Some [mkImage (Some "/images/1.0") (Some "1.0") None;
                         mkImage (Some "/images/2.0") (Some "2.0") None]), get.2), c))
    (* routeTablesClient_Get *)
    (λ _ _ _ c, ((mkRouteTable get.1 (Some "/rg/rt") None None ∅, get.2), c)).

Definition gone_sources : Sources gone :=
  fixed_sources (Some StatusNotFound, Some "404 Not Found") None None (None, None).

Definition answering_sources : Sources answering :=
  fixed_sources (Some StatusOK, None) None None (None, None).

Lemma data_source_reports_failed_get_witness :
  ∃ diags, diags ≠ [] ∧
    dataSourceArmNetworkSecurityGroupRead gone_sources (www_record gone tt) =
      (Some diags,
       @mkWorld gone tt (mkData "" (attrs (data (www_record gone tt))))
         [EvGet false; EvSetId ""]).
Proof.
apply (proj2 (proj2 (proj2 (proj2 (proj2 (proj2
         (data_source_reports_failed_get gone_clients gone_sources (www_record gone tt)
            "404 Not Found" tt))))))
         (mkSecGroup (Some StatusNotFound) (Some "/rg/nsg") (Some "nsg") None None ∅)).
reflexivity.
Defined.

Lemma platform_image_takes_last_witness :
  ∃ w', dataSourceArmPlatformImageRead answering_sources (www_record answering tt)
        = (Some [], w') ∧
        Id (data w') = "/images/2.0" ∧ azure w' = tt ∧
        log w' = [EvGet true; EvSetId "/images/2.0"].
Proof.
apply (proj2 (platform_image_takes_last answering_sources (www_record answering tt)
                (mkImages (Some [mkImage (Some "/images/1.0") (Some "1.0") None;
                                 mkImage (Some "/images/2.0") (Some "2.0") None])) tt
                eq_refl)
         [mkImage (Some "/images/1.0") (Some "1.0") None]
         (mkImage (Some "/images/2.0") (Some "2.0") None)); reflexivity.
Defined.

End DataSources.

(** ** Storage containers: Create, Read and Delete (src/azurestack/resource_arm_route.go, lines 258-392) *)

Module StorageContainerState.
Import Sdk Resources Lifecycle.

(** [storage.Container], with what the resource reads. *)
Record ContainerProperties : Type := mkContainerProps {
  LastModified : string;
  LeaseStatus : string;
  LeaseState : string;
  LeaseDuration : string
}.

Record Container : Type := mkContainer {
  cont_Name : string;
  cont_Properties : ContainerProperties
}.

(** [storage.ContainerListResponse] *)
Record ContainerListResponse : Type := mkContainerList { Containers : list Container }.

(** The blob storage the resource talks to.  [getBlobStorageClientForStorageAccount]
    is defined outside the sources at hand; [Retry] is [resource.Retry] of
    the plugin SDK, which calls the function it is given until that
    returns nil or the time is over. *)
Record Blob (E : Env) : Type := mkBlob {
  BlobStorageClient : Type;
  ContainerReference : Type;
  getBlobStorageClientForStorageAccount :
    string → string → cloud E → (option BlobStorageClient * bool * option error) * cloud E;
  GetContainerReference : BlobStorageClient → string → ContainerReference;
  ListContainers :
    BlobStorageClient → string → Z → cloud E →
    (option ContainerListResponse * option error) * cloud E;
  CreateIfNotExists : ContainerReference → cloud E → (bool * option error) * cloud E;
  SetPermissions : ContainerReference → string → cloud E → option error * cloud E;
  DeleteIfExists : ContainerReference → cloud E → (bool * option error) * cloud E;
  Retry : Z → (cloud E → option error * cloud E) → cloud E → option error * cloud E
}.
Arguments BlobStorageClient {E}.
Arguments ContainerReference {E}.
Arguments getBlobStorageClientForStorageAccount {E}.
Arguments GetContainerReference {E}.
Arguments ListContainers {E}.
Arguments CreateIfNotExists {E}.
Arguments SetPermissions {E}.
Arguments DeleteIfExists {E}.
Arguments Retry {E}.

(** A call of the storage SDK: it moves the service. *)
Definition call {E A} (f : cloud E → A * cloud E) : M E A :=
  λ w, let '(a, c) := f (azure w) in (Some a, mkWorld c (data w) (log w)).

Section Operations.
Context {E : Env} (B : Blob E).

(** [func checkContainerIsCreated]: the function handed to [resource.Retry];
    every error is retryable. *)
Definition checkContainerIsCreated (reference : ContainerReference B) :
    cloud E → option error * cloud E :=
  λ c, let '((_, err), c') := CreateIfNotExists B reference c in
       match err with
       | Some e => (Some e, c')
       | None => (None, c')
       end.

(** The map [props] of the loop of Read. *)
Definition props_of (cont : Container) : gmap string string :=
  let props := ∅ in
  let props := <["last_modified" := LastModified (cont_Properties cont)]> props in
  let props := <["lease_status" := LeaseStatus (cont_Properties cont)]> props in
  let props := <["lease_state" := LeaseState (cont_Properties cont)]> props in
  let props := <["lease_duration" := LeaseDuration (cont_Properties cont)]> props in
  props.

(** [func resourceArmStorageContainerRead]; the loop goes through all the
    containers of the answer. *)
Definition resourceArmStorageContainerRead : M E Diagnostics :=
  let* d := getData in
  let resourceGroupName := GetString d "resource_group_name" in
  let storageAccountName := GetString d "storage_account_name" in
  let* (blobClient, accountExists, err) :=
    call (getBlobStorageClientForStorageAccount B resourceGroupName storageAccountName) in
  match err with
  | Some e => ret (FromErr (Some e))
  | None =>
      if negb accountExists then SetId "" ;; ret []
      else
        let name := GetString d "name" in
        let* blobClient := deref blobClient in
        let* (containers, err) := call (ListContainers B blobClient name 90) in
        match err with
        | Some e =>
            ret (Errorf "Failed to retrieve storage containers in account %q: %s" [name; e])
        | None =>
            let* containers := deref containers in
            let* found :=
              foldl (λ (loop : M E bool) cont,
                       let* found := loop in
                       if decide (cont_Name cont = name) then
                         Set_ "properties" (VTags (props_of cont)) ;;
                         ret true
                       else ret found)
                    (ret false) (Containers containers) in
            (if negb found then SetId "" else ret tt) ;;
            ret []
        end
  end.

(** [func resourceArmStorageContainerCreate] *)
Definition resourceArmStorageContainerCreate : M E Diagnostics :=
  let* d := getData in
  let resourceGroupName := GetString d "resource_group_name" in
  let storageAccountName := GetString d "storage_account_name" in
  let* (blobClient, accountExists, err) :=
    call (getBlobStorageClientForStorageAccount B resourceGroupName storageAccountName) in
  match err with
  | Some e => ret (FromErr (Some e))
  | None =>
      if negb accountExists then
        ret (Errorf "Storage Account %q Not Found" [storageAccountName])
      else
        let name := GetString d "name" in
        let accessType :=
          if decide (GetString d "container_access_type" = "private") then ""
          else GetString d "container_access_type" in
        let* blobClient := deref blobClient in
        let reference := GetContainerReference B blobClient name in
        let* err := call (Retry B 120 (checkContainerIsCreated reference)) in
        match err with
        | Some e =>
            ret (Errorf "Error creating container %q in storage account %q: %s"
                   [name; storageAccountName; e])
        | None =>
            let* err := call (SetPermissions B reference accessType) in
            match err with
            | Some e =>
                ret (Errorf "Error setting permissions for container %s in storage account %s: %+v"
                       [name; storageAccountName; e])
            | None =>
                SetId name ;;
                resourceArmStorageContainerRead
            end
        end
  end.

(** [func resourceArmStorageContainerDelete] *)
Definition resourceArmStorageContainerDelete : M E Diagnostics :=
  let* d := getData in
  let resourceGroupName := GetString d "resource_group_name" in
  let storageAccountName := GetString d "storage_account_name" in
  let* (blobClient, accountExists, err) :=
    call (getBlobStorageClientForStorageAccount B resourceGroupName storageAccountName) in
  match err with
  | Some e => ret (FromErr (Some e))
  | None =>
      if negb accountExists then ret []
      else
        let name := GetString d "name" in
        let* blobClient := deref blobClient in
        let reference := GetContainerReference B blobClient name in
        let* (_, err) := call (DeleteIfExists B reference) in
        match err with
        | Some e =>
            ret (Errorf "Error deleting storage container %q from storage account %q: %s"
                   [name; storageAccountName; e])
        | None =>
            SetId "" ;;
            ret []
        end
  end.

End Operations.

(** A container of the list has exactly the name. *)
Definition found_in (name : string) (containers : list Container) : bool :=
  existsb (λ cont, bool_decide (cont_Name cont = name)) containers.

Section Proofs.
Context {E : Env} (B : Blob E).

Lemma Set_keeps_id key v (w : world E) :
  ∃ err w', Set_ key v w = (Some err, w') ∧
    Id (data w') = Id (data w) ∧ azure w' = azure w ∧ log w' = log w.
Proof.
unfold Set_. destruct (set_refused E key v) as [e|]; cbn.
- by exists (Some e), w.
- by eexists None, _.
Qed.

Lemma loop_found (name : string) (containers : list Container) :
  ∀ (loop : M E bool) (w0 w1 : world E) (found : bool),
    loop w0 = (Some found, w1) →
    ∃ w2,
      foldl (λ (loop : M E bool) cont,
               let* found := loop in
               if decide (cont_Name cont = name) then
                 Set_ "properties" (VTags (props_of cont)) ;;
                 ret true
               else ret found)
            loop containers w0 = (Some (found || found_in name containers), w2) ∧
      Id (data w2) = Id (data w1) ∧ azure w2 = azure w1 ∧ log w2 = log w1.
Proof.
induction containers as [|cont containers IH]; intros loop w0 w1 found Hl; cbn.
- exists w1. by rewrite orb_false_r.
- set (loop' := let* found := loop in
                 if decide (cont_Name cont = name) then
                   Set_ "properties" (VTags (props_of cont)) ;; ret true
                 else ret found).
  assert (∃ w1', loop' w0 = (Some (found || bool_decide (cont_Name cont = name)), w1') ∧
            Id (data w1') = Id (data w1) ∧ azure w1' = azure w1 ∧ log w1' = log w1)
    as (w1' & Hl' & Hi & Ha & Hlog).
  { unfold loop'. unfold bind at 1. rewrite Hl. case_bool_decide as Hn.
    - rewrite decide_True by done.
      destruct (Set_keeps_id "properties" (VTags (props_of cont)) w1)
        as (err & w1' & Hs & ? & ? & ?).
      exists w1'. unfold bind. rewrite Hs. by rewrite orb_true_r.
    - rewrite decide_False by done. exists w1. by rewrite orb_false_r. }
  destruct (IH loop' w0 w1' _ Hl') as (w2 & Hf & ? & ? & ?).
  exists w2. rewrite Hf. split_and!; [|congruence..].
  unfold found_in. cbn. by rewrite orb_assoc.
Qed.

(** X19. Read of a storage container keeps the ID exactly when the list of
    the account holds a container of exactly the name, and clears it
    otherwise; it clears it too when the storage account does not exist.
    In these cases it returns no diagnostics. *)
Theorem storage_container_read_keeps_found (w : world E)
    (blobClient : option (BlobStorageClient B)) (c : cloud E) :
  (getBlobStorageClientForStorageAccount B (GetString (data w) "resource_group_name")
     (GetString (data w) "storage_account_name") (azure w) = ((blobClient, false, None), c) →
   resourceArmStorageContainerRead B w =
     (Some [], mkWorld c (mkData "" (attrs (data w))) (log w ++ [EvSetId ""]))) ∧
  (∀ client containers c',
     getBlobStorageClientForStorageAccount B (GetString (data w) "resource_group_name")
       (GetString (data w) "storage_account_name") (azure w) = ((Some client, true, None), c) →
     ListContainers B client (GetString (data w) "name") 90 c
       = ((Some (mkContainerList containers), None), c') →
     ∃ w', resourceArmStorageContainerRead B w = (Some [], w') ∧ azure w' = c' ∧
       Id (data w') = if found_in (GetString (data w) "name") containers
                      then Id (data w) else "").
Proof.
split.
- intros Hg. unfold resourceArmStorageContainerRead. unfold bind at 1, getData. cbn.
  unfold bind at 1, call at 1. by rewrite Hg.
- intros client containers c' Hg Hl. unfold resourceArmStorageContainerRead.
  unfold bind at 1, getData. cbn. unfold bind at 1, call at 1. rewrite Hg. cbn.
  unfold bind at 1, call at 1. cbn. rewrite Hl. cbn.
  unfold bind at 1.
  destruct (loop_found (GetString (data w) "name") containers (ret false)
              (mkWorld c' (data w) (log w)) (mkWorld c' (data w) (log w)) false eq_refl)
    as (w2 & -> & Hi & Ha & Hlog).
  cbn. destruct (found_in _ containers); cbn.
  + exists w2. by split_and!.
  + eexists. split; [done|]. cbn. by split.
Qed.

(** X20. Create and Delete of a storage container change the ID only after
    the storage service did what was asked.  Delete clears the ID when
    DeleteIfExists returns no error, and returns diagnostics with the
    resource data unchanged when it returns one; when the storage account
    does not exist Delete returns no diagnostics and leaves the ID.  Create
    returns diagnostics, with the resource data unchanged, when the lookup
    of the account returns an error, when the account does not exist, when
    the retried creation of the container returns an error, and when
    setting the permissions of the container returns an error; only when
    all of these succeeded it sets the ID to the name and goes on as Read,
    from the state of the service the last call left.  The permissions it
    sets are the configured access type, the empty one for "private". *)
Theorem storage_container_id_after_success (w : world E) :
  let d := data w in
  let name := GetString d "name" in
  (∀ client c deleted err c',
     getBlobStorageClientForStorageAccount B (GetString d "resource_group_name")
       (GetString d "storage_account_name") (azure w) = ((Some client, true, None), c) →
     DeleteIfExists B (GetContainerReference B client name) c = ((deleted, err), c') →
     ∃ diags w', resourceArmStorageContainerDelete B w = (Some diags, w') ∧ azure w' = c' ∧
       match err with
       | None => diags = [] ∧ data w' = mkData "" (attrs d)
       | Some _ => diags ≠ [] ∧ data w' = d
       end) ∧
  (∀ blobClient c,
     getBlobStorageClientForStorageAccount B (GetString d "resource_group_name")
       (GetString d "storage_account_name") (azure w) = ((blobClient, false, None), c) →
     resourceArmStorageContainerDelete B w = (Some [], mkWorld c d (log w))) ∧
  (let fails (c : cloud E) :=
     ∃ diags, diags ≠ [] ∧
       resourceArmStorageContainerCreate B w = (Some diags, mkWorld c d (log w)) in
   match getBlobStorageClientForStorageAccount B (GetString d "resource_group_name")
           (GetString d "storage_account_name") (azure w) with
   | ((_, _, Some _), c) => fails c
   | ((_, false, None), c) => fails c
   | ((None, true, None), c) =>
       resourceArmStorageContainerCreate B w = (None, mkWorld c d (log w))
   | ((Some client, true, None), c) =>
       let reference := GetContainerReference B client name in
       match Retry B 120 (checkContainerIsCreated B reference) c with
       | (Some _, c1) => fails c1
       | (None, c1) =>
           match SetPermissions B reference
                   (if decide (GetString d "container_access_type" = "private") then ""
                    else GetString d "container_access_type") c1 with
           | (Some _, c2) => fails c2
           | (None, c2) =>
               resourceArmStorageContainerCreate B w =
                 resourceArmStorageContainerRead B
                   (mkWorld c2 (mkData name (attrs d)) (log w ++ [EvSetId name]))
           end
       end
   end).
Proof.
cbn zeta. split_and!.
- intros client c deleted err c' Hg Hd. unfold resourceArmStorageContainerDelete.
  unfold bind at 1, getData. cbn. unfold bind at 1, call at 1. rewrite Hg. cbn.
  unfold bind at 1, call at 1. cbn. rewrite Hd. destruct err as [e|]; cbn.
  + by eexists _, _.
  + by eexists _, _.
- intros blobClient c Hg. unfold resourceArmStorageContainerDelete.
  unfold bind at 1, getData. cbn. unfold bind at 1, call at 1. by rewrite Hg.
- unfold resourceArmStorageContainerCreate, bind, call, getData. cbn.
  destruct (getBlobStorageClientForStorageAccount B _ _ _) as [[[[client|] [|]] [e|]] c]; cbn;
    try (eexists; split; [|reflexivity]; done); [|done].
  destruct (Retry B _ _ _) as [[e|] c1]; cbn; [eexists; split; [|reflexivity]; done|].
  destruct (SetPermissions B _ _ _) as [[e|] c2]; cbn; [eexists; split; [|reflexivity]; done|].
  done.
Qed.

End Proofs.

(** *** A storage account with fixed answers

    The account holds [containers]; creating a container and setting its
    permissions succeed, and deleting answers with the error [delete]. *)
Definition fixed_blob (containers : list Container) (delete : option error) : Blob answering :=
  mkBlob answering
    (* BlobStorageClient *) unit
    (* ContainerReference *) string
    (* getBlobStorageClientForStorageAccount *) (λ _ _ c, ((Some tt, true, None), c))
    (* GetContainerReference *) (λ _ name, name)
    (* ListContainers *) (λ _ _ _ c, ((Some (mkContainerList containers), None), c))
    (* CreateIfNotExists *) (λ _ c, ((true, None), c))
    (* SetPermissions *) (λ _ _ c, (None, c))
    (* DeleteIfExists *) (λ _ c, ((true, delete), c))
    (* Retry *) (λ _ f c, f c).

(** The container "www" and a container whose name "www" is a prefix of. *)
Definition www_containers : list Container :=
  [mkContainer "www-old" (mkContainerProps "Mon" "unlocked" "available" "");
   mkContainer "www" (mkContainerProps "Tue" "unlocked" "available" "")].

Lemma storage_container_read_witness :
  ∃ w', resourceArmStorageContainerRead (fixed_blob www_containers None) (www_record answering tt)
        = (Some [], w') ∧
        azure w' = tt ∧
        Id (data w') = if found_in "www" www_containers then "/rg/example.com/www" else "".
Proof.
apply (proj2 (storage_container_read_keeps_found (fixed_blob www_containers None)
                (www_record answering tt) None tt) tt www_containers tt); reflexivity.
Defined.

Lemma storage_container_delete_witness :
  (∃ diags w',
     resourceArmStorageContainerDelete (fixed_blob www_containers (Some "409 Conflict"))
       (www_record answering tt) = (Some diags, w') ∧
     azure w' = tt ∧ diags ≠ [] ∧ data w' = data (www_record answering tt)) ∧
  resourceArmStorageContainerCreate (fixed_blob www_containers None) (www_record answering tt) =
    resourceArmStorageContainerRead (fixed_blob www_containers None)
      (@mkWorld answering tt (mkData "www" (attrs (data (www_record answering tt))))
         [EvSetId "www"]).
Proof.
split.
- apply (proj1 (storage_container_id_after_success
                  (fixed_blob www_containers (Some "409 Conflict")) (www_record answering tt))
           tt tt true (Some "409 Conflict") tt); reflexivity.
- exact (proj2 (proj2 (storage_container_id_after_success (fixed_blob www_containers None)
                         (www_record answering tt)))).
Defined.

End StorageContainerState.

(** ** Load balancer backend address pools: Read (src/azurestack/resource_arm_dns_zone.go, lines 287-335) *)

Module LoadBalancerRead.
Import Sdk Resources RouteTable LoadBalancer Lifecycle StorageContainerState.

(** The IDs of the loop [for _, x := range *xs { out = append(out, *x.ID) }],
    nothing for a nil pointer; [None] when a nil ID is dereferenced. *)
Definition ids_of (xs : option (list SubResource)) : option (list string) :=
  match xs with
  | Some xs =>
      foldl (λ out x, ids ← out; id ← sr_ID x; Some (ids ++ [id])) (Some []) xs
  | None => Some []
  end.

Lemma ids_of_mapM xs : ids_of xs = mapM sr_ID (default [] xs).
Proof.
destruct xs as [xs|]; [|done]. unfold ids_of. rewrite foldl_append_Some. cbn.
by destruct (mapM sr_ID xs).
Qed.

#[local] Arguments Set_ : simpl never.

Section Operations.
Context {E : Env}.

(** [retrieveLoadBalancerById] and [findLoadBalancerBackEndAddressPoolByName],
    which are defined outside the sources at hand. *)
Variable retrieveLoadBalancerById :
  string → cloud E → (option LoadBalancer * bool * option error) * cloud E.
Variable findLoadBalancerBackEndAddressPoolByName :
  LoadBalancer → string → option BackendAddressPool * Z * bool.

(** [func resourceArmLoadBalancerBackendAddressPoolRead] *)
Definition resourceArmLoadBalancerBackendAddressPoolRead : M E Diagnostics :=
  let* d := getData in
  match parseAzureResourceID E (Id d) with
  | inr err => ret (FromErr (Some err))
  | inl id =>
      let name := index (Path id) "backendAddressPools" in
      let* (loadBalancer, exists_, err) :=
        call (retrieveLoadBalancerById (GetString d "loadbalancer_id")) in
      match err with
      | Some e => ret (Errorf "Error retrieving Load Balancer by ID: %+v" [e])
      | None =>
          if negb exists_ then SetId "" ;; ret []
          else
            let* loadBalancer := deref loadBalancer in
            let '(config, _, exists_) :=
              findLoadBalancerBackEndAddressPoolByName loadBalancer name in
            if negb exists_ then SetId "" ;; ret []
            else
              let* config := deref config in
              Set_ "name" (of_ptr VString (pool_Name config)) ;;
              Set_ "resource_group_name" (VString (ResourceGroup id)) ;;
              let* (backendIpConfigurations, loadBalancingRules) :=
                match pool_Properties config with
                | Some props =>
                    let* backendIpConfigurations := deref (ids_of (BackendIPConfigurations props)) in
                    let* loadBalancingRules := deref (ids_of (pool_LoadBalancingRules props)) in
                    ret (backendIpConfigurations, loadBalancingRules)
                | None => ret ([], [])
                end in
              Set_ "backend_ip_configurations" (VStrings backendIpConfigurations) ;;
              Set_ "load_balancing_rules" (VStrings loadBalancingRules) ;;
              ret []
      end
  end.

(** X21. Read of a backend address pool removes the pool from the state,
    without diagnostics, when the load balancer does not exist or has no
    pool of the name.  When the pool is found it keeps the ID and returns
    no diagnostics, unless a backend IP configuration or a load balancing
    rule of the pool has no ID: then it panics. *)
Theorem backend_address_pool_read (w : world E) (id : ResourceID) (c : cloud E) :
  parseAzureResourceID E (Id (data w)) = inl id →
  let gone := (Some [], mkWorld c (mkData "" (attrs (data w))) (log w ++ [EvSetId ""])) in
  (∀ lb, retrieveLoadBalancerById (GetString (data w) "loadbalancer_id") (azure w)
         = ((lb, false, None), c) →
     resourceArmLoadBalancerBackendAddressPoolRead w = gone) ∧
  (∀ lb config i,
     retrieveLoadBalancerById (GetString (data w) "loadbalancer_id") (azure w)
       = ((Some lb, true, None), c) →
     findLoadBalancerBackEndAddressPoolByName lb (index (Path id) "backendAddressPools")
       = (config, i, false) →
     resourceArmLoadBalancerBackendAddressPoolRead w = gone) ∧
  (∀ lb config i props,
     retrieveLoadBalancerById (GetString (data w) "loadbalancer_id") (azure w)
       = ((Some lb, true, None), c) →
     findLoadBalancerBackEndAddressPoolByName lb (index (Path id) "backendAddressPools")
       = (Some config, i, true) →
     pool_Properties config = Some props →
     if bool_decide (Forall (λ x, is_Some (sr_ID x))
                       (default [] (BackendIPConfigurations props) ++
                        default [] (pool_LoadBalancingRules props)))
     then ∃ w', resourceArmLoadBalancerBackendAddressPoolRead w = (Some [], w') ∧
                Id (data w') = Id (data w) ∧ azure w' = c ∧ log w' = log w
     else (resourceArmLoadBalancerBackendAddressPoolRead w).1 = None).
Proof.
intros Hp gone. split_and!.
- intros lb Hr. unfold resourceArmLoadBalancerBackendAddressPoolRead.
  unfold bind at 1, getData. cbn. rewrite Hp. unfold bind at 1, call at 1. by rewrite Hr.
- intros lb config i Hr Hf. unfold resourceArmLoadBalancerBackendAddressPoolRead.
  unfold bind at 1, getData. cbn. rewrite Hp. unfold bind at 1, call at 1. rewrite Hr. cbn.
  by rewrite Hf.
- intros lb config i props Hr Hf Hprops.
  assert (∃ w2, Id (data w2) = Id (data w) ∧ azure w2 = c ∧ log w2 = log w ∧
            resourceArmLoadBalancerBackendAddressPoolRead w =
            (let* (backendIpConfigurations, loadBalancingRules) :=
               (let* backendIpConfigurations := deref (ids_of (BackendIPConfigurations props)) in
                let* loadBalancingRules := deref (ids_of (pool_LoadBalancingRules props)) in
                ret (backendIpConfigurations, loadBalancingRules)) in
             Set_ "backend_ip_configurations" (VStrings backendIpConfigurations) ;;
             Set_ "load_balancing_rules" (VStrings loadBalancingRules) ;;
             ret []) w2) as (w2 & Hi2 & Ha2 & Hl2 & ->).
  { unfold resourceArmLoadBalancerBackendAddressPoolRead.
    unfold bind at 1, getData. cbn. rewrite Hp. unfold bind at 1, call at 1. rewrite Hr. cbn.
    rewrite Hf. cbn. rewrite Hprops.
    unfold bind at 1.
    destruct (Set_keeps_id "name" (of_ptr VString (pool_Name config))
                (mkWorld c (data w) (log w))) as (e1 & w1 & -> & Hi1 & Ha1 & Hl1).
    unfold bind at 1.
    destruct (Set_keeps_id "resource_group_name" (VString (ResourceGroup id)) w1)
      as (e2 & w2 & -> & Hi2 & Ha2 & Hl2).
    exists w2. cbn in *. split_and!; [congruence..|done]. }
  rewrite !ids_of_mapM. case_bool_decide as Hall.
  + apply Forall_app in Hall as [[l1 H1]%mapM_is_Some [l2 H2]%mapM_is_Some].
    rewrite H1, H2. cbn.
    unfold bind at 1.
    destruct (Set_keeps_id "backend_ip_configurations" (VStrings l1) w2)
      as (e3 & w3 & -> & Hi3 & Ha3 & Hl3).
    unfold bind at 1.
    destruct (Set_keeps_id "load_balancing_rules" (VStrings l2) w3)
      as (e4 & w4 & -> & Hi4 & Ha4 & Hl4).
    exists w4. cbn in *. split_and!; [done|congruence..].
  + destruct (mapM sr_ID (default [] (BackendIPConfigurations props))) as [l1|] eqn:H1;
      [|reflexivity].
    destruct (mapM sr_ID (default [] (pool_LoadBalancingRules props))) as [l2|] eqn:H2;
      [|reflexivity].
    destruct Hall. apply Forall_app. split; apply mapM_is_Some; by eexists.
Qed.

End Operations.

(** The service of [answering], with an ID that names a backend address
    pool. *)
Definition pool_service : Env :=
  mkEnv (cloud answering) (json answering) (Future answering) (ResponseWasNotFound answering)
    (λ id, inl (mkResourceID "rg" {[ "loadBalancers" := "lb"; "backendAddressPools" := "pool1" ]}))
    (flattenAndSetTags answering) (expandTags answering) (azureStackNormalizeLocation answering)
    (routeTableResourceName answering) (EqualFold answering) (ExpandJsonFromString answering)
    (FlattenJsonToString answering) (set_refused answering) (WaitForCompletionRef answering)
    (routesClient_CreateOrUpdate answering) (routesClient_Get answering) (dnsClient_Get answering)
    (dnsClient_Delete answering) (zonesClient_Get answering) (availSetClient_Get answering)
    (vmExtensionClient_CreateOrUpdate answering) (vmExtensionClient_Get answering).

(** A pool with one backend IP configuration and no rules. *)
Definition pool1 : BackendAddressPool :=
  mkPool (Some (mkPoolProps (Some [mkSubResource (Some "/rg/nic1/ipconfig1")]) None
                  (Some "Succeeded")))
    (Some "pool1") None (Some "/rg/lb/pool1").

Definition pool1_state : world pool_service :=
  @mkWorld pool_service tt (mkData "/rg/lb/pool1" {[ "loadbalancer_id" := VString "/rg/lb" ]}) [].

Lemma backend_address_pool_read_witness :
  ∃ w', resourceArmLoadBalancerBackendAddressPoolRead
          (λ _ c, ((Some (example_lb [pool1]), true, None), c)) find_first pool1_state
        = (Some [], w') ∧
        Id (data w') = "/rg/lb/pool1" ∧ azure w' = tt ∧ log w' = [].
Proof.
apply (proj2 (proj2 (backend_address_pool_read
                       (λ _ c, ((Some (example_lb [pool1]), true, None), c)) find_first
                       pool1_state
                       (mkResourceID "rg" {[ "loadBalancers" := "lb";
                                             "backendAddressPools" := "pool1" ]})
                       tt eq_refl))
         (example_lb [pool1]) pool1 0%Z
         (mkPoolProps (Some [mkSubResource (Some "/rg/nic1/ipconfig1")]) None
            (Some "Succeeded"))); reflexivity.
Defined.

End LoadBalancerRead.

(** ** Edge cases of Read and Create of the resources *)

Module ResourceEdges.
Import Sdk Resources Lifecycle StorageContainerState.

#[local] Arguments Set_ : simpl never.

Section Proofs.
Context (E : Env).

(** X22. What Read does with an answer that has no properties: Read of a
    DNS A record, of a DNS zone and of an availability set panic on the nil
    pointer; Read of a route and of a virtual machine extension return no
    diagnostics. *)
Theorem read_answer_without_properties (w : world E) (id : ResourceID) (c : cloud E) :
  parseAzureResourceID E (Id (data w)) = inl id →
  (∀ resp, dnsClient_Get E (ResourceGroup id) (index (Path id) "dnszones")
             (index (Path id) "A") (azure w) = ((resp, None), c) →
     rs_Properties resp = None → (resourceArmDnsARecordRead E w).1 = None) ∧
  (∀ resp, zonesClient_Get E (ResourceGroup id) (index (Path id) "dnszones") (azure w)
             = ((resp, None), c) →
     zone_Properties resp = None → (resourceArmDnsZoneRead E w).1 = None) ∧
  (∀ resp, availSetClient_Get E (ResourceGroup id) (index (Path id) "availabilitySets") (azure w)
             = ((resp, None), c) →
     as_Properties resp = None →
     resourceArmAvailabilitySetRead E w = (None, mkWorld c (data w) (log w ++ [EvGet true]))) ∧
  (∀ resp, routesClient_Get E (ResourceGroup id) (index (Path id) "routeTables")
             (index (Path id) "routes") (azure w) = ((resp, None), c) →
     route_Properties resp = None →
     ∃ w', resourceArmRouteRead E w = (Some [], w')) ∧
  (∀ resp, vmExtensionClient_Get E (ResourceGroup id) (index (Path id) "virtualMachines")
             (index (Path id) "extensions") (azure w) = ((resp, None), c) →
     ext_Properties resp = None →
     ∃ w', resourceArmVirtualMachineExtensionsRead E w = (Some [], w')).
Proof.
intros Hp. split_and!.
- intros resp Hg Hn. unfold resourceArmDnsARecordRead.
  unfold bind at 1, getData. cbn. rewrite Hp. unfold bind at 1, sdk at 1. rewrite Hg. cbn.
  rewrite Hn.
  repeat (unfold bind at 1;
          match goal with |- context [Set_ ?k ?v ?w0] =>
            destruct (Set_keeps_id k v w0) as (? & ? & -> & _) end).
  done.
- intros resp Hg Hn. unfold resourceArmDnsZoneRead.
  unfold bind at 1, getData. cbn. rewrite Hp. unfold bind at 1, sdk at 1. rewrite Hg. cbn.
  rewrite Hn.
  repeat (unfold bind at 1;
          match goal with |- context [Set_ ?k ?v ?w0] =>
            destruct (Set_keeps_id k v w0) as (? & ? & -> & _) end).
  done.
- intros resp Hg Hn. unfold resourceArmAvailabilitySetRead.
  unfold bind at 1, getData. cbn. rewrite Hp. unfold bind at 1, sdk at 1. rewrite Hg. cbn.
  by rewrite Hn.
- intros resp Hg Hn. unfold resourceArmRouteRead.
  unfold bind at 1, getData. cbn. rewrite Hp. unfold bind at 1, sdk at 1. rewrite Hg. cbn.
  rewrite Hn.
  repeat (unfold bind at 1;
          match goal with |- context [Set_ ?k ?v ?w0] =>
            destruct (Set_keeps_id k v w0) as (? & ? & -> & _) end).
  by eexists.
- intros resp Hg Hn. unfold resourceArmVirtualMachineExtensionsRead.
  unfold bind at 1, getData. cbn. rewrite Hp. unfold bind at 1, sdk at 1. rewrite Hg. cbn.
  rewrite Hn.
  unfold bind at 1.
  match goal with |- context [Set_ ?k ?v ?w0] =>
    destruct (Set_keeps_id k v w0) as (? & ? & -> & _) end.
  unfold bind at 1.
  destruct (ext_Location resp);
    [match goal with |- context [Set_ ?k ?v ?w0] =>
       destruct (Set_keeps_id k v w0) as (? & ? & -> & _) end|cbn];
    repeat (unfold bind at 1;
            match goal with |- context [Set_ ?k ?v ?w0] =>
              destruct (Set_keeps_id k v w0) as (? & ? & -> & _) end);
    by eexists.
Qed.

(** X23. Create of a virtual machine extension checks the JSON of the
    settings, and then of the protected settings, before it calls the
    service: when one of them is not empty and does not parse, it returns
    diagnostics and leaves the service, the resource data and the log as
    they were. *)
Theorem extension_settings_checked_first (w : world E) (e : error) :
  let settings := GetString (data w) "settings" in
  let protectedSettings := GetString (data w) "protected_settings" in
  (settings ≠ "" ∧ ExpandJsonFromString E settings = inr e) ∨
  ((settings = "" ∨ ∃ j, ExpandJsonFromString E settings = inl j) ∧
   protectedSettings ≠ "" ∧ ExpandJsonFromString E protectedSettings = inr e) →
  ∃ diags, resourceArmVirtualMachineExtensionsCreate E w = (Some diags, w) ∧ diags ≠ [].
Proof.
intros settings protectedSettings H. unfold resourceArmVirtualMachineExtensionsCreate.
unfold bind at 1, getData. cbn. fold settings protectedSettings.
destruct H as [[Hne He]|(Hs & Hne & He)].
- rewrite decide_True by done. rewrite He. by eexists.
- assert (∃ parsed, (if decide (settings ≠ "")
                     then match ExpandJsonFromString E settings with
                          | inl j => inl (SettingsMap j)
                          | inr e => inr e
                          end
                     else inl SettingsNil) = inl parsed) as [parsed ->].
  { destruct Hs as [->|[j Hj]]; [by eexists|]. case_decide; [rewrite Hj|]; by eexists. }
  rewrite decide_True by done. rewrite He. by eexists.
Qed.

End Proofs.

(** The service of [answering], with a JSON parser that takes the empty
    object only. *)
Definition strict_json : Env :=
  mkEnv (cloud answering) (json answering) (Future answering) (ResponseWasNotFound answering)
    (parseAzureResourceID answering)
    (flattenAndSetTags answering) (expandTags answering) (azureStackNormalizeLocation answering)
    (routeTableResourceName answering) (EqualFold answering)
    (λ s, if decide (s = "{}") then inl s else inr "invalid character")
    (FlattenJsonToString answering) (set_refused answering) (WaitForCompletionRef answering)
    (routesClient_CreateOrUpdate answering) (routesClient_Get answering) (dnsClient_Get answering)
    (dnsClient_Delete answering) (zonesClient_Get answering) (availSetClient_Get answering)
    (vmExtensionClient_CreateOrUpdate answering) (vmExtensionClient_Get answering).

(** An extension whose settings are cut short. *)
Definition cut_short : world strict_json :=
  @mkWorld strict_json tt
    (mkData "" {[ "name" := VString "ext"; "settings" := VString "{" ]}) [].

Lemma read_answer_without_properties_witness :
  (resourceArmDnsARecordRead answering (www_record answering tt)).1 = None.
Proof.
apply (proj1 (read_answer_without_properties answering (www_record answering tt)
                example_id tt eq_refl)
         (mkRecordSet (Some StatusOK) (Some "/rg/example.com/www") (Some "www") None));
  reflexivity.
Defined.

Lemma extension_settings_checked_first_witness :
  ∃ diags, resourceArmVirtualMachineExtensionsCreate strict_json cut_short
           = (Some diags, cut_short) ∧ diags ≠ [].
Proof.
apply (extension_settings_checked_first strict_json cut_short "invalid character").
left. split; [done|reflexivity].
Defined.

End ResourceEdges.

(** ** Availability zones (src/internal/az/zones/zones.go, lines 69-91) *)

Module Zones.
Import Sdk RouteTable DataSources.

(** The assertion [zone.(string)]: [None] for a value that is not a string. *)
Definition as_string (zone : value) : option string :=
  match zone with
  | VString s => Some s
  | _ => None
  end.

(** [func ExpandZones(v []interface{}) *[]string]; the assertion
    [zone.(string)] panics on a value that is not a string. *)
Definition ExpandZones (v : list value) : option (option (list string)) :=
  zones ←
    foldl (λ zones zone,
             zs ← zones;
             s ← as_string zone;
             Some (zs ++ [s]))
          (Some []) v;
  Some (if decide (0 < length zones)%nat then Some zones else None).

(** [func FlattenZones(v *[]string) []interface{}] *)
Definition FlattenZones (v : option (list string)) : list value :=
  let zones := [] in
  match v with
  | None => zones
  | Some l => foldl (λ zones s, zones ++ [VString s]) zones l
  end.

Lemma ExpandZones_mapM v :
  ExpandZones v =
    zones ← mapM as_string v;
    Some (if decide (0 < length zones)%nat then Some zones else None).
Proof.
unfold ExpandZones. rewrite (foldl_append_Some as_string). by destruct (mapM as_string v).
Qed.

Lemma FlattenZones_fmap v : FlattenZones v = VString <$> default [] v.
Proof.
destruct v as [l|]; [|done]. unfold FlattenZones.
assert (H : ∀ acc, foldl (λ zones s, zones ++ [VString s]) acc l = acc ++ (VString <$> l)).
{ induction l as [|s l IH]; intros acc; cbn; [by rewrite app_nil_r|].
  by rewrite IH, <- app_assoc. }
by rewrite H.
Qed.

(** X24. Flattening what ExpandZones returns gives back the list of
    strings it was given; expanding a flattened pointer gives the pointer
    back, except that a pointer to an empty list comes back nil.
    ExpandZones returns nil for an empty list, and it panics exactly when
    an element of the list is not a string. *)
Theorem zones_round_trip :
  (∀ l, ∃ p, ExpandZones (VString <$> l) = Some p ∧ FlattenZones p = VString <$> l ∧
             (p = None ↔ l = [])) ∧
  (∀ p, ExpandZones (FlattenZones p) = Some (if decide (p = Some []) then None else p)) ∧
  (∀ v, ExpandZones v = None ↔ Exists (λ zone, as_string zone = None) v).
Proof.
assert (Hm : ∀ l, mapM as_string (VString <$> l) = Some l).
{ induction l as [|s l IH]; [done|]. cbn. by rewrite IH. }
split_and!.
- intros l. rewrite ExpandZones_mapM, Hm. cbn. eexists. split; [done|].
  rewrite FlattenZones_fmap. destruct l as [|s l]; cbn; [done|].
  rewrite decide_True by lia. done.
- intros p. rewrite ExpandZones_mapM, FlattenZones_fmap, Hm. cbn.
  destruct p as [[|s l]|]; cbn; [done| |done].
  rewrite decide_True by lia. by rewrite decide_False.
- intros v. rewrite ExpandZones_mapM, <- mapM_None_Exists.
  by destruct (mapM as_string v).
Qed.

End Zones.
